(** * Log Checker: the line parser and the anomaly rules of [src/parsers.ts]

    A shallow embedding of [parseApacheDate], [parseLine] and [analyzeLogs]
    together with the parts of the JavaScript runtime they rest on
    (backtracking regular expressions, [String.prototype.split], plain
    objects used as dictionaries, [Set], [Date]), followed by the properties
    of the specification. *)

From Stdlib Require String Ascii.
From Stdlib Require Import List ZArith NArith Bool Lia DecimalN DecimalPos Permutation.
Import ListNotations.
Import String.StringSyntax.
Delimit Scope string_scope with string.

Set Implicit Arguments.
Local Open Scope Z_scope.

(* ================================================================== *)
(** * Strings

    A JavaScript string is a sequence of UTF-16 code units.  None of the
    regular expressions of the source carries the [u] flag, so matching
    works on code units. *)

Definition char := N.
Definition str := list char.

Definition lit (s : String.string) : str :=
  List.map Ascii.N_of_ascii (String.list_ascii_of_string s).
Arguments lit s%_string.

Definition c_tab : char := 9%N.
Definition c_lf : char := 10%N.
Definition c_cr : char := 13%N.
Definition c_space : char := 32%N.
Definition c_dquote : char := 34%N.
Definition c_plus : char := 43%N.
Definition c_minus : char := 45%N.
Definition c_dot : char := 46%N.
Definition c_slash : char := 47%N.
Definition c_colon : char := 58%N.
Definition c_lbracket : char := 91%N.
Definition c_rbracket : char := 93%N.
Definition c_underscore : char := 95%N.

Definition str_eqb (a b : str) : bool :=
  if list_eq_dec N.eq_dec a b then true else false.

Definition mem (x : str) (l : list str) : bool := existsb (str_eqb x) l.

(** Truthiness of a string: only the empty string is falsy. *)
Definition truthy_str (s : str) : bool :=
  match s with [] => false | _ :: _ => true end.

(** ** Character classes of ECMAScript regular expressions *)

Definition in_range (lo hi c : N) : bool := ((lo <=? c) && (c <=? hi))%N.

(** [\d] *)
Definition isDigit (c : char) : bool := in_range 48 57 c.

(** [[A-Z]] *)
Definition isUpperAZ (c : char) : bool := in_range 65 90 c.

Definition isLowerAZ (c : char) : bool := in_range 97 122 c.

(** [\w] *)
Definition isWord (c : char) : bool :=
  isDigit c || isUpperAZ c || isLowerAZ c || (c =? c_underscore)%N.

(** [\s]: WhiteSpace and LineTerminator code points. *)
Definition isSpace (c : char) : bool :=
  in_range 9 13 c || (c =? 32)%N || (c =? 160)%N || (c =? 5760)%N
  || in_range 8192 8202 c || (c =? 8232)%N || (c =? 8233)%N
  || (c =? 8239)%N || (c =? 8287)%N || (c =? 12288)%N || (c =? 65279)%N.

(** [.] : anything but a line terminator. *)
Definition isDotChar (c : char) : bool :=
  negb ((c =? 10)%N || (c =? 13)%N || (c =? 8232)%N || (c =? 8233)%N).

(** Canonicalize of the [i] flag without [u]: upper-casing, except that a
    code unit from 128 on never folds onto an ASCII one.  Every pattern
    character of the source is ASCII, so only ASCII folding is observable. *)
Definition upper (c : char) : char :=
  if isLowerAZ c then (c - 32)%N else c.

Definition ci_eqb (a b : char) : bool := (upper a =? upper b)%N.

(* ================================================================== *)
(** * Backtracking regular expressions *)

Inductive regex : Type :=
| Eps : regex
| Chr : (char -> bool) -> regex
| Seq : regex -> regex -> regex
| Alt : regex -> regex -> regex
| Star : bool -> regex -> regex      (* [true]: greedy, [false]: lazy *)
| Grp : nat -> regex -> regex        (* capturing group number n *)
| Bol : regex                        (* ^ *)
| Wb : regex.                        (* \b *)

(** The matcher state: what lies before the current position (reversed),
    what is still ahead, and the captures made so far. *)
Record mstate : Type := MState {
  before : str;
  ahead : str;
  caps : list (nat * str)
}.

Fixpoint cap_get (i : nat) (cs : list (nat * str)) : option str :=
  match cs with
  | [] => None
  | (j, s) :: cs' => if Nat.eqb i j then Some s else cap_get i cs'
  end.

Definition isWordAt (s : str) : bool :=
  match s with [] => false | c :: _ => isWord c end.

(** The text consumed between two states of one run. *)
Definition consumed (st st' : mstate) : str :=
  firstn (length (ahead st) - length (ahead st')) (ahead st).

Definition advanced (st st' : mstate) : bool :=
  Nat.ltb (length (ahead st')) (length (ahead st)).

(** Zero or more rounds of a sub-matcher [m].  A round that consumes nothing
    is rejected, so the number of units ahead bounds the number of rounds. *)
Fixpoint star_loop (m : mstate -> (mstate -> option mstate) -> option mstate)
    (greedy : bool) (k : mstate -> option mstate) (fuel : nat) (st : mstate)
  : option mstate :=
  match fuel with
  | O => k st
  | S fuel' =>
      let again :=
        m st (fun st' => if advanced st st' then star_loop m greedy k fuel' st' else None) in
      if greedy then
        match again with Some res => Some res | None => k st end
      else
        match k st with Some res => Some res | None => again end
  end.

(** Matching in continuation-passing style: [k] is what remains to be
    matched; alternatives are tried in the order of the pattern. *)
Fixpoint run (r : regex) (st : mstate) (k : mstate -> option mstate)
  : option mstate :=
  match r with
  | Eps => k st
  | Chr p =>
      match ahead st with
      | c :: t => if p c then k (MState (c :: before st) t (caps st)) else None
      | [] => None
      end
  | Seq a b => run a st (fun st' => run b st' k)
  | Alt a b =>
      match run a st k with
      | Some res => Some res
      | None => run b st k
      end
  | Star greedy a => star_loop (run a) greedy k (length (ahead st)) st
  | Grp i a =>
      run a st (fun st' =>
        k (MState (before st') (ahead st') ((i, consumed st st') :: caps st')))
  | Bol => match before st with [] => k st | _ :: _ => None end
  | Wb => if xorb (isWordAt (before st)) (isWordAt (ahead st)) then k st else None
  end.

(** Derived forms. *)
Definition Lit1 (c : char) : regex := Chr (N.eqb c).
Definition LitCI1 (c : char) : regex := Chr (ci_eqb c).
Definition Opt (r : regex) : regex := Alt r Eps.
Definition Plus (r : regex) : regex := Seq r (Star true r).

Fixpoint Times (n : nat) (r : regex) : regex :=
  match n with O => Eps | S n' => Seq r (Times n' r) end.

(** [r{0,n}], greedy. *)
Fixpoint UpTo (n : nat) (r : regex) : regex :=
  match n with O => Eps | S n' => Opt (Seq r (UpTo n' r)) end.

Definition Rep (lo hi : nat) (r : regex) : regex :=
  Seq (Times lo r) (UpTo (hi - lo) r).

Fixpoint Lit (s : str) : regex :=
  match s with [] => Eps | c :: s' => Seq (Lit1 c) (Lit s') end.

Fixpoint LitCI (s : str) : regex :=
  match s with [] => Eps | c :: s' => Seq (LitCI1 c) (LitCI s') end.

Fixpoint Alts (rs : list regex) : regex :=
  match rs with
  | [] => Chr (fun _ => false)
  | [r] => r
  | r :: rs' => Alt r (Alts rs')
  end.

(** The result of [RegExp.prototype.exec] on a regular expression without
    the [g] and [y] flags. *)
Record mresult : Type := MResult {
  m_index : nat;
  m_all : str;
  m_caps : list (nat * str)
}.

Definition m_group (i : nat) (m : mresult) : option str := cap_get i (m_caps m).

Definition match_here (r : regex) (bef s : str) : option mstate :=
  run r (MState bef s []) Some.

Fixpoint exec_from (r : regex) (bef s : str) : option mresult :=
  match match_here r bef s with
  | Some st =>
      Some (MResult (length bef) (firstn (length s - length (ahead st)) s) (caps st))
  | None =>
      match s with
      | [] => None
      | c :: t => exec_from r (c :: bef) t
      end
  end.

Definition exec (r : regex) (s : str) : option mresult := exec_from r [] s.

Definition test (r : regex) (s : str) : bool :=
  match exec r s with Some _ => true | None => false end.

Fixpoint Seqs (rs : list regex) : regex :=
  match rs with [] => Eps | r :: rs' => Seq r (Seqs rs') end.

(* ================================================================== *)
(** * The regular expressions of the source *)

Definition digit : regex := Chr isDigit.
Definition nonspace : regex := Chr (fun c => negb (isSpace c)).
Definition sp : regex := Lit1 c_space.
Definition dq : regex := Lit1 c_dquote.
Definition notdq : regex := Chr (fun c => negb (c =? c_dquote)%N).
Definition notrbracket : regex := Chr (fun c => negb (c =? c_rbracket)%N).

(** [/\b\d{1,3}(?:\.\d{1,3}){3}\b/] *)
Definition IP_RE : regex :=
  Seqs [Wb; Rep 1 3 digit; Times 3 (Seq (Lit1 c_dot) (Rep 1 3 digit)); Wb].

(** [/\s(\d{3})\s/] *)
Definition STATUS_RE : regex :=
  Seqs [Chr isSpace; Grp 1 (Times 3 digit); Chr isSpace].

(** The combined access-log pattern, element by element as in the source
    (Q is the double quote; no flag, anchored at the start only):
    ^  (\S+)  space  \S+  space  \S+  space  \[  ([^\]]+)  \]  space
    Q  ([A-Z]+)  space  ( [^Q]*? )  space  [^Q]*  Q  space
    (\d{3})  space  (?:\d+|-)  space  Q  [^Q]*  Q  space  Q  ( [^Q]* )  Q *)
Definition CLF_RE : regex :=
  Seqs [Bol; Grp 1 (Plus nonspace); sp; Plus nonspace; sp; Plus nonspace; sp;
        Lit1 c_lbracket; Grp 2 (Plus notrbracket); Lit1 c_rbracket; sp;
        dq; Grp 3 (Plus (Chr isUpperAZ)); sp; Grp 4 (Star false notdq); sp;
        Star true notdq; dq; sp;
        Grp 5 (Times 3 digit); sp; Alt (Plus digit) (Lit1 c_minus); sp;
        dq; Star true notdq; dq; sp;
        dq; Grp 6 (Star true notdq); dq].

(** [/(Failed password|authentication failure|Invalid user|Login incorrect)/i] *)
Definition SSH_FAILED_RE : regex :=
  Grp 1 (Alts [LitCI (lit "Failed password"); LitCI (lit "authentication failure");
               LitCI (lit "Invalid user"); LitCI (lit "Login incorrect")]).

(** [/(\d{2})\/(\w{3})\/(\d{4}):(\d{2}):(\d{2}):(\d{2}) ([+-]\d{4})/] *)
Definition DATE_RE : regex :=
  Seqs [Grp 1 (Times 2 digit); Lit1 c_slash; Grp 2 (Times 3 (Chr isWord)); Lit1 c_slash;
        Grp 3 (Times 4 digit); Lit1 c_colon; Grp 4 (Times 2 digit); Lit1 c_colon;
        Grp 5 (Times 2 digit); Lit1 c_colon; Grp 6 (Times 2 digit); sp;
        Grp 7 (Seq (Chr (fun c => (c =? c_plus)%N || (c =? c_minus)%N)) (Times 4 digit))].

(** With Q for the double quote:
    Q(Mozilla|curl|Wget|Postman|python-requests|Go-http-client|sqlmap).*?Q
    with the [i] flag. *)
Definition UA_RE : regex :=
  Seqs [LitCI1 c_dquote;
        Grp 1 (Alts [LitCI (lit "Mozilla"); LitCI (lit "curl"); LitCI (lit "Wget");
                     LitCI (lit "Postman"); LitCI (lit "python-requests");
                     LitCI (lit "Go-http-client"); LitCI (lit "sqlmap")]);
        Star false (Chr isDotChar); LitCI1 c_dquote].

(** [/failed login/i] *)
Definition FAILED_LOGIN_RE : regex := LitCI (lit "failed login").

(** [/curl|wget|postman|python-requests|go-http-client|sqlmap/i] *)
Definition suspicious_tokens : list str :=
  [lit "curl"; lit "wget"; lit "postman"; lit "python-requests";
   lit "go-http-client"; lit "sqlmap"].

Definition SUSPICIOUS_RE : regex := Alts (List.map LitCI suspicious_tokens).

(** [/\r?\n/] *)
Definition NEWLINE_RE : regex := Seq (Opt (Lit1 c_cr)) (Lit1 c_lf).

(* ================================================================== *)
(** * String.prototype.split *)

(** [s.split(r)] for a regular expression [r] without capturing groups.
    [bef] is the text before the search position [q] (reversed), [piece]
    the units gathered since the last split point [p] (reversed).  After a
    match at [q] that ends at [e], the search goes on at [e]: [skip] counts
    the units of the separator that remain to be passed over. *)
Fixpoint split_loop (r : regex) (bef piece : str) (skip : nat) (s : str)
  : list str :=
  match s with
  | [] => [rev piece]
  | c :: t =>
      match skip with
      | S n => split_loop r (c :: bef) [] n t
      | O =>
          match match_here r bef s with
          | None => split_loop r (c :: bef) (c :: piece) O t
          | Some st =>
              let n := (length s - length (ahead st))%nat in
              match n, piece with
              | O, [] => split_loop r (c :: bef) [c] O t
              | O, _ :: _ => rev piece :: split_loop r (c :: bef) [c] O t
              | S n', _ => rev piece :: split_loop r (c :: bef) [] n' t
              end
          end
      end
  end.

Definition split (r : regex) (s : str) : list str :=
  match s with
  | [] => match match_here r [] [] with Some _ => [] | None => [[]] end
  | _ :: _ => split_loop r [] [] O s
  end.

(** [s.split(c)] for a separator of one code unit. *)
Fixpoint split_char_loop (sep : char) (piece : str) (s : str) : list str :=
  match s with
  | [] => [rev piece]
  | c :: t =>
      if (c =? sep)%N then rev piece :: split_char_loop sep [] t
      else split_char_loop sep (c :: piece) t
  end.

Definition split_char (sep : char) (s : str) : list str := split_char_loop sep [] s.

(* ================================================================== *)
(** * Numbers *)

(** Integers printed in a template literal. *)
Fixpoint uint_str (u : Decimal.uint) : str :=
  match u with
  | Decimal.Nil => []
  | Decimal.D0 u' => 48%N :: uint_str u'
  | Decimal.D1 u' => 49%N :: uint_str u'
  | Decimal.D2 u' => 50%N :: uint_str u'
  | Decimal.D3 u' => 51%N :: uint_str u'
  | Decimal.D4 u' => 52%N :: uint_str u'
  | Decimal.D5 u' => 53%N :: uint_str u'
  | Decimal.D6 u' => 54%N :: uint_str u'
  | Decimal.D7 u' => 55%N :: uint_str u'
  | Decimal.D8 u' => 56%N :: uint_str u'
  | Decimal.D9 u' => 57%N :: uint_str u'
  end.

Definition num_str (z : Z) : str :=
  if z <? 0 then c_minus :: uint_str (N.to_uint (Z.to_N (- z)))
  else uint_str (N.to_uint (Z.to_N z)).

Definition digit_val (c : char) : Z := Z.of_N c - 48.

Fixpoint digits_val (acc : Z) (s : str) : Z :=
  match s with
  | c :: t => if isDigit c then digits_val (10 * acc + digit_val c) t else acc
  | [] => acc
  end.

(** [parseInt(s, 10)] on a string that starts with a digit or not with one
    ([None] is NaN); the source only applies it to three digits. *)
Definition parseInt10 (s : str) : option Z :=
  match s with
  | c :: _ => if isDigit c then Some (digits_val 0 s) else None
  | [] => None
  end.

(* ================================================================== *)
(** * Option plumbing *)

Definition obind {A B : Type} (o : option A) (f : A -> option B) : option B :=
  match o with Some a => f a | None => None end.

Notation "x <- e ;; k" := (obind e (fun x => k))
  (at level 61, e at next level, right associativity).
Notation "' p <- e ;; k" := (obind e (fun p => k))
  (at level 61, p pattern, e at next level, right associativity).

(** A possibly undefined string spliced into a template literal. *)
Definition tmpl (o : option str) : str :=
  match o with Some s => s | None => lit "undefined" end.

Fixpoint assoc {V : Type} (k : str) (l : list (str * V)) : option V :=
  match l with
  | [] => None
  | (k', v) :: l' => if str_eqb k k' then Some v else assoc k l'
  end.

(* ================================================================== *)
(** * Date

    [new Date(iso).getTime()] for the strings [parseApacheDate] builds.
    They have the shape YYYY-MM-DDTHH:mm:ss+HH:mm of the ECMAScript date-time
    string format, or carry the word undefined in the month position, which
    no engine accepts.  The time value follows MakeDay, MakeTime and MakeDate
    of ECMA-262; element ranges are checked the way V8 does (a day up to 31
    in any month, hour 24 only as 24:00:00).  [None] is NaN. *)

Fixpoint take_digits (n : nat) (acc : Z) (s : str) : option (Z * str) :=
  match n with
  | O => Some (acc, s)
  | S n' =>
      match s with
      | c :: t => if isDigit c then take_digits n' (10 * acc + digit_val c) t else None
      | [] => None
      end
  end.

Definition expect (c : char) (s : str) : option str :=
  match s with
  | c' :: t => if (c' =? c)%N then Some t else None
  | [] => None
  end.

Definition take_sign (s : str) : option (Z * str) :=
  match s with
  | c :: t =>
      if (c =? c_plus)%N then Some (1, t)
      else if (c =? c_minus)%N then Some (-1, t)
      else None
  | [] => None
  end.

Definition DayFromYear (y : Z) : Z :=
  365 * (y - 1970) + (y - 1969) / 4 - (y - 1901) / 100 + (y - 1601) / 400.

Definition InLeapYear (y : Z) : bool :=
  (y mod 4 =? 0) && (negb (y mod 100 =? 0) || (y mod 400 =? 0)).

(** Days of the year before the first of month [m] (1 to 12). *)
Definition DaysBeforeMonth (leap : bool) (m : Z) : Z :=
  let l := if leap then 1 else 0 in
  match m with
  | 1 => 0 | 2 => 31 | 3 => 59 + l | 4 => 90 + l | 5 => 120 + l | 6 => 151 + l
  | 7 => 181 + l | 8 => 212 + l | 9 => 243 + l | 10 => 273 + l | 11 => 304 + l
  | _ => 334 + l
  end.

Definition MakeDay (y m d : Z) : Z :=
  DayFromYear y + DaysBeforeMonth (InLeapYear y) m + d - 1.

Definition MakeTime (h mi s : Z) : Z := h * 3600000 + mi * 60000 + s * 1000.

Definition MakeDate (day time : Z) : Z := day * 86400000 + time.

Definition valid_clock (h mi s : Z) : bool :=
  ((h <=? 23) && (mi <=? 59) && (s <=? 59))
  || ((h =? 24) && (mi =? 0) && (s =? 0)).

Definition Date_parse (iso : str) : option Z :=
  '(y, s) <- take_digits 4 0 iso ;;
  s <- expect c_minus s ;;
  '(mo, s) <- take_digits 2 0 s ;;
  s <- expect c_minus s ;;
  '(d, s) <- take_digits 2 0 s ;;
  s <- expect 84%N s ;;
  '(h, s) <- take_digits 2 0 s ;;
  s <- expect c_colon s ;;
  '(mi, s) <- take_digits 2 0 s ;;
  s <- expect c_colon s ;;
  '(sec, s) <- take_digits 2 0 s ;;
  '(sign, s) <- take_sign s ;;
  '(zh, s) <- take_digits 2 0 s ;;
  s <- expect c_colon s ;;
  '(zm, s) <- take_digits 2 0 s ;;
  match s with
  | [] =>
      if (1 <=? mo) && (mo <=? 12) && (1 <=? d) && (d <=? 31)
         && valid_clock h mi sec && (zh <=? 23) && (zm <=? 59)
      then Some (MakeDate (MakeDay y mo d) (MakeTime h mi sec)
                 - sign * ((zh * 60 + zm) * 60000))
      else None
  | _ :: _ => None
  end.

(* ================================================================== *)
(** * parseApacheDate *)

Definition months : list (str * str) :=
  [(lit "Jan", lit "01"); (lit "Feb", lit "02"); (lit "Mar", lit "03");
   (lit "Apr", lit "04"); (lit "May", lit "05"); (lit "Jun", lit "06");
   (lit "Jul", lit "07"); (lit "Aug", lit "08"); (lit "Sep", lit "09");
   (lit "Oct", lit "10"); (lit "Nov", lit "11"); (lit "Dec", lit "12")].

(** The result is [None] both for [undefined] (no match) and for NaN (an
    invalid date); the only caller tests it for truthiness.  Nothing in the
    body throws, the [catch] branch is never taken.  [months[MMM]] looks
    three-letter keys up, and Object.prototype has no property with a name of
    three letters, so only the table itself answers. *)
Definition parseApacheDate (d : str) : option Z :=
  match exec DATE_RE d with
  | None => None
  | Some m =>
      let DD := m_group 1 m in
      let MMM := m_group 2 m in
      let YYYY := m_group 3 m in
      let hh := m_group 4 m in
      let mm := m_group 5 m in
      let ss := m_group 6 m in
      let tz := tmpl (m_group 7 m) in
      let iso :=
        tmpl YYYY ++ lit "-" ++ tmpl (obind MMM (fun k => assoc k months))
        ++ lit "-" ++ tmpl DD ++ lit "T" ++ tmpl hh ++ lit ":" ++ tmpl mm
        ++ lit ":" ++ tmpl ss ++ firstn 3 tz ++ lit ":" ++ skipn 3 tz in
      Date_parse iso
  end.

(* ================================================================== *)
(** * parseLine *)

Record LogEntry : Type := mkEntry {
  raw : str;
  ip : option str;
  status : option Z;
  ts : option Z;
  method : option str;
  path : option str;
  ua : option str;
  tags : list str
}.

(** [if (ts) entry.ts = ts]: zero is as falsy as NaN and [undefined]. *)
Definition truthy_num (o : option Z) : option Z :=
  match o with
  | Some t => if t =? 0 then None else Some t
  | None => None
  end.

Definition first_ip (line : str) : option str := option_map m_all (exec IP_RE line).

Definition parseLine (line : str) : LogEntry :=
  match exec CLF_RE line with
  | Some m =>
      {| raw := line;
         ip := m_group 1 m;
         ts := truthy_num (parseApacheDate (tmpl (m_group 2 m)));
         method := m_group 3 m;
         path := m_group 4 m;
         status := obind (m_group 5 m) parseInt10;
         ua := m_group 6 m;
         tags := [] |}
  | None =>
      if test SSH_FAILED_RE line then
        {| raw := line; ip := first_ip line; status := None; ts := None;
           method := None; path := None; ua := None;
           tags := [lit "failed_login"] |}
      else
        {| raw := line;
           ip := first_ip line;
           status := match exec STATUS_RE line with
                     | Some sm => obind (m_group 1 sm) parseInt10
                     | None => None
                     end;
           ts := None; method := None; path := None;
           ua := option_map m_all (exec UA_RE line);
           tags := [] |}
  end.

(* ================================================================== *)
(** * Plain objects used as dictionaries

    The counters of [analyzeLogs] are object literals, so a property read
    falls through to Object.prototype when the object has no own property of
    that name.  What is read there is a function or an object: truthy, and
    turned into a string by [+ 1].  [NonNumeric] stands for such a value and
    for the strings built from it; all of them convert to NaN in a
    comparison. *)

Inductive jsval : Type :=
| Undefined : jsval
| Number : Z -> jsval
| NonNumeric : jsval.

(** Own enumerable properties, in the order of their creation. *)
Definition jsobj := list (str * jsval).

Definition proto_name : str := lit "__proto__".

Definition object_prototype_keys : list str :=
  [lit "constructor"; lit "__defineGetter__"; lit "__defineSetter__";
   lit "hasOwnProperty"; lit "__lookupGetter__"; lit "__lookupSetter__";
   lit "isPrototypeOf"; lit "propertyIsEnumerable"; lit "toString";
   lit "valueOf"; proto_name; lit "toLocaleString"].

(** [o[k]] *)
Definition get (o : jsobj) (k : str) : jsval :=
  match assoc k o with
  | Some v => v
  | None => if mem k object_prototype_keys then NonNumeric else Undefined
  end.

Fixpoint own_set (o : jsobj) (k : str) (v : jsval) : jsobj :=
  match o with
  | [] => [(k, v)]
  | (k', v') :: o' =>
      if str_eqb k k' then (k, v) :: o' else (k', v') :: own_set o' k v
  end.

(** [o[k] = v] for a number or a string [v]: the inherited setter of
    [__proto__] ignores it, any other name becomes or stays an own
    property. *)
Definition put (o : jsobj) (k : str) (v : jsval) : jsobj :=
  if str_eqb k proto_name then o else own_set o k v.

(** [(v || 0) + 1] *)
Definition or0_plus1 (v : jsval) : jsval :=
  match v with
  | Undefined => Number 1
  | Number n => Number (n + 1)
  | NonNumeric => NonNumeric
  end.

(** [o[k] = (o[k] || 0) + 1] *)
Definition bump (o : jsobj) (k : str) : jsobj := put o k (or0_plus1 (get o k)).

(** [!v] *)
Definition falsy (v : jsval) : bool :=
  match v with
  | Undefined => true
  | Number n => n =? 0
  | NonNumeric => false
  end.

(** [a > b] when at least one side is a number; NaN compares false. *)
Definition gt (a b : jsval) : bool :=
  match a, b with
  | Number x, Number y => y <? x
  | _, _ => false
  end.

(** An array index: a canonical numeric string below 2^32 - 1. *)
Definition array_index (k : str) : option Z :=
  match k with
  | [] => None
  | c :: t =>
      if forallb isDigit k && (negb (c =? 48)%N || match t with [] => true | _ => false end)
         && (digits_val 0 k <? 4294967295)
      then Some (digits_val 0 k) else None
  end.

Fixpoint insert_by_index (x : Z * (str * jsval)) (l : list (Z * (str * jsval)))
  : list (Z * (str * jsval)) :=
  match l with
  | [] => [x]
  | y :: l' => if fst x <=? fst y then x :: l else y :: insert_by_index x l'
  end.

Fixpoint indexed_props (o : jsobj) : list (Z * (str * jsval)) :=
  match o with
  | [] => []
  | (k, v) :: o' =>
      match array_index k with
      | Some i => insert_by_index (i, (k, v)) (indexed_props o')
      | None => indexed_props o'
      end
  end.

Definition named_props (o : jsobj) : jsobj :=
  filter (fun kv => match array_index (fst kv) with Some _ => false | None => true end) o.

(** [Object.entries(o)]: array indices in ascending order, then the other
    names in order of creation. *)
Definition Object_entries (o : jsobj) : list (str * jsval) :=
  List.map snd (indexed_props o) ++ named_props o.

(** A [Set] of strings, in insertion order. *)
Definition set_add (x : str) (s : list str) : list str :=
  if mem x s then s else s ++ [x].

(* ================================================================== *)
(** * analyzeLogs *)

Record Anomaly : Type := mkAnomaly {
  type : str;
  message : str;
  line : option str
}.

Record Analysis : Type := mkAnalysis {
  entries : list LogEntry;
  anomalies : list Anomaly
}.

(** The mutable locals of [analyzeLogs]. *)
Record Agg : Type := mkAgg {
  acc_anomalies : list Anomaly;
  failedByIP : jsobj;
  errorsByIP : jsobj;
  uaSet : list str;
  perMinute : jsobj;
  nightByIP : jsobj
}.

Definition agg0 : Agg := mkAgg [] [] [] [] [] [].

Definition error_statuses : list Z := [403; 404; 500; 502; 503].

Definition unknown : str := lit "unknown".

(** [e.ip || DEFAULT] *)
Definition key_of (o : option str) : str :=
  match o with
  | Some a => if truthy_str a then a else unknown
  | None => unknown
  end.

Definition is_failed_login (e : LogEntry) : bool :=
  mem (lit "failed_login") (tags e) || test FAILED_LOGIN_RE (raw e).

Definition is_http_error (e : LogEntry) : bool :=
  match status e with
  | Some s => existsb (Z.eqb s) error_statuses
  | None => false
  end.

Definition http_error_anomaly (s : Z) (e : LogEntry) : Anomaly :=
  mkAnomaly (lit "HTTP Error")
            (lit "HTTP " ++ num_str s ++ lit " from " ++ key_of (ip e))
            (Some (raw e)).

Definition minute_key (a : str) (t : Z) : str :=
  a ++ lit ":" ++ num_str (t / 60000).

Definition en_dash : char := 8211%N.

Definition brute_force_rule (kv : str * jsval) : list Anomaly :=
  match snd kv with
  | Number cnt =>
      if 6 <=? cnt
      then [mkAnomaly (lit "Brute Force")
                      (num_str cnt ++ lit " failed logins from " ++ fst kv) None]
      else []
  | _ => []
  end.

Definition error_spike_rule (kv : str * jsval) : list Anomaly :=
  match snd kv with
  | Number cnt =>
      if 12 <=? cnt
      then [mkAnomaly (lit "Error Spike")
                      (num_str cnt ++ lit " HTTP errors from " ++ fst kv) None]
      else []
  | _ => []
  end.

Definition suspicious_ua_anomaly : Anomaly :=
  mkAnomaly (lit "Suspicious UA")
            (lit "Automation/tool user-agents detected (curl/wget/Postman/etc.)")
            None.

Definition max_step (maxPerIP : jsobj) (kc : str * jsval) : jsobj :=
  let ip := hd [] (split_char c_colon (fst kc)) in
  let count := snd kc in
  if falsy (get maxPerIP ip) || gt count (get maxPerIP ip)
  then put maxPerIP ip count
  else maxPerIP.

Definition rate_spike_rule (kv : str * jsval) : list Anomaly :=
  match snd kv with
  | Number max =>
      if 120 <? max
      then [mkAnomaly (lit "Rate Spike")
                      (fst kv ++ lit " peaked at " ++ num_str max ++ lit " req/min") None]
      else []
  | _ => []
  end.

Definition off_hours_rule (kv : str * jsval) : list Anomaly :=
  match snd kv with
  | Number cnt =>
      if 100 <=? cnt
      then [mkAnomaly (lit "Off-hours Activity")
                      (num_str cnt ++ lit " requests between 00:00" ++ [en_dash]
                       ++ lit "05:00 from " ++ fst kv) None]
      else []
  | _ => []
  end.

Section Analyze.

(** [new Date(t).getHours()]: the hour of the day of instant [t] in the time
    zone of the machine that runs the analysis. *)
Variable getHours : Z -> Z.

Definition count_failed (e : LogEntry) (st : Agg) : Agg :=
  if is_failed_login e
  then mkAgg (acc_anomalies st) (bump (failedByIP st) (key_of (ip e)))
             (errorsByIP st) (uaSet st) (perMinute st) (nightByIP st)
  else st.

Definition count_error (e : LogEntry) (st : Agg) : Agg :=
  match status e with
  | Some s =>
      if existsb (Z.eqb s) error_statuses
      then mkAgg (acc_anomalies st ++ [http_error_anomaly s e]) (failedByIP st)
                 (bump (errorsByIP st) (key_of (ip e)))
                 (uaSet st) (perMinute st) (nightByIP st)
      else st
  | None => st
  end.

Definition collect_ua (e : LogEntry) (st : Agg) : Agg :=
  match ua e with
  | Some u =>
      if truthy_str u
      then mkAgg (acc_anomalies st) (failedByIP st) (errorsByIP st)
                 (set_add u (uaSet st)) (perMinute st) (nightByIP st)
      else st
  | None => st
  end.

Definition count_rate (e : LogEntry) (st : Agg) : Agg :=
  match ts e, ip e with
  | Some t, Some a =>
      if negb (t =? 0) && truthy_str a then
        let hour := getHours t in
        mkAgg (acc_anomalies st) (failedByIP st) (errorsByIP st) (uaSet st)
              (bump (perMinute st) (minute_key a t))
              (if (0 <=? hour) && (hour <? 5)
               then bump (nightByIP st) (key_of (ip e))
               else nightByIP st)
      else st
  | _, _ => st
  end.

(** One turn of [for (const e of entries)]. *)
Definition step (st : Agg) (e : LogEntry) : Agg :=
  count_rate e (collect_ua e (count_error e (count_failed e st))).

Definition aggregate (es : list LogEntry) : Agg := fold_left step es agg0.

Definition suspicious (uas : list str) : bool := existsb (test SUSPICIOUS_RE) uas.

Definition post_rules (st : Agg) : list Anomaly :=
  let a1 := acc_anomalies st ++ flat_map brute_force_rule (Object_entries (failedByIP st)) in
  let a2 := a1 ++ flat_map error_spike_rule (Object_entries (errorsByIP st)) in
  let a3 := if suspicious (uaSet st) then a2 ++ [suspicious_ua_anomaly] else a2 in
  let maxPerIP := fold_left max_step (Object_entries (perMinute st)) [] in
  let a4 := a3 ++ flat_map rate_spike_rule (Object_entries maxPerIP) in
  a4 ++ flat_map off_hours_rule (Object_entries (nightByIP st)).

Definition analyzeLogs (text : str) : Analysis :=
  let lines := filter truthy_str (split NEWLINE_RE text) in
  let es := List.map parseLine lines in
  mkAnalysis es (post_rules (aggregate es)).

End Analyze.

(* ================================================================== *)
(** * Reference semantics

    What the specification's words mean, stated without the machinery of the
    implementation. *)

(** ** What a pattern matches

    [Matches r bef w aft cs cs']: with [bef] before it (reversed) and [aft]
    after it, the text [w] is matched by [r], and the captures go from [cs]
    to [cs']. *)
Inductive Matches : regex -> str -> str -> str ->
                    list (nat * str) -> list (nat * str) -> Prop :=
| M_Eps bef aft cs : Matches Eps bef [] aft cs cs
| M_Chr p c bef aft cs : p c = true -> Matches (Chr p) bef [c] aft cs cs
| M_Seq a b bef w1 w2 aft cs cs1 cs2 :
    Matches a bef w1 (w2 ++ aft) cs cs1 ->
    Matches b (rev w1 ++ bef) w2 aft cs1 cs2 ->
    Matches (Seq a b) bef (w1 ++ w2) aft cs cs2
| M_AltL a b bef w aft cs cs1 :
    Matches a bef w aft cs cs1 -> Matches (Alt a b) bef w aft cs cs1
| M_AltR a b bef w aft cs cs1 :
    Matches b bef w aft cs cs1 -> Matches (Alt a b) bef w aft cs cs1
| M_Star0 g a bef aft cs : Matches (Star g a) bef [] aft cs cs
| M_StarS g a bef w1 w2 aft cs cs1 cs2 :
    w1 <> [] ->
    Matches a bef w1 (w2 ++ aft) cs cs1 ->
    Matches (Star g a) (rev w1 ++ bef) w2 aft cs1 cs2 ->
    Matches (Star g a) bef (w1 ++ w2) aft cs cs2
| M_Grp i a bef w aft cs cs1 :
    Matches a bef w aft cs cs1 ->
    Matches (Grp i a) bef w aft cs ((i, w) :: cs1)
| M_Bol aft cs : Matches Bol [] [] aft cs cs
| M_Wb bef aft cs :
    xorb (isWordAt bef) (isWordAt aft) = true -> Matches Wb bef [] aft cs cs.

(** ** Lines of a text

    A line ends at a line feed; a carriage return right before that line
    feed belongs to the line ending, not to the line.  What follows the last
    line feed is the last line. *)
Definition drop_cr (piece : str) : str :=
  match piece with
  | c :: p => if (c =? c_cr)%N then p else piece
  | [] => []
  end.

Fixpoint spec_lines_from (piece : str) (s : str) : list str :=
  match s with
  | [] => [rev piece]
  | c :: t =>
      if (c =? c_lf)%N then rev (drop_cr piece) :: spec_lines_from [] t
      else spec_lines_from (c :: piece) t
  end.

Definition spec_lines (s : str) : list str := spec_lines_from [] s.

Definition nonempty_lines (s : str) : list str :=
  filter (fun l => negb (str_eqb l [])) (spec_lines s).

(** ** Counting entries

    [tally sel k es]: how many entries of [es] are filed under key [k] by the
    selector [sel]. *)
Definition files_under (sel : LogEntry -> option str) (k : str) (e : LogEntry) : bool :=
  match sel e with Some k' => str_eqb k' k | None => false end.

Definition tally (sel : LogEntry -> option str) (k : str) (es : list LogEntry) : Z :=
  Z.of_nat (length (filter (files_under sel k) es)).

(** The key under which an entry counts as a failed login, as an HTTP error. *)
Definition failed_key (e : LogEntry) : option str :=
  if is_failed_login e then Some (key_of (ip e)) else None.

Definition error_key (e : LogEntry) : option str :=
  if is_http_error e then Some (key_of (ip e)) else None.

(** The failed-login count of an address. *)
Definition failed_count (a : str) (es : list LogEntry) : Z := tally failed_key a es.

(** An entry takes part in the rate statistics when it has a (truthy)
    timestamp and a (truthy) address; its minute bucket is the timestamp
    integer-divided by 60000. *)
Definition rated (e : LogEntry) : option (str * Z) :=
  match ts e, ip e with
  | Some t, Some a =>
      if negb (t =? 0) && truthy_str a then Some (a, t / 60000) else None
  | _, _ => None
  end.

(** How many entries of address [a] fall into minute bucket [b]. *)
Definition bucket_count (a : str) (b : Z) (es : list LogEntry) : Z :=
  Z.of_nat (length (filter
    (fun e => match rated e with
              | Some (a', b') => str_eqb a' a && (b' =? b)
              | None => false
              end) es)).

Definition zmax_list (l : list Z) : Z := fold_right Z.max 0 l.

(** The largest single-minute bucket count of address [a]. *)
Definition peak (a : str) (es : list LogEntry) : Z :=
  zmax_list (List.map
    (fun e => match rated e with
              | Some (a', b) => if str_eqb a' a then bucket_count a b es else 0
              | None => 0
              end) es).

(** The part of a string before its first colon. *)
Fixpoint before_colon (a : str) : str :=
  match a with
  | [] => []
  | c :: t => if (c =? c_colon)%N then [] else c :: before_colon t
  end.

(** The largest single-minute bucket count among the addresses whose part
    before the first colon is [p]. *)
Definition group_peak (p : str) (es : list LogEntry) : Z :=
  zmax_list (List.map
    (fun e => match rated e with
              | Some (a, b) =>
                  if str_eqb (before_colon a) p then bucket_count a b es else 0
              | None => 0
              end) es).

(** [x] occurs in [s] as a contiguous part. *)
Definition contains (x s : str) : Prop := exists pre post, s = pre ++ x ++ post.

Definition http_errors_of (e : LogEntry) : list Anomaly :=
  match status e with
  | Some s => if existsb (Z.eqb s) error_statuses then [http_error_anomaly s e] else []
  | None => []
  end.

Definition has_type (t : str) (a : Anomaly) : bool := str_eqb (type a) t.

(** ** The counters as functions of the entries *)

(** The key of the per-minute counter an entry is filed under. *)
Definition rate_key (e : LogEntry) : option str :=
  match rated e with
  | Some (a, b) => Some (a ++ lit ":" ++ num_str b)
  | None => None
  end.

Definition night_key (getHours : Z -> Z) (e : LogEntry) : option str :=
  match ts e, ip e with
  | Some t, Some a =>
      if negb (t =? 0) && truthy_str a && (0 <=? getHours t) && (getHours t <? 5)
      then Some (key_of (ip e)) else None
  | _, _ => None
  end.

Definition bump_fold (sel : LogEntry -> option str) (es : list LogEntry) (o : jsobj)
  : jsobj :=
  fold_left (fun o e => match sel e with Some k => bump o k | None => o end) es o.

(** [counts o f]: the object [o] holds, under every name that
    Object.prototype does not know, the number [f] gives, and no property
    where [f] gives zero. *)
Definition counts (o : jsobj) (f : str -> Z) : Prop :=
  NoDup (List.map fst o) /\
  forall k, ~ In k object_prototype_keys ->
    assoc k o = if f k =? 0 then None else Some (Number (f k)).

(** ** The blocks of the anomaly list *)

Definition brute_force_block (st : Agg) : list Anomaly :=
  flat_map brute_force_rule (Object_entries (failedByIP st)).

Definition error_spike_block (st : Agg) : list Anomaly :=
  flat_map error_spike_rule (Object_entries (errorsByIP st)).

Definition suspicious_ua_block (st : Agg) : list Anomaly :=
  if suspicious (uaSet st) then [suspicious_ua_anomaly] else [].

Definition maxPerIP_of (st : Agg) : jsobj :=
  fold_left max_step (Object_entries (perMinute st)) [].

Definition rate_spike_block (st : Agg) : list Anomaly :=
  flat_map rate_spike_rule (Object_entries (maxPerIP_of st)).

Definition off_hours_block (st : Agg) : list Anomaly :=
  flat_map off_hours_rule (Object_entries (nightByIP st)).

Definition all_of_type (t : str) (l : list Anomaly) : Prop :=
  Forall (fun a => type a = t) l.

Definition t_http_error : str := lit "HTTP Error".
Definition t_brute_force : str := lit "Brute Force".
Definition t_error_spike : str := lit "Error Spike".
Definition t_suspicious_ua : str := lit "Suspicious UA".
Definition t_rate_spike : str := lit "Rate Spike".
Definition t_off_hours : str := lit "Off-hours Activity".

(** ** Containing a word, whatever the case *)

Definition lower (c : char) : char :=
  if isUpperAZ c then (c + 32)%N else c.

Definition contains_ci (tok u : str) : Prop :=
  contains (List.map lower tok) (List.map lower u).

(** The user-agent strings that reach the global set. *)
Definition seen_user_agent (es : list LogEntry) (u : str) : Prop :=
  u <> [] /\ exists e, In e es /\ ua e = Some u.

Definition suspicious_seen (es : list LogEntry) : Prop :=
  exists u tok, seen_user_agent es u /\ In tok suspicious_tokens /\ contains_ci tok u.

(** ** IPv4-looking tokens *)

(** One to three digits. *)
Definition octet (o : str) : Prop :=
  (1 <= length o <= 3)%nat /\ Forall (fun c => isDigit c = true) o.

(** Four such groups joined by dots: what \d{1,3}(\.\d{1,3}){3} describes. *)
Definition dotted_quad (a : str) : Prop :=
  exists o1 o2 o3 o4,
    octet o1 /\ octet o2 /\ octet o3 /\ octet o4 /\
    a = o1 ++ c_dot :: o2 ++ c_dot :: o3 ++ c_dot :: o4.

(** [a] stands in a line between [pre] and [post] as a token of its own:
    no letter, digit or underscore touches it on either side. *)
Definition ipv4_token_at (pre a post : str) : Prop :=
  dotted_quad a /\ isWordAt (rev pre) = false /\ isWordAt post = false.

Definition plain (c : char) : Prop := isDigit c = true \/ c = c_minus.

Definition brute_force_anomaly (n : Z) (a : str) : Anomaly :=
  mkAnomaly t_brute_force (num_str n ++ lit " failed logins from " ++ a) None.

Definition is_max (m : Z) (S : Z -> Prop) : Prop :=
  0 <= m /\ (m = 0 \/ S m) /\ forall x, S x -> x <= m.

Definition seg_value (p : str) (kv : str * jsval) : Z :=
  if str_eqb (before_colon (fst kv)) p
  then match snd kv with Number c => c | _ => 0 end
  else 0.

Definition positive_count (kv : str * jsval) : Prop :=
  exists c, snd kv = Number c /\ 0 < c.

Definition rate_spike_anomaly (p : str) (n : Z) : Anomaly :=
  mkAnomaly t_rate_spike (p ++ lit " peaked at " ++ num_str n ++ lit " req/min") None.


(* ================================================================== *)
(** * Sample inputs *)

(** [new Date(t).getHours()] on a machine whose time zone is UTC. *)
Definition utcHours (t : Z) : Z := (t / 3600000) mod 24.

Definition quoted (s : str) : str := c_dquote :: s ++ [c_dquote].

(** A line of the combined access-log format. *)
Definition clf_line (host date request code agent : str) : str :=
  host ++ lit " - - [" ++ date ++ lit "] " ++ quoted request ++ lit " " ++ code
  ++ lit " 512 " ++ quoted (lit "-") ++ lit " " ++ quoted agent.

(** [n] copies of [l], each followed by a line feed. *)
Definition lines_of (n : nat) (l : str) : str :=
  concat (repeat (l ++ [c_lf]) n).

Definition ssh_line : str :=
  lit "Jan  1 00:00:00 host sshd[1]: Failed password for root from 10.0.0.5 port 22 ssh2".

Definition sample_date : str := lit "10/Oct/2000:13:55:36 -0700".

Definition epoch_date : str := lit "01/Jan/1970:00:00:00 +0000".

Definition browser : str := lit "Mozilla/5.0".

Definition not_found_line : str :=
  clf_line (lit "10.0.0.5") sample_date (lit "GET /missing HTTP/1.0") (lit "404") browser.

Definition constructor_line : str :=
  clf_line (lit "constructor") sample_date (lit "POST /failed login HTTP/1.0") (lit "200") browser.

Definition ordinary_line : str :=
  clf_line (lit "10.0.0.5") sample_date (lit "GET / HTTP/1.0") (lit "200") browser.


Definition named_host_line : str :=
  clf_line (lit "example.com") sample_date (lit "GET / HTTP/1.0") (lit "200") browser.

Definition epoch_line : str :=
  clf_line (lit "10.0.0.5") epoch_date (lit "GET / HTTP/1.0") (lit "200") browser.

Definition addressless_line : str := lit "upstream answered 404 for the request".

(* ================================================================== *)
(** * Reference semantics, continued *)

Definition error_count (a : str) (es : list LogEntry) : Z := tally error_key a es.

Definition night_count (getHours : Z -> Z) (a : str) (es : list LogEntry) : Z :=
  tally (night_key getHours) a es.

Definition error_spike_anomaly (n : Z) (a : str) : Anomaly :=
  mkAnomaly t_error_spike (num_str n ++ lit " HTTP errors from " ++ a) None.

Definition off_hours_anomaly (n : Z) (a : str) : Anomaly :=
  mkAnomaly t_off_hours
            (num_str n ++ lit " requests between 00:00" ++ [en_dash]
             ++ lit "05:00 from " ++ a) None.

(** Whatever an object holds under a name of Object.prototype is not a
    number. *)
Definition proto_clean (o : jsobj) : Prop :=
  forall k v, In k object_prototype_keys -> assoc k o = Some v -> v = NonNumeric.

(** No own property under a name of Object.prototype. *)
Definition proto_free (o : jsobj) : Prop :=
  forall k, In k object_prototype_keys -> assoc k o = None.


(** The lines [ls], each followed by the line ending [sep]. *)
Definition joined (sep : str) (ls : list str) : str :=
  concat (List.map (fun l => l ++ sep) ls).

Definition anomaly_types : list str :=
  [t_http_error; t_brute_force; t_error_spike; t_suspicious_ua; t_rate_spike; t_off_hours].

(** The phrases of [SSH_FAILED_RE]. *)
Definition ssh_phrases : list str :=
  [lit "Failed password"; lit "authentication failure"; lit "Invalid user";
   lit "Login incorrect"].

(** The client names of the user-agent pattern of the generic fallback. *)
Definition agent_names : list str :=
  [lit "Mozilla"; lit "curl"; lit "Wget"; lit "Postman"; lit "python-requests";
   lit "Go-http-client"; lit "sqlmap"].

(** Three digits. *)
Definition three_digits (d : str) : Prop :=
  length d = 3%nat /\ Forall (fun c => isDigit c = true) d.

(** [d], three digits, stands in [line] between two white-space characters,
    after [pre]. *)
Definition status_at (line pre d : str) : Prop :=
  exists a b post, line = pre ++ a :: d ++ b :: post
    /\ isSpace a = true /\ isSpace b = true /\ three_digits d.

(** A quoted client name in [line], after [pre]: a double quote, one of
    [agent_names] in any case, characters other than line terminators and
    double quotes, and a double quote: the text runs up to the first double
    quote after the name.  [u] is all of it, quotes included. *)
Definition quoted_agent_at (line pre u : str) : Prop :=
  exists name w rest post,
    line = pre ++ u ++ post /\ u = c_dquote :: w ++ rest ++ [c_dquote]
    /\ In name agent_names /\ List.map lower w = List.map lower name
    /\ Forall (fun c => isDotChar c = true) rest /\ ~ In c_dquote rest.

Definition agent_line : str :=
  lit "client " ++ quoted (lit "curl/7.68.0") ++ lit " connected".

(** The shape of a line of the combined access-log format: host, identity,
    user, bracketed date, quoted request (method, path, protocol), status,
    size, quoted referrer, quoted user agent, and whatever follows. *)
Record combined : Type := mkCombined {
  c_host : str;
  c_ident : str;
  c_user : str;
  c_date : str;
  c_method : str;
  c_path : str;
  c_protocol : str;
  c_status : str;
  c_size : str;
  c_referrer : str;
  c_agent : str;
  c_rest : str
}.

Definition combined_text (c : combined) : str :=
  c_host c ++ c_space :: c_ident c ++ c_space :: c_user c ++ c_space
  :: c_lbracket :: c_date c ++ c_rbracket :: c_space
  :: c_dquote :: c_method c ++ c_space :: c_path c ++ c_space :: c_protocol c
  ++ c_dquote :: c_space :: c_status c ++ c_space :: c_size c ++ c_space
  :: c_dquote :: c_referrer c ++ c_dquote :: c_space
  :: c_dquote :: c_agent c ++ c_dquote :: c_rest c.

Definition nonblank (s : str) : Prop :=
  s <> [] /\ Forall (fun c => isSpace c = false) s.

Definition unquoted (s : str) : Prop := ~ In c_dquote s.

Definition well_formed_combined (c : combined) : Prop :=
  nonblank (c_host c) /\ nonblank (c_ident c) /\ nonblank (c_user c)
  /\ c_date c <> [] /\ ~ In c_rbracket (c_date c)
  /\ c_method c <> [] /\ Forall (fun x => isUpperAZ x = true) (c_method c)
  /\ unquoted (c_path c) /\ unquoted (c_protocol c)
  /\ three_digits (c_status c)
  /\ (c_size c = [c_minus] \/ (c_size c <> [] /\ Forall (fun x => isDigit x = true) (c_size c)))
  /\ unquoted (c_referrer c) /\ unquoted (c_agent c).

(** The entry [parseLine] makes of a line of the combined format read as
    [c], with [p] for the path. *)
Definition combined_entry (c : combined) (p : str) : LogEntry :=
  mkEntry (combined_text c) (Some (c_host c)) (Some (digits_val 0 (c_status c)))
          (truthy_num (parseApacheDate (c_date c)))
          (Some (c_method c)) (Some p) (Some (c_agent c)) [].

Definition sample_combined : combined :=
  mkCombined (lit "10.0.0.5") (lit "-") (lit "frank") sample_date
             (lit "GET") (lit "/apache_pb.gif") (lit "HTTP/1.0")
             (lit "200") (lit "2326") (lit "http://www.example.com/start.html")
             (lit "Mozilla/4.08 [en] (Win98; I ;Nav)") [].

(** [n] digits. *)
Definition n_digits (n : nat) (d : str) : Prop :=
  length d = n /\ Forall (fun c => isDigit c = true) d.

(** A date of the access log: day, month name, year, time of day, and the
    offset from UTC as a sign, hours and minutes. *)
Record apache_date : Type := mkApacheDate {
  a_day : str;
  a_month : str;
  a_year : str;
  a_hour : str;
  a_minute : str;
  a_second : str;
  a_sign : char;
  a_zone_hours : str;
  a_zone_minutes : str
}.

Definition apache_text (a : apache_date) : str :=
  a_day a ++ c_slash :: a_month a ++ c_slash :: a_year a ++ c_colon
  :: a_hour a ++ c_colon :: a_minute a ++ c_colon :: a_second a ++ c_space
  :: a_sign a :: a_zone_hours a ++ a_zone_minutes a.

(** What the pattern of [parseApacheDate] asks of the text. *)
Definition well_formed_date (a : apache_date) : Prop :=
  n_digits 2 (a_day a)
  /\ length (a_month a) = 3%nat /\ Forall (fun c => isWord c = true) (a_month a)
  /\ n_digits 4 (a_year a)
  /\ n_digits 2 (a_hour a) /\ n_digits 2 (a_minute a) /\ n_digits 2 (a_second a)
  /\ (a_sign a = c_plus \/ a_sign a = c_minus)
  /\ n_digits 2 (a_zone_hours a) /\ n_digits 2 (a_zone_minutes a).

Definition number (d : str) : Z := digits_val 0 d.

Definition month_number (m : str) : option Z := option_map number (assoc m months).

Definition sign_value (c : char) : Z := if (c =? c_plus)%N then 1 else -1.

(** The instant a date denotes, in milliseconds since the epoch: the civil
    date and time taken as UTC, less the offset.  There is none when the
    month is not one of the twelve English abbreviations or a field is out
    of range. *)
Definition instant_of (a : apache_date) : option Z :=
  match month_number (a_month a) with
  | None => None
  | Some mo =>
      let d := number (a_day a) in
      let h := number (a_hour a) in
      let mi := number (a_minute a) in
      let s := number (a_second a) in
      let zh := number (a_zone_hours a) in
      let zm := number (a_zone_minutes a) in
      if (1 <=? d) && (d <=? 31) && valid_clock h mi s && (zh <=? 23) && (zm <=? 59)
      then Some (MakeDate (MakeDay (number (a_year a)) mo d) (MakeTime h mi s)
                 - sign_value (a_sign a) * ((zh * 60 + zm) * 60000))
      else None
  end.

Definition sample_apache_date : apache_date :=
  mkApacheDate (lit "10") (lit "Oct") (lit "2000") (lit "13") (lit "55") (lit "36")
               c_minus (lit "07") (lit "00").

(** The captures of the date pattern on the text of [a]. *)
Definition date_caps (a : apache_date) : list (nat * str) :=
  [(7%nat, a_sign a :: a_zone_hours a ++ a_zone_minutes a); (6%nat, a_second a);
   (5%nat, a_minute a); (4%nat, a_hour a); (3%nat, a_year a); (2%nat, a_month a);
   (1%nat, a_day a)].


Definition curl_combined : combined :=
  mkCombined (lit "192.168.1.7") (lit "-") (lit "-") sample_date
             (lit "GET") (lit "/admin") (lit "HTTP/1.1")
             (lit "200") (lit "-") (lit "-") (lit "curl/7.68.0") [].

Definition loopback_line : str :=
  clf_line (lit "::1") sample_date (lit "GET / HTTP/1.0") (lit "200") browser.

(** A request one minute after [ordinary_line], from the same address. *)
Definition later_line : str :=
  clf_line (lit "10.0.0.5") (lit "10/Oct/2000:13:56:36 -0700") (lit "GET / HTTP/1.0")
           (lit "200") browser.

Definition curl_line : str := combined_text curl_combined.

Definition wget_line : str :=
  clf_line (lit "172.16.0.9") sample_date (lit "GET /backup.zip HTTP/1.1") (lit "200")
           (lit "Wget/1.20.3 (linux-gnu)").

(** The host of this request is the word unknown. *)
Definition unknown_host_line : str :=
  clf_line (lit "unknown") sample_date (lit "POST /failed login HTTP/1.0") (lit "200")
           browser.

Definition failed_login_line : str := lit "failed login for admin".

(* ================================================================== *)
(** * Strings: basic facts *)

Lemma str_eqb_eq a b : str_eqb a b = true <-> a = b.
Proof. unfold str_eqb. destruct (list_eq_dec N.eq_dec a b); intuition congruence. Qed.

Lemma str_eqb_refl a : str_eqb a a = true.
Proof. now apply str_eqb_eq. Qed.

Lemma str_eqb_neq a b : str_eqb a b = false <-> a <> b.
Proof. unfold str_eqb. destruct (list_eq_dec N.eq_dec a b); intuition congruence. Qed.

Lemma mem_In x l : mem x l = true <-> In x l.
Proof.
  unfold mem. rewrite existsb_exists. split.
  - intros (y & Hy & E). apply str_eqb_eq in E. now subst.
  - intros H. exists x. split; [assumption | apply str_eqb_refl].
Qed.

(* ================================================================== *)
(** * The matcher against the reference semantics *)

Lemma firstn_len_app (w aft : str) :
  firstn (length (w ++ aft) - length aft) (w ++ aft) = w.
Proof.
  rewrite length_app. replace (length w + length aft - length aft)%nat with (length w) by lia.
  rewrite firstn_app, Nat.sub_diag, firstn_all. simpl. apply app_nil_r.
Qed.

Lemma star_loop_sound (m : mstate -> (mstate -> option mstate) -> option mstate)
    (a : regex) (g : bool) (k : mstate -> option mstate) :
  (forall st k' res, m st k' = Some res ->
     exists w aft cs', ahead st = w ++ aft /\
       Matches a (before st) w aft (caps st) cs' /\
       k' (MState (rev w ++ before st) aft cs') = Some res) ->
  forall fuel st res, star_loop m g k fuel st = Some res ->
    exists w aft cs', ahead st = w ++ aft /\
      Matches (Star g a) (before st) w aft (caps st) cs' /\
      k (MState (rev w ++ before st) aft cs') = Some res.
Proof.
  intros Hm. induction fuel as [|fuel IH]; intros st res H; simpl in H.
  - exists [], (ahead st), (caps st). destruct st; simpl in *. repeat split; auto. constructor.
  - assert (Hstop : k st = Some res ->
      exists w aft cs', ahead st = w ++ aft /\
        Matches (Star g a) (before st) w aft (caps st) cs' /\
        k (MState (rev w ++ before st) aft cs') = Some res).
    { intros Hk. exists [], (ahead st), (caps st). destruct st; simpl in *.
      repeat split; auto. constructor. }
    assert (Hgo : m st (fun st' => if advanced st st' then star_loop m g k fuel st' else None) = Some res ->
      exists w aft cs', ahead st = w ++ aft /\
        Matches (Star g a) (before st) w aft (caps st) cs' /\
        k (MState (rev w ++ before st) aft cs') = Some res).
    { intros Hr. apply Hm in Hr. destruct Hr as (w1 & aft1 & cs1 & E1 & M1 & K1).
      destruct (advanced st _) eqn:Hadv in K1; [|discriminate].
      apply IH in K1. simpl in K1. destruct K1 as (w2 & aft & cs2 & E2 & M2 & K2).
      subst aft1. exists (w1 ++ w2), aft, cs2. repeat split.
      - now rewrite <- app_assoc.
      - apply M_StarS with (cs1 := cs1); auto.
        intros ->. unfold advanced in Hadv. simpl in Hadv. rewrite E1 in Hadv. simpl in Hadv.
        apply Nat.ltb_lt in Hadv. lia.
      - now rewrite rev_app_distr, <- app_assoc. }
    destruct g.
    + destruct (m st _) eqn:Hr.
      * inversion H; subst. now apply Hgo.
      * now apply Hstop.
    + destruct (k st) eqn:Hk.
      * inversion H; subst. now apply Hstop.
      * now apply Hgo.
Qed.

Lemma run_sound r : forall st k res, run r st k = Some res ->
  exists w aft cs', ahead st = w ++ aft /\
    Matches r (before st) w aft (caps st) cs' /\
    k (MState (rev w ++ before st) aft cs') = Some res.
Proof.
  induction r as [|p|a IHa b IHb|a IHa b IHb|g a IHa|i a IHa| |]; intros st k res H; simpl in H.
  - exists [], (ahead st), (caps st). destruct st; simpl in *. repeat split; auto. constructor.
  - destruct (ahead st) as [|c t] eqn:E; [discriminate|].
    destruct (p c) eqn:Hp; [|discriminate].
    exists [c], t, (caps st). repeat split; auto. now constructor.
  - apply IHa in H. destruct H as (w1 & aft1 & cs1 & E1 & M1 & K1).
    apply IHb in K1. simpl in K1. destruct K1 as (w2 & aft & cs2 & E2 & M2 & K2).
    subst aft1. exists (w1 ++ w2), aft, cs2. repeat split.
    + now rewrite <- app_assoc.
    + now apply M_Seq with (cs1 := cs1).
    + now rewrite rev_app_distr, <- app_assoc.
  - destruct (run a st k) eqn:Ha.
    + inversion H; subst. apply IHa in Ha. destruct Ha as (w & aft & cs' & E & M & K).
      exists w, aft, cs'. repeat split; auto. now apply M_AltL.
    + apply IHb in H. destruct H as (w & aft & cs' & E & M & K).
      exists w, aft, cs'. repeat split; auto. now apply M_AltR.
  - now apply star_loop_sound with (m := run a) (fuel := length (ahead st)).
  - apply IHa in H. destruct H as (w & aft & cs' & E & M & K). simpl in K.
    exists w, aft, ((i, w) :: cs'). repeat split; auto.
    + now constructor.
    + unfold consumed in K. simpl in K. rewrite E in K. now rewrite firstn_len_app in K.
  - destruct (before st) eqn:E; [|discriminate].
    exists [], (ahead st), (caps st). destruct st; simpl in *. subst. repeat split; auto. constructor.
  - destruct (xorb _ _) eqn:E; [|discriminate].
    exists [], (ahead st), (caps st). destruct st; simpl in *. repeat split; auto. now constructor.
Qed.


Lemma run_complete_gen r bef w aft cs cs' :
  Matches r bef w aft cs cs' ->
  (forall st k, before st = bef -> ahead st = w ++ aft ->
     (forall csx, k (MState (rev w ++ bef) aft csx) <> None) ->
     run r st k <> None)
  /\ (forall g a, r = Star g a ->
      forall fuel st k, (length (w ++ aft) <= fuel)%nat ->
        before st = bef -> ahead st = w ++ aft ->
        (forall csx, k (MState (rev w ++ bef) aft csx) <> None) ->
        star_loop (run a) g k fuel st <> None).
Proof.
  induction 1 as
    [bef aft cs | p c bef aft cs Hp
    | a b bef w1 w2 aft cs cs1 cs2 M1 IH1 M2 IH2
    | a b bef w aft cs cs1 M1 IH1 | a b bef w aft cs cs1 M1 IH1
    | g a bef aft cs
    | g a bef w1 w2 aft cs cs1 cs2 Hne M1 IH1 M2 IH2
    | i a bef w aft cs cs1 M1 IH1
    | aft cs | bef aft cs Hx];
    (split; [|try (intros ? ? E; discriminate E)]).
  - intros st k Hb Ha Hk. simpl. destruct st as [b0 a0 c0]; simpl in *; subst. apply Hk.
  - intros st k Hb Ha Hk. simpl. rewrite Ha. simpl. rewrite Hp.
    rewrite Hb. apply Hk.
  - intros st k Hb Ha Hk. simpl. apply (proj1 IH1); auto.
    + now rewrite Ha, <- app_assoc.
    + intros csx. apply (proj1 IH2); auto.
      intros csy. specialize (Hk csy). now rewrite rev_app_distr, <- app_assoc in Hk.
  - intros st k Hb Ha Hk. simpl.
    pose proof (proj1 IH1 st k Hb Ha Hk) as Hr.
    destruct (run a st k); congruence.
  - intros st k Hb Ha Hk. simpl.
    destruct (run a st k); [congruence|]. now apply (proj1 IH1).
  - intros st k Hb Ha Hk. simpl.
    destruct st as [b0 a0 c0]; simpl in *; subst.
    destruct (length aft); simpl.
    + apply Hk.
    + destruct g.
      * destruct (run a _ _); [congruence | apply Hk].
      * pose proof (Hk c0). destruct (k _); congruence.
  - intros g' a' E fuel st k Hf Hb Ha Hk. inversion E; subst g' a'.
    destruct st as [b0 a0 c0]; simpl in *; subst.
    destruct fuel; simpl.
    + apply Hk.
    + destruct g.
      * destruct (run a _ _); [congruence | apply Hk].
      * pose proof (Hk c0). destruct (k _); congruence.
  - intros st k Hb Ha Hk. simpl.
    assert (Hgo : forall fuel, (length ((w1 ++ w2) ++ aft) <= fuel)%nat ->
              star_loop (run a) g k fuel st <> None).
    { intros fuel Hf. destruct fuel as [|fuel].
      - exfalso. rewrite !length_app in Hf. destruct w1; [congruence | simpl in Hf; lia].
      - simpl.
        assert (Hag : run a st (fun st' => if advanced st st'
                        then star_loop (run a) g k fuel st' else None) <> None).
        { apply (proj1 IH1); auto.
          - now rewrite Ha, <- app_assoc.
          - intros csx. unfold advanced. simpl. rewrite Ha.
            assert (Hlt : Nat.ltb (length (w2 ++ aft)) (length ((w1 ++ w2) ++ aft)) = true).
            { apply Nat.ltb_lt. rewrite <- app_assoc, (length_app w1).
              destruct w1; [congruence | simpl; lia]. }
            rewrite Hlt. apply (proj2 IH2 g a eq_refl); simpl; auto.
            + rewrite <- app_assoc, (length_app w1) in Hf.
              destruct w1; [congruence | simpl in Hf; lia].
            + intros csy. specialize (Hk csy).
              now rewrite rev_app_distr, <- app_assoc in Hk. }
        destruct g.
        + destruct (run a st _); [congruence | contradiction].
        + destruct (k st); [congruence | assumption]. }
    apply Hgo. rewrite Ha. lia.
  - intros g' a' E fuel st k Hf Hb Ha Hk. inversion E; subst g' a'.
    destruct fuel as [|fuel].
    + exfalso. rewrite !length_app in Hf. destruct w1; [congruence | simpl in Hf; lia].
    + simpl.
      assert (Hag : run a st (fun st' => if advanced st st'
                      then star_loop (run a) g k fuel st' else None) <> None).
      { apply (proj1 IH1); auto.
        - now rewrite Ha, <- app_assoc.
        - intros csx. unfold advanced. simpl. rewrite Ha.
          assert (Hlt : Nat.ltb (length (w2 ++ aft)) (length ((w1 ++ w2) ++ aft)) = true).
          { apply Nat.ltb_lt. rewrite <- app_assoc, (length_app w1).
            destruct w1; [congruence | simpl; lia]. }
          rewrite Hlt. apply (proj2 IH2 g a eq_refl); simpl; auto.
          + rewrite <- app_assoc, (length_app w1) in Hf.
            destruct w1; [congruence | simpl in Hf; lia].
          + intros csy. specialize (Hk csy).
            now rewrite rev_app_distr, <- app_assoc in Hk. }
      destruct g.
      * destruct (run a st _); [congruence | contradiction].
      * destruct (k st); [congruence | assumption].
  - intros st k Hb Ha Hk. simpl. apply (proj1 IH1); auto.
  - intros st k Hb Ha Hk. simpl. rewrite Hb.
    destruct st as [b0 a0 c0]; simpl in *; subst. apply Hk.
  - intros st k Hb Ha Hk. simpl. rewrite Hb, Ha. simpl. rewrite Hx.
    destruct st as [b0 a0 c0]; simpl in *; subst. apply Hk.
Qed.


Lemma run_complete r bef w aft cs cs' st k :
  Matches r bef w aft cs cs' ->
  before st = bef -> ahead st = w ++ aft ->
  (forall csx, k (MState (rev w ++ bef) aft csx) <> None) ->
  run r st k <> None.
Proof. intros M. apply (proj1 (run_complete_gen M)). Qed.

Lemma match_here_sound r bef s st :
  match_here r bef s = Some st ->
  exists w, s = w ++ ahead st /\ before st = rev w ++ bef /\
            Matches r bef w (ahead st) [] (caps st).
Proof.
  unfold match_here. intros H. apply run_sound in H. simpl in H.
  destruct H as (w & aft & cs' & E & M & K). inversion K; subst st. simpl.
  exists w. auto.
Qed.

Lemma match_here_complete r bef w aft cs cs' :
  Matches r bef w aft cs cs' -> match_here r bef (w ++ aft) <> None.
Proof.
  intros M. unfold match_here. eapply run_complete; eauto. discriminate.
Qed.

Lemma exec_from_eq r bef s :
  exec_from r bef s =
  match match_here r bef s with
  | Some st =>
      Some (MResult (length bef) (firstn (length s - length (ahead st)) s) (caps st))
  | None => match s with [] => None | c :: t => exec_from r (c :: bef) t end
  end.
Proof. destruct s; reflexivity. Qed.

Lemma exec_here_sound r bef s st :
  match_here r bef s = Some st ->
  let m := MResult (length bef) (firstn (length s - length (ahead st)) s) (caps st) in
  exists pre w aft, s = pre ++ w ++ aft /\
    m_index m = (length bef + length pre)%nat /\ m_all m = w /\
    Matches r (rev pre ++ bef) w aft [] (m_caps m) /\
    (forall pre' w' aft' cs cs', s = pre' ++ w' ++ aft' ->
       Matches r (rev pre' ++ bef) w' aft' cs cs' ->
       (length pre <= length pre')%nat).
Proof.
  intros Hm m. apply match_here_sound in Hm. destruct Hm as (w & E & Hb & M).
  exists [], w, (ahead st). subst m. cbn [app rev m_index m_all m_caps length].
  rewrite Nat.add_0_r. repeat split; auto.
  - rewrite E. apply firstn_len_app.
  - intros; lia.
Qed.

Lemma exec_from_sound r : forall s bef m, exec_from r bef s = Some m ->
  exists pre w aft, s = pre ++ w ++ aft /\
    m_index m = (length bef + length pre)%nat /\ m_all m = w /\
    Matches r (rev pre ++ bef) w aft [] (m_caps m) /\
    (forall pre' w' aft' cs cs', s = pre' ++ w' ++ aft' ->
       Matches r (rev pre' ++ bef) w' aft' cs cs' ->
       (length pre <= length pre')%nat).
Proof.
  induction s as [|c t IH]; intros bef m H; rewrite exec_from_eq in H.
  - destruct (match_here r bef []) as [st|] eqn:Hm; [|discriminate].
    injection H as <-. exact (exec_here_sound r bef [] Hm).
  - destruct (match_here r bef (c :: t)) as [st|] eqn:Hm.
    + injection H as <-. exact (exec_here_sound r bef (c :: t) Hm).
    + apply IH in H. destruct H as (pre & w & aft & E & Hi & Ha & M & Hleft).
      exists (c :: pre), w, aft. simpl. repeat split; auto.
      * now rewrite E.
      * simpl in Hi. lia.
      * now rewrite <- app_assoc.
      * intros pre' w' aft' cs cs' E' M'.
        destruct pre' as [|c' pre']; simpl in *.
        -- apply match_here_complete in M'. rewrite <- E' in M'. congruence.
        -- inversion E'; subst c'. apply le_n_S.
           apply (Hleft pre' w' aft' cs cs'); auto.
           now rewrite <- app_assoc in M'.
Qed.

Lemma exec_from_complete r : forall pre bef w aft cs cs',
  Matches r (rev pre ++ bef) w aft cs cs' ->
  exec_from r bef (pre ++ w ++ aft) <> None.
Proof.
  induction pre as [|c pre IH]; intros bef w aft cs cs' M; simpl in *.
  - apply match_here_complete in M.
    destruct (w ++ aft); simpl; destruct (match_here r bef _); congruence.
  - destruct (match_here r bef _); [congruence|].
    apply IH with (cs := cs) (cs' := cs'). now rewrite <- app_assoc in M.
Qed.

(** [exec] finds the leftmost place where the pattern matches, and finds
    one whenever there is one. *)
Lemma exec_sound r s m : exec r s = Some m ->
  exists pre w aft, s = pre ++ w ++ aft /\
    m_index m = length pre /\ m_all m = w /\
    Matches r (rev pre) w aft [] (m_caps m) /\
    (forall pre' w' aft' cs cs', s = pre' ++ w' ++ aft' ->
       Matches r (rev pre') w' aft' cs cs' -> (length pre <= length pre')%nat).
Proof.
  intros H. apply exec_from_sound in H.
  destruct H as (pre & w & aft & E & Hi & Ha & M & Hl).
  exists pre, w, aft. rewrite app_nil_r in M. repeat split; auto.
  intros pre' w' aft' cs cs' E' M'. apply (Hl pre' w' aft' cs cs'); auto.
  now rewrite app_nil_r.
Qed.

Lemma exec_complete r pre w aft cs cs' :
  Matches r (rev pre) w aft cs cs' -> exec r (pre ++ w ++ aft) <> None.
Proof.
  intros M. unfold exec. apply exec_from_complete with (cs := cs) (cs' := cs').
  now rewrite app_nil_r.
Qed.

Lemma test_true_iff r s :
  test r s = true <->
  exists pre w aft cs cs', s = pre ++ w ++ aft /\ Matches r (rev pre) w aft cs cs'.
Proof.
  unfold test. split.
  - destruct (exec r s) as [m|] eqn:E; [|discriminate]. intros _.
    apply exec_sound in E. destruct E as (pre & w & aft & E & _ & _ & M & _).
    now exists pre, w, aft, [], (m_caps m).
  - intros (pre & w & aft & cs & cs' & E & M). subst s.
    apply exec_complete in M. destruct (exec r _); congruence.
Qed.


(* ================================================================== *)
(** * Splitting a text into lines *)

Lemma newline_match_here bef c t :
  match_here NEWLINE_RE bef (c :: t) =
  if (c =? c_cr)%N then
    match t with
    | c2 :: t2 => if (c2 =? c_lf)%N then Some (MState (c2 :: c :: bef) t2 []) else None
    | [] => None
    end
  else if (c =? c_lf)%N then Some (MState (c :: bef) t []) else None.
Proof.
  unfold match_here, NEWLINE_RE, Opt, Lit1. cbn [run ahead before caps].
  rewrite (N.eqb_sym c_cr c), (N.eqb_sym c_lf c).
  destruct (c =? c_cr)%N eqn:Hcr.
  - apply N.eqb_eq in Hcr. subst c.
    destruct t as [|c2 t2]; [reflexivity|].
    rewrite (N.eqb_sym c_lf c2). destruct (c2 =? c_lf)%N; reflexivity.
  - destruct (c =? c_lf)%N; reflexivity.
Qed.

Lemma split_loop_nomatch r bef piece c t :
  match_here r bef (c :: t) = None ->
  split_loop r bef piece O (c :: t) = split_loop r (c :: bef) (c :: piece) O t.
Proof. intros H. cbn [split_loop]. now rewrite H. Qed.

Lemma split_loop_match r bef piece c t st n :
  match_here r bef (c :: t) = Some st ->
  (length (c :: t) - length (ahead st) = S n)%nat ->
  split_loop r bef piece O (c :: t) = rev piece :: split_loop r (c :: bef) [] n t.
Proof. intros H Hn. cbn [split_loop]. rewrite H. cbv zeta. now rewrite Hn. Qed.

Lemma split_newline_loop : forall n s, (length s <= n)%nat ->
  forall bef piece,
    (forall p t, piece = c_cr :: p -> s <> c_lf :: t) ->
    split_loop NEWLINE_RE bef piece O s = spec_lines_from piece s.
Proof.
  induction n as [|n IH]; intros s Hlen bef piece Hinv.
  - destruct s; [reflexivity | simpl in Hlen; lia].
  - destruct s as [|c t]; [reflexivity|].
    simpl in Hlen. pose proof (newline_match_here bef c t) as Hm.
    cbn [spec_lines_from].
    destruct (c =? c_cr)%N eqn:Hcr.
    + apply N.eqb_eq in Hcr. subst c. change (c_cr =? c_lf)%N with false. cbv iota.
      destruct t as [|c2 t2].
      * now rewrite (@split_loop_nomatch _ _ piece _ _ Hm).
      * destruct (c2 =? c_lf)%N eqn:Hlf.
        -- apply N.eqb_eq in Hlf. subst c2.
           rewrite (@split_loop_match _ _ piece _ _ _ 1%nat Hm).
           2:{ cbn [ahead length]. lia. }
           cbn [split_loop spec_lines_from]. change (c_lf =? c_lf)%N with true. cbv iota.
           cbn [drop_cr]. change (c_cr =? c_cr)%N with true. cbv iota.
           f_equal. apply IH; [simpl in Hlen; lia | intros; discriminate].
        -- rewrite (@split_loop_nomatch _ _ piece _ _ Hm).
           apply IH; [lia|]. intros p t E1 E2. subst. inversion E2; subst.
           now rewrite N.eqb_refl in Hlf.
    + destruct (c =? c_lf)%N eqn:Hlf.
      * apply N.eqb_eq in Hlf. subst c.
        rewrite (@split_loop_match _ _ piece _ _ _ 0%nat Hm).
        2:{ cbn [ahead length]. lia. }
        assert (Hd : drop_cr piece = piece).
        { destruct piece as [|c p]; [reflexivity|]. cbn [drop_cr].
          destruct (c =? c_cr)%N eqn:E; [|reflexivity].
          apply N.eqb_eq in E. subst c. exfalso. now apply (Hinv p t). }
        rewrite Hd. f_equal. apply IH; [lia | intros; discriminate].
      * rewrite (@split_loop_nomatch _ _ piece _ _ Hm).
        apply IH; [lia|]. intros p t' E. inversion E; subst.
        now rewrite N.eqb_refl in Hcr.
Qed.

Lemma split_newline s : split NEWLINE_RE s = spec_lines s.
Proof.
  destruct s as [|c t]; [reflexivity|].
  unfold split, spec_lines. apply split_newline_loop with (n := length (c :: t)); auto.
  intros; discriminate.
Qed.

Lemma truthy_str_nonempty l : truthy_str l = negb (str_eqb l []).
Proof. destruct l; reflexivity. Qed.


(* ================================================================== *)
(** * Objects as dictionaries *)

Lemma assoc_own_set_same o k v : assoc k (own_set o k v) = Some v.
Proof.
  induction o as [|[k' v'] o IH]; simpl.
  - now rewrite str_eqb_refl.
  - destruct (str_eqb k k') eqn:E; simpl; rewrite ?str_eqb_refl, ?E; auto.
Qed.

Lemma assoc_own_set_other o k k' v : k' <> k -> assoc k' (own_set o k v) = assoc k' o.
Proof.
  intros Hne. induction o as [|[k0 v0] o IH]; simpl.
  - apply str_eqb_neq in Hne. now rewrite Hne.
  - destruct (str_eqb k k0) eqn:E; simpl.
    + apply str_eqb_eq in E. subst k0. apply str_eqb_neq in Hne. now rewrite Hne.
    + destruct (str_eqb k' k0); auto.
Qed.

Lemma keys_own_set o k v x :
  In x (List.map fst (own_set o k v)) <-> x = k \/ In x (List.map fst o).
Proof.
  induction o as [|[k0 v0] o IH]; simpl.
  - intuition.
  - destruct (str_eqb k k0) eqn:E; simpl.
    + apply str_eqb_eq in E. subst. intuition.
    + rewrite IH. intuition.
Qed.

Lemma NoDup_own_set o k v : NoDup (List.map fst o) -> NoDup (List.map fst (own_set o k v)).
Proof.
  induction o as [|[k0 v0] o IH]; simpl; intros H.
  - constructor; [intros [] | constructor].
  - inversion H as [|? ? Hn Hd]; subst.
    destruct (str_eqb k k0) eqn:E; simpl.
    + apply str_eqb_eq in E. subst. now constructor.
    + constructor; auto. rewrite keys_own_set. intros [->|Hin]; auto.
      now rewrite str_eqb_refl in E.
Qed.

Lemma assoc_In (V : Type) (o : list (str * V)) k v : assoc k o = Some v -> In (k, v) o.
Proof.
  induction o as [|[k0 v0] o IH]; simpl; [discriminate|].
  destruct (str_eqb k k0) eqn:E.
  - apply str_eqb_eq in E. subst. intros [= ->]. now left.
  - intros H. right. auto.
Qed.

Lemma In_assoc (V : Type) (o : list (str * V)) k v :
  NoDup (List.map fst o) -> In (k, v) o -> assoc k o = Some v.
Proof.
  induction o as [|[k0 v0] o IH]; simpl; intros Hd Hin; [contradiction|].
  inversion Hd as [|? ? Hn Hd']; subst.
  destruct Hin as [[= -> ->]|Hin].
  - now rewrite str_eqb_refl.
  - destruct (str_eqb k k0) eqn:E.
    + apply str_eqb_eq in E. subst. exfalso. apply Hn.
      change k0 with (fst (k0, v)). now apply in_map.
    + auto.
Qed.

Lemma assoc_None_keys (V : Type) (o : list (str * V)) k :
  assoc k o = None <-> ~ In k (List.map fst o).
Proof.
  induction o as [|[k0 v0] o IH]; simpl.
  - intuition.
  - destruct (str_eqb k k0) eqn:E.
    + apply str_eqb_eq in E. subst. intuition discriminate.
    + apply str_eqb_neq in E. rewrite IH. intuition.
Qed.

(** ** Object.entries lists exactly the own properties *)

Lemma In_insert_by_index x y l : In x (insert_by_index y l) <-> x = y \/ In x l.
Proof.
  induction l as [|z l IH]; simpl.
  - intuition.
  - destruct (fst y <=? fst z); simpl; rewrite ?IH; intuition.
Qed.

Lemma In_indexed_props o i k v :
  In (i, (k, v)) (indexed_props o) <-> In (k, v) o /\ array_index k = Some i.
Proof.
  induction o as [|[k0 v0] o IH]; simpl.
  - intuition.
  - destruct (array_index k0) as [i0|] eqn:E.
    + rewrite In_insert_by_index, IH. split.
      * intros [[= -> -> ->]|[H1 H2]]; auto.
      * intros [[[= -> ->]|H1] H2]; auto. left. congruence.
    + rewrite IH. split.
      * intros [H1 H2]; auto.
      * intros [[[= -> ->]|H1] H2]; auto. congruence.
Qed.

Lemma In_Object_entries o kv : In kv (Object_entries o) <-> In kv o.
Proof.
  unfold Object_entries, named_props. destruct kv as [k v].
  rewrite in_app_iff, in_map_iff, filter_In. simpl. split.
  - intros [([i [k' v']] & E & H)|[H _]]; auto.
    simpl in E. inversion E; subst. now apply In_indexed_props in H.
  - intros H. destruct (array_index k) as [i|] eqn:E; auto.
    left. exists (i, (k, v)). split; auto. now apply In_indexed_props.
Qed.


(** ** Counting with [bump] *)

Lemma tally_nonneg sel k es : 0 <= tally sel k es.
Proof. unfold tally. lia. Qed.

Lemma tally_cons sel k e es :
  tally sel k (e :: es) = (if files_under sel k e then 1 else 0) + tally sel k es.
Proof.
  unfold tally. cbn [filter]. destruct (files_under sel k e); cbn [length];
    rewrite ?Nat2Z.inj_succ; lia.
Qed.

Lemma counts_bump o f k0 :
  (forall k, 0 <= f k) -> counts o f ->
  counts (bump o k0) (fun k => f k + (if str_eqb k0 k then 1 else 0)).
Proof.
  intros Hpos [Hnd Hc]. unfold bump, put.
  destruct (str_eqb k0 proto_name) eqn:Ep.
  - apply str_eqb_eq in Ep. subst k0. split; auto.
    intros k Hk. destruct (str_eqb proto_name k) eqn:E.
    + apply str_eqb_eq in E. subst k. exfalso. apply Hk. simpl. tauto.
    + rewrite Z.add_0_r. now apply Hc.
  - split; [now apply NoDup_own_set|].
    intros k Hk. destruct (str_eqb k0 k) eqn:E.
    + apply str_eqb_eq in E. subst k0. rewrite assoc_own_set_same.
      specialize (Hc k Hk). specialize (Hpos k). unfold get. rewrite Hc.
      destruct (f k =? 0) eqn:Ez.
      * apply Z.eqb_eq in Ez. rewrite Ez.
        destruct (mem k object_prototype_keys) eqn:Em.
        -- apply mem_In in Em. contradiction.
        -- reflexivity.
      * simpl. destruct (f k + 1 =? 0) eqn:Ez'; [lia | reflexivity].
    + apply str_eqb_neq in E. rewrite assoc_own_set_other by congruence.
      rewrite Z.add_0_r. now apply Hc.
Qed.

Lemma counts_ext o f g : (forall k, f k = g k) -> counts o f -> counts o g.
Proof. intros E [Hnd Hc]. split; auto. intros k Hk. rewrite <- E. auto. Qed.

Lemma counts_bump_fold sel : forall es o f,
  (forall k, 0 <= f k) -> counts o f ->
  counts (bump_fold sel es o) (fun k => f k + tally sel k es).
Proof.
  induction es as [|e es IH]; intros o f Hpos Hc; simpl.
  - apply counts_ext with (f := f); auto. intros k. unfold tally. cbn. lia.
  - destruct (sel e) as [k0|] eqn:Es.
    + apply counts_ext with
        (f := fun k => (f k + (if str_eqb k0 k then 1 else 0)) + tally sel k es).
      * intros k. rewrite tally_cons. unfold files_under. rewrite Es. lia.
      * apply IH.
        -- intros k. specialize (Hpos k). destruct (str_eqb k0 k); lia.
        -- now apply counts_bump.
    + apply counts_ext with (f := fun k => f k + tally sel k es).
      * intros k. rewrite tally_cons. unfold files_under. rewrite Es. lia.
      * now apply IH.
Qed.

Lemma counts_empty : counts [] (fun _ => 0).
Proof. split; [constructor | reflexivity]. Qed.

(** What a counter holds after the loop, for a name Object.prototype does
    not know. *)
Lemma bump_fold_spec sel es k v :
  ~ In k object_prototype_keys ->
  (In (k, v) (Object_entries (bump_fold sel es [])) <->
   v = Number (tally sel k es) /\ 0 < tally sel k es).
Proof.
  intros Hk.
  destruct (@counts_bump_fold sel es [] (fun _ => 0)) as [Hnd Hc];
    [intros; lia | apply counts_empty |].
  specialize (Hc k Hk). simpl in Hc.
  pose proof (tally_nonneg sel k es) as Hpos.
  rewrite In_Object_entries. split.
  - intros Hin. apply In_assoc in Hin; auto. rewrite Hc in Hin.
    destruct (tally sel k es =? 0) eqn:Ez; [discriminate|].
    injection Hin as <-. split; auto. apply Z.eqb_neq in Ez. lia.
  - intros [-> Hgt]. apply assoc_In. rewrite Hc.
    destruct (tally sel k es =? 0) eqn:Ez; auto. apply Z.eqb_eq in Ez. lia.
Qed.

(** ** The fields of the accumulator, one by one *)

Section Fields.
Variable getHours : Z -> Z.

Lemma step_failedByIP st e :
  failedByIP (step getHours st e) =
  match failed_key e with Some k => bump (failedByIP st) k | None => failedByIP st end.
Proof.
  unfold step, count_rate, collect_ua, count_error, count_failed, failed_key.
  destruct (is_failed_login e); destruct (status e) as [s|];
    try destruct (existsb (Z.eqb s) error_statuses);
    destruct (ua e) as [u|]; try destruct (truthy_str u);
    destruct (ts e) as [t|]; destruct (ip e) as [a|];
    try destruct (negb (t =? 0) && truthy_str a); reflexivity.
Qed.

Lemma step_errorsByIP st e :
  errorsByIP (step getHours st e) =
  match error_key e with Some k => bump (errorsByIP st) k | None => errorsByIP st end.
Proof.
  unfold step, count_rate, collect_ua, count_error, count_failed, error_key, is_http_error.
  destruct (is_failed_login e); destruct (status e) as [s|];
    try destruct (existsb (Z.eqb s) error_statuses);
    destruct (ua e) as [u|]; try destruct (truthy_str u);
    destruct (ts e) as [t|]; destruct (ip e) as [a|];
    try destruct (negb (t =? 0) && truthy_str a); reflexivity.
Qed.

Lemma step_perMinute st e :
  perMinute (step getHours st e) =
  match rate_key e with Some k => bump (perMinute st) k | None => perMinute st end.
Proof.
  unfold step, count_rate, collect_ua, count_error, count_failed, rate_key, rated, minute_key.
  destruct (is_failed_login e); destruct (status e) as [s|];
    try destruct (existsb (Z.eqb s) error_statuses);
    destruct (ua e) as [u|]; try destruct (truthy_str u);
    destruct (ts e) as [t|]; destruct (ip e) as [a|];
    try destruct (negb (t =? 0) && truthy_str a); reflexivity.
Qed.

Lemma step_nightByIP st e :
  nightByIP (step getHours st e) =
  match night_key getHours e with
  | Some k => bump (nightByIP st) k
  | None => nightByIP st
  end.
Proof.
  unfold step, count_rate, collect_ua, count_error, count_failed, night_key.
  destruct (is_failed_login e); destruct (status e) as [s|];
    try destruct (existsb (Z.eqb s) error_statuses);
    destruct (ua e) as [u|]; try destruct (truthy_str u);
    destruct (ts e) as [t|]; destruct (ip e) as [a|];
    try destruct (negb (t =? 0) && truthy_str a); simpl;
    try destruct ((0 <=? getHours t) && (getHours t <? 5)) eqn:Eh;
    try reflexivity.
Qed.

Lemma step_acc_anomalies st e :
  acc_anomalies (step getHours st e) = acc_anomalies st ++ http_errors_of e.
Proof.
  unfold step, count_rate, collect_ua, count_error, count_failed, http_errors_of.
  destruct (is_failed_login e); destruct (status e) as [s|];
    try destruct (existsb (Z.eqb s) error_statuses);
    destruct (ua e) as [u|]; try destruct (truthy_str u);
    destruct (ts e) as [t|]; destruct (ip e) as [a|];
    try destruct (negb (t =? 0) && truthy_str a); simpl;
    rewrite ?app_nil_r; reflexivity.
Qed.

Lemma step_uaSet st e :
  uaSet (step getHours st e) =
  match ua e with
  | Some u => if truthy_str u then set_add u (uaSet st) else uaSet st
  | None => uaSet st
  end.
Proof.
  unfold step, count_rate, collect_ua, count_error, count_failed.
  destruct (is_failed_login e); destruct (status e) as [s|];
    try destruct (existsb (Z.eqb s) error_statuses);
    destruct (ua e) as [u|]; try destruct (truthy_str u);
    destruct (ts e) as [t|]; destruct (ip e) as [a|];
    try destruct (negb (t =? 0) && truthy_str a); reflexivity.
Qed.

Lemma fold_failedByIP : forall es st,
  failedByIP (fold_left (step getHours) es st) = bump_fold failed_key es (failedByIP st).
Proof.
  induction es as [|e es IH]; intros st; simpl; auto.
  rewrite IH, step_failedByIP. reflexivity.
Qed.

Lemma fold_errorsByIP : forall es st,
  errorsByIP (fold_left (step getHours) es st) = bump_fold error_key es (errorsByIP st).
Proof.
  induction es as [|e es IH]; intros st; simpl; auto.
  rewrite IH, step_errorsByIP. reflexivity.
Qed.

Lemma fold_perMinute : forall es st,
  perMinute (fold_left (step getHours) es st) = bump_fold rate_key es (perMinute st).
Proof.
  induction es as [|e es IH]; intros st; simpl; auto.
  rewrite IH, step_perMinute. reflexivity.
Qed.

Lemma fold_nightByIP : forall es st,
  nightByIP (fold_left (step getHours) es st)
  = bump_fold (night_key getHours) es (nightByIP st).
Proof.
  induction es as [|e es IH]; intros st; simpl; auto.
  rewrite IH, step_nightByIP. reflexivity.
Qed.

Lemma fold_acc_anomalies : forall es st,
  acc_anomalies (fold_left (step getHours) es st)
  = acc_anomalies st ++ flat_map http_errors_of es.
Proof.
  induction es as [|e es IH]; intros st; simpl.
  - now rewrite app_nil_r.
  - rewrite IH, step_acc_anomalies. now rewrite <- app_assoc.
Qed.

End Fields.


(* ================================================================== *)
(** * Numbers in messages and keys *)


Lemma uint_str_digits u : Forall (fun c => isDigit c = true) (uint_str u).
Proof. induction u; simpl; constructor; auto. Qed.

Lemma uint_str_inj u : forall u', uint_str u = uint_str u' -> u = u'.
Proof.
  induction u; intros u' H; destruct u'; simpl in H; try discriminate; auto;
    injection H as H; f_equal; auto.
Qed.

Lemma num_str_plain z : Forall plain (num_str z).
Proof.
  unfold num_str. destruct (z <? 0).
  - constructor; [now right|].
    eapply Forall_impl; [|apply uint_str_digits]. intros c Hc. now left.
  - eapply Forall_impl; [|apply uint_str_digits]. intros c Hc. now left.
Qed.

Lemma num_str_digits z : 0 <= z -> Forall (fun c => isDigit c = true) (num_str z).
Proof.
  intros H. unfold num_str. destruct (z <? 0) eqn:E; [lia|]. apply uint_str_digits.
Qed.

Lemma to_uint_nonnil n : N.to_uint n <> Decimal.Nil.
Proof.
  destruct n; simpl; [discriminate | apply DecimalPos.Unsigned.to_uint_nonnil].
Qed.

Lemma num_str_nonempty z : num_str z <> [].
Proof.
  unfold num_str. destruct (z <? 0); [discriminate|].
  pose proof (to_uint_nonnil (Z.to_N z)) as H.
  destruct (N.to_uint (Z.to_N z)); simpl; congruence.
Qed.

Lemma num_str_inj z z' : num_str z = num_str z' -> z = z'.
Proof.
  unfold num_str. intros H.
  destruct (z <? 0) eqn:E; destruct (z' <? 0) eqn:E'.
  - injection H as H. apply uint_str_inj, DecimalN.Unsigned.to_uint_inj in H. lia.
  - exfalso. pose proof (uint_str_digits (N.to_uint (Z.to_N z'))) as Hd.
    rewrite <- H in Hd. inversion Hd as [|? ? Hc _]. discriminate Hc.
  - exfalso. pose proof (uint_str_digits (N.to_uint (Z.to_N z))) as Hd.
    rewrite H in Hd. inversion Hd as [|? ? Hc _]. discriminate Hc.
  - apply uint_str_inj, DecimalN.Unsigned.to_uint_inj in H. lia.
Qed.

(** Two texts cut at the first occurrence of a separator. *)
Lemma cut_at_first (sep : char) : forall l1 l2 r1 r2,
  ~ In sep l1 -> ~ In sep l2 ->
  l1 ++ sep :: r1 = l2 ++ sep :: r2 -> l1 = l2 /\ r1 = r2.
Proof.
  induction l1 as [|x l1 IH]; intros l2 r1 r2 H1 H2 E; destruct l2 as [|y l2];
    simpl in *.
  - injection E as E. auto.
  - injection E as E1 E2. exfalso. apply H2. now left.
  - injection E as E1 E2. exfalso. apply H1. now left.
  - injection E as E1 E2. subst y.
    destruct (IH l2 r1 r2) as [-> ->]; auto.
Qed.

Lemma plain_not (sep : char) l :
  Forall plain l -> isDigit sep = false -> sep <> c_minus -> ~ In sep l.
Proof.
  intros Hf Hd Hm Hin. rewrite Forall_forall in Hf. destruct (Hf _ Hin); congruence.
Qed.

Lemma num_str_no_space z : ~ In c_space (num_str z).
Proof. apply plain_not; [apply num_str_plain | reflexivity | discriminate]. Qed.

Lemma num_str_no_colon z : ~ In c_colon (num_str z).
Proof. apply plain_not; [apply num_str_plain | reflexivity | discriminate]. Qed.

(** A number, a fixed text that starts with a space, a name. *)
Lemma count_message_inj (mid : str) n a n' a' :
  num_str n ++ (c_space :: mid) ++ a = num_str n' ++ (c_space :: mid) ++ a' ->
  n = n' /\ a = a'.
Proof.
  simpl. intros H. apply cut_at_first in H; try apply num_str_no_space.
  destruct H as [H1 H2]. split; [now apply num_str_inj | now apply app_inv_head in H2].
Qed.

Lemma rev_inj (A : Type) (l l' : list A) : rev l = rev l' -> l = l'.
Proof. intros H. rewrite <- (rev_involutive l), H. apply rev_involutive. Qed.

(** A name, a fixed text that ends with a space, a number, a fixed text. *)
Lemma peak_message_inj (mid tail : str) p n p' n' :
  p ++ (mid ++ [c_space]) ++ num_str n ++ tail
  = p' ++ (mid ++ [c_space]) ++ num_str n' ++ tail ->
  p = p' /\ n = n'.
Proof.
  intros H. apply (f_equal (@rev char)) in H.
  rewrite !rev_app_distr in H. simpl in H. rewrite <- !app_assoc in H.
  apply app_inv_head in H. simpl in H.
  apply cut_at_first in H.
  - destruct H as [H1 H2]. apply rev_inj, num_str_inj in H1.
    apply app_inv_head, rev_inj in H2. auto.
  - rewrite <- in_rev. apply num_str_no_space.
  - rewrite <- in_rev. apply num_str_no_space.
Qed.

Lemma minute_key_inj a b a' b' :
  a ++ lit ":" ++ num_str b = a' ++ lit ":" ++ num_str b' -> a = a' /\ b = b'.
Proof.
  intros H. apply (f_equal (@rev char)) in H.
  rewrite !rev_app_distr in H. simpl in H. rewrite <- !app_assoc in H. simpl in H.
  apply cut_at_first in H.
  - destruct H as [H1 H2]. apply rev_inj, num_str_inj in H1. apply rev_inj in H2. auto.
  - rewrite <- in_rev. apply num_str_no_colon.
  - rewrite <- in_rev. apply num_str_no_colon.
Qed.


(* ================================================================== *)
(** * The shape of the anomaly list *)

Lemma post_rules_blocks st :
  post_rules st =
  acc_anomalies st ++ brute_force_block st ++ error_spike_block st
  ++ suspicious_ua_block st ++ rate_spike_block st ++ off_hours_block st.
Proof.
  unfold post_rules, suspicious_ua_block. cbv zeta.
  fold (brute_force_block st). fold (error_spike_block st).
  fold (maxPerIP_of st). fold (rate_spike_block st). fold (off_hours_block st).
  destruct (suspicious (uaSet st)); rewrite <- ?app_assoc; simpl; reflexivity.
Qed.

Lemma all_of_type_flat_map (A : Type) (f : A -> list Anomaly) t l :
  (forall x, all_of_type t (f x)) -> all_of_type t (flat_map f l).
Proof.
  intros H. unfold all_of_type. induction l as [|x l IH]; simpl; [constructor|].
  apply Forall_app. split; [apply H | apply IH].
Qed.

Lemma http_errors_of_type e : all_of_type t_http_error (http_errors_of e).
Proof.
  unfold http_errors_of. destruct (status e) as [s|]; [|constructor].
  destruct (existsb _ _); repeat constructor.
Qed.

Lemma brute_force_rule_type kv : all_of_type t_brute_force (brute_force_rule kv).
Proof.
  unfold brute_force_rule. destruct (snd kv) as [|n|]; try constructor.
  destruct (6 <=? n); repeat constructor.
Qed.

Lemma error_spike_rule_type kv : all_of_type t_error_spike (error_spike_rule kv).
Proof.
  unfold error_spike_rule. destruct (snd kv) as [|n|]; try constructor.
  destruct (12 <=? n); repeat constructor.
Qed.

Lemma rate_spike_rule_type kv : all_of_type t_rate_spike (rate_spike_rule kv).
Proof.
  unfold rate_spike_rule. destruct (snd kv) as [|n|]; try constructor.
  destruct (120 <? n); repeat constructor.
Qed.

Lemma off_hours_rule_type kv : all_of_type t_off_hours (off_hours_rule kv).
Proof.
  unfold off_hours_rule. destruct (snd kv) as [|n|]; try constructor.
  destruct (100 <=? n); repeat constructor.
Qed.

Lemma suspicious_ua_block_type st : all_of_type t_suspicious_ua (suspicious_ua_block st).
Proof.
  unfold suspicious_ua_block. destruct (suspicious _); repeat constructor.
Qed.

Lemma filter_all_of_type t l : all_of_type t l -> filter (has_type t) l = l.
Proof.
  unfold all_of_type, has_type. induction 1 as [|a l Ha Hl IH]; simpl; auto.
  rewrite Ha, str_eqb_refl. now f_equal.
Qed.

Lemma filter_other_type t t' l : all_of_type t' l -> t' <> t -> filter (has_type t) l = [].
Proof.
  unfold all_of_type, has_type. intros H Hne. induction H as [|a l Ha Hl IH]; simpl; auto.
  rewrite Ha. apply str_eqb_neq in Hne. now rewrite Hne.
Qed.

Section Shape.
Variable getHours : Z -> Z.

Lemma aggregate_acc es : acc_anomalies (aggregate getHours es) = flat_map http_errors_of es.
Proof. unfold aggregate. now rewrite fold_acc_anomalies. Qed.

Lemma anomalies_blocks text :
  let r := analyzeLogs getHours text in
  let st := aggregate getHours (entries r) in
  anomalies r =
  flat_map http_errors_of (entries r) ++ brute_force_block st ++ error_spike_block st
  ++ suspicious_ua_block st ++ rate_spike_block st ++ off_hours_block st.
Proof.
  cbv zeta. unfold analyzeLogs. cbn [anomalies entries].
  now rewrite post_rules_blocks, aggregate_acc.
Qed.

End Shape.

Ltac other_type :=
  match goal with
  | |- filter (has_type ?t) ?l = [] =>
      first
        [ apply filter_other_type with (t' := t_http_error);
            [apply all_of_type_flat_map, http_errors_of_type | discriminate]
        | apply filter_other_type with (t' := t_brute_force);
            [apply all_of_type_flat_map, brute_force_rule_type | discriminate]
        | apply filter_other_type with (t' := t_error_spike);
            [apply all_of_type_flat_map, error_spike_rule_type | discriminate]
        | apply filter_other_type with (t' := t_suspicious_ua);
            [apply suspicious_ua_block_type | discriminate]
        | apply filter_other_type with (t' := t_rate_spike);
            [apply all_of_type_flat_map, rate_spike_rule_type | discriminate]
        | apply filter_other_type with (t' := t_off_hours);
            [apply all_of_type_flat_map, off_hours_rule_type | discriminate] ]
  end.

Section Filters.
Variable getHours : Z -> Z.
Variable text : str.
Let r := analyzeLogs getHours text.
Let st := aggregate getHours (entries r).

Lemma filter_http_error :
  filter (has_type t_http_error) (anomalies r) = flat_map http_errors_of (entries r).
Proof.
  unfold r. rewrite anomalies_blocks. rewrite !filter_app.
  rewrite filter_all_of_type by apply all_of_type_flat_map, http_errors_of_type.
  repeat (match goal with |- context [filter (has_type ?t) ?l] =>
            replace (filter (has_type t) l) with (@nil Anomaly) by (symmetry; other_type)
          end).
  simpl. now rewrite ?app_nil_r.
Qed.

Lemma filter_brute_force :
  filter (has_type t_brute_force) (anomalies r) = brute_force_block st.
Proof.
  unfold st, r. rewrite anomalies_blocks. rewrite !filter_app.
  rewrite (@filter_all_of_type t_brute_force (brute_force_block _))
    by apply all_of_type_flat_map, brute_force_rule_type.
  repeat (match goal with |- context [filter (has_type ?t) ?l] =>
            replace (filter (has_type t) l) with (@nil Anomaly) by (symmetry; other_type)
          end).
  simpl. now rewrite ?app_nil_r.
Qed.

Lemma filter_error_spike :
  filter (has_type t_error_spike) (anomalies r) = error_spike_block st.
Proof.
  unfold st, r. rewrite anomalies_blocks. rewrite !filter_app.
  rewrite (@filter_all_of_type t_error_spike (error_spike_block _))
    by apply all_of_type_flat_map, error_spike_rule_type.
  repeat (match goal with |- context [filter (has_type ?t) ?l] =>
            replace (filter (has_type t) l) with (@nil Anomaly) by (symmetry; other_type)
          end).
  simpl. now rewrite ?app_nil_r.
Qed.

Lemma filter_suspicious_ua :
  filter (has_type t_suspicious_ua) (anomalies r) = suspicious_ua_block st.
Proof.
  unfold st, r. rewrite anomalies_blocks. rewrite !filter_app.
  rewrite (@filter_all_of_type t_suspicious_ua (suspicious_ua_block _))
    by apply suspicious_ua_block_type.
  repeat (match goal with |- context [filter (has_type ?t) ?l] =>
            replace (filter (has_type t) l) with (@nil Anomaly) by (symmetry; other_type)
          end).
  simpl. now rewrite ?app_nil_r.
Qed.

Lemma filter_rate_spike :
  filter (has_type t_rate_spike) (anomalies r) = rate_spike_block st.
Proof.
  unfold st, r. rewrite anomalies_blocks. rewrite !filter_app.
  rewrite (@filter_all_of_type t_rate_spike (rate_spike_block _))
    by apply all_of_type_flat_map, rate_spike_rule_type.
  repeat (match goal with |- context [filter (has_type ?t) ?l] =>
            replace (filter (has_type t) l) with (@nil Anomaly) by (symmetry; other_type)
          end).
  simpl. now rewrite ?app_nil_r.
Qed.

Lemma filter_off_hours :
  filter (has_type t_off_hours) (anomalies r) = off_hours_block st.
Proof.
  unfold st, r. rewrite anomalies_blocks. rewrite !filter_app.
  rewrite (@filter_all_of_type t_off_hours (off_hours_block _))
    by apply all_of_type_flat_map, off_hours_rule_type.
  repeat (match goal with |- context [filter (has_type ?t) ?l] =>
            replace (filter (has_type t) l) with (@nil Anomaly) by (symmetry; other_type)
          end).
  simpl. now rewrite ?app_nil_r.
Qed.

End Filters.


(* ================================================================== *)
(** * Brute Force *)


Lemma In_brute_force_rule x kv :
  In x (brute_force_rule kv) <->
  exists n, snd kv = Number n /\ 6 <= n /\ x = brute_force_anomaly n (fst kv).
Proof.
  unfold brute_force_rule. destruct (snd kv) as [|n|]; simpl.
  - split; [tauto | intros (n & H & _); discriminate].
  - destruct (6 <=? n) eqn:E; simpl.
    + apply Z.leb_le in E. split.
      * intros [<-|[]]. now exists n.
      * intros (n' & [= <-] & _ & ->). now left.
    + apply Z.leb_gt in E. split; [tauto|]. intros (n' & [= <-] & H & _). lia.
  - split; [tauto | intros (n & H & _); discriminate].
Qed.

Section BruteForce.
Variable getHours : Z -> Z.
Variable text : str.
Let r := analyzeLogs getHours text.
Let st := aggregate getHours (entries r).

Lemma In_anomalies_of_type x t :
  type x = t -> (In x (anomalies r) <-> In x (filter (has_type t) (anomalies r))).
Proof.
  intros Ht. rewrite filter_In. unfold has_type. rewrite Ht, str_eqb_refl. tauto.
Qed.

Lemma brute_force_iff a n :
  ~ In a object_prototype_keys ->
  (In (brute_force_anomaly n a) (anomalies r) <->
   n = failed_count a (entries r) /\ 6 <= n).
Proof.
  intros Ha.
  rewrite (@In_anomalies_of_type _ t_brute_force) by reflexivity.
  unfold r. rewrite filter_brute_force. fold r.
  unfold brute_force_block, aggregate. rewrite fold_failedByIP. cbn [failedByIP agg0].
  rewrite in_flat_map. split.
  - intros ([k v] & Hin & Hx). apply In_brute_force_rule in Hx. simpl in Hx.
    destruct Hx as (n' & -> & Hge & Hx).
    unfold brute_force_anomaly in Hx. injection Hx as Hx.
    apply (@count_message_inj (lit "failed logins from ") n a n' k) in Hx.
    destruct Hx as [-> ->].
    apply bump_fold_spec in Hin; auto. destruct Hin as [[= ->] _].
    split; auto.
  - intros [-> Hge]. exists (a, Number (failed_count a (entries r))). split.
    + apply bump_fold_spec; auto. split; auto. unfold failed_count in Hge. lia.
    + apply In_brute_force_rule. simpl. eauto.
Qed.

End BruteForce.


(* ================================================================== *)
(** * Rate Spike *)

(** ** Maxima *)


Lemma is_max_unique m m' S : is_max m S -> is_max m' S -> m = m'.
Proof.
  intros (H0 & [H1|H1] & H2) (H0' & [H1'|H1'] & H2'); subst; auto.
  - apply H2 in H1'. lia.
  - apply H2' in H1. lia.
  - apply H2 in H1'. apply H2' in H1. lia.
Qed.

Lemma is_max_ext m (S S' : Z -> Prop) :
  (forall x, x <> 0 -> (S x <-> S' x)) -> is_max m S -> is_max m S'.
Proof.
  intros E (H0 & H1 & H2). split; [auto|split].
  - destruct H1 as [H1|H1]; auto.
    destruct (Z.eq_dec m 0); auto. right. now apply E.
  - intros x Hx. destruct (Z.eq_dec x 0); [lia|]. apply H2. now apply E.
Qed.

Lemma zmax_list_is_max l : is_max (zmax_list l) (fun x => In x l).
Proof.
  induction l as [|y l (H0 & H1 & H2)]; simpl.
  - repeat split; auto; [lia | intros x []].
  - repeat split.
    + lia.
    + destruct (Z.max_spec y (zmax_list l)) as [[_ E]|[_ E]]; rewrite E; tauto.
    + intros x [->|Hx]; [lia|]. apply H2 in Hx. lia.
Qed.

(** ** The composite key and its first segment *)

Lemma hd_split_char_loop sep : forall s piece,
  hd [] (split_char_loop sep piece s)
  = rev piece ++ (fix upto (a : str) : str :=
                    match a with
                    | [] => []
                    | c :: t => if (c =? sep)%N then [] else c :: upto t
                    end) s.
Proof.
  induction s as [|c t IH]; intros piece; simpl.
  - now rewrite app_nil_r.
  - destruct (c =? sep)%N; simpl.
    + now rewrite app_nil_r.
    + rewrite IH. simpl. now rewrite <- app_assoc.
Qed.

Lemma first_segment s : hd [] (split_char c_colon s) = before_colon s.
Proof. unfold split_char. now rewrite hd_split_char_loop. Qed.

Lemma before_colon_app a t : before_colon (a ++ c_colon :: t) = before_colon a.
Proof.
  induction a as [|c a IH]; simpl; auto.
  destruct (c =? c_colon)%N; auto. now rewrite IH.
Qed.


Lemma before_colon_no_colon a : ~ In c_colon (before_colon a).
Proof.
  induction a as [|c a IH]; simpl; auto.
  destruct (c =? c_colon)%N eqn:E; simpl; auto.
  intros [->|H]; auto. now rewrite N.eqb_refl in E.
Qed.

Lemma prototype_keys_no_colon k : In k object_prototype_keys -> ~ In c_colon k.
Proof.
  intros Hk Hc.
  assert (H : forallb (fun k => negb (existsb (N.eqb c_colon) k)) object_prototype_keys = true)
    by reflexivity.
  rewrite forallb_forall in H. specialize (H k Hk).
  apply negb_true_iff in H.
  assert (existsb (N.eqb c_colon) k = true); [|congruence].
  apply existsb_exists. exists c_colon. split; [assumption | apply N.eqb_refl].
Qed.

Lemma rate_key_shape e k :
  rate_key e = Some k <-> exists a b, rated e = Some (a, b) /\ k = a ++ lit ":" ++ num_str b.
Proof.
  unfold rate_key. destruct (rated e) as [[a b]|]; split.
  - intros [= <-]. eauto.
  - intros (a' & b' & [= <- <-] & ->). reflexivity.
  - discriminate.
  - intros (a' & b' & H & _). discriminate.
Qed.

Lemma rate_key_not_prototype e k : rate_key e = Some k -> ~ In k object_prototype_keys.
Proof.
  intros H Hk. apply rate_key_shape in H. destruct H as (a & b & _ & ->).
  apply prototype_keys_no_colon in Hk. apply Hk.
  rewrite in_app_iff. right. now left.
Qed.

Lemma tally_rate_key a b es :
  tally rate_key (a ++ lit ":" ++ num_str b) es = bucket_count a b es.
Proof.
  unfold tally, bucket_count. f_equal. f_equal. apply filter_ext. intros e.
  unfold files_under, rate_key. destruct (rated e) as [[a' b']|]; auto.
  destruct (str_eqb a' a && (b' =? b)) eqn:E.
  - apply andb_true_iff in E. destruct E as [E1 E2].
    apply str_eqb_eq in E1. apply Z.eqb_eq in E2. subst. apply str_eqb_refl.
  - apply str_eqb_neq. intros H. apply minute_key_inj in H. destruct H as [-> ->].
    now rewrite str_eqb_refl, Z.eqb_refl in E.
Qed.

(** ** What the per-minute counter holds *)

Lemma keys_bump o k x :
  In x (List.map fst (bump o k)) -> x = k \/ In x (List.map fst o).
Proof.
  unfold bump, put. destruct (str_eqb k proto_name); auto.
  now rewrite keys_own_set.
Qed.

Lemma keys_bump_fold sel : forall es o x,
  In x (List.map fst (bump_fold sel es o)) ->
  In x (List.map fst o) \/ exists e, In e es /\ sel e = Some x.
Proof.
  induction es as [|e es IH]; intros o x H; simpl in H; auto.
  apply IH in H. destruct H as [H|(e' & H1 & H2)].
  - destruct (sel e) as [k|] eqn:E; auto.
    apply keys_bump in H. destruct H as [->|H]; auto.
    right. exists e. split; auto. now left.
  - right. exists e'. split; auto. now right.
Qed.

Lemma In_perMinute es k v :
  In (k, v) (Object_entries (bump_fold rate_key es [])) <->
  exists e a b, In e es /\ rated e = Some (a, b) /\ k = a ++ lit ":" ++ num_str b
                /\ v = Number (bucket_count a b es).
Proof.
  split.
  - intros H. assert (Hk : exists e, In e es /\ rate_key e = Some k).
    { rewrite In_Object_entries in H.
      assert (Hin : In k (List.map fst (bump_fold rate_key es []))).
      { change k with (fst (k, v)). now apply in_map. }
      apply keys_bump_fold in Hin. destruct Hin as [[]|Hin]. exact Hin. }
    destruct Hk as (e & He & Hk). pose proof Hk as Hs.
    apply rate_key_shape in Hs. destruct Hs as (a & b & Hr & ->).
    apply bump_fold_spec in H; [|now apply rate_key_not_prototype with (e := e)].
    destruct H as [-> _]. exists e, a, b. repeat split; auto.
    now rewrite tally_rate_key.
  - intros (e & a & b & He & Hr & -> & ->).
    assert (Hk : rate_key e = Some (a ++ lit ":" ++ num_str b)).
    { apply rate_key_shape. eauto. }
    apply bump_fold_spec; [now apply rate_key_not_prototype with (e := e)|].
    rewrite tally_rate_key. split; auto.
    unfold bucket_count. apply (inj_lt 0). apply Nat.lt_le_trans with (m := 1%nat); [lia|].
    assert (Hin : In e (filter (fun e => match rated e with
              | Some (a', b') => str_eqb a' a && (b' =? b)
              | None => false end) es)).
    { apply filter_In. split; auto. rewrite Hr, str_eqb_refl, Z.eqb_refl. reflexivity. }
    destruct (filter _ es); [destruct Hin | simpl; lia].
Qed.


(** ** The per-address maximum *)



Lemma counts_max_step M f kv :
  (forall p, 0 <= f p) -> positive_count kv -> counts M f ->
  counts (max_step M kv) (fun p => Z.max (f p) (seg_value p kv)).
Proof.
  intros Hpos (c & Hc & Hgt) [Hnd Hf]. unfold max_step. rewrite first_segment, Hc.
  set (p0 := before_colon (fst kv)).
  assert (Hother : forall p, p <> p0 -> Z.max (f p) (seg_value p kv) = f p).
  { intros p Hne. unfold seg_value. fold p0.
    assert (E : str_eqb p0 p = false) by (apply str_eqb_neq; congruence).
    rewrite E. specialize (Hpos p). lia. }
  assert (Hsame : Z.max (f p0) (seg_value p0 kv) = Z.max (f p0) c).
  { unfold seg_value. fold p0. now rewrite str_eqb_refl, Hc. }
  assert (Hput : counts (put M p0 (Number c))
                        (fun p => if str_eqb p0 p then c else f p)).
  { unfold put. destruct (str_eqb p0 proto_name) eqn:Ep.
    - apply str_eqb_eq in Ep. split; auto. intros p Hp.
      assert (E : str_eqb p0 p = false).
      { apply str_eqb_neq. intros ->. apply Hp. rewrite Ep. simpl. tauto. }
      rewrite E. now apply Hf.
    - split; [now apply NoDup_own_set|]. intros p Hp.
      destruct (str_eqb p0 p) eqn:E.
      + apply str_eqb_eq in E. subst p. rewrite assoc_own_set_same.
        destruct (c =? 0) eqn:Ez; [lia | reflexivity].
      + apply str_eqb_neq in E. rewrite assoc_own_set_other by congruence. now apply Hf. }
  destruct (falsy (get M p0) || gt (Number c) (get M p0)) eqn:Ecase.
  - (* the assignment happens *)
    destruct (in_dec (list_eq_dec N.eq_dec) p0 object_prototype_keys) as [Hin|Hin].
    + (* a name of Object.prototype: of no concern to the other names *)
      destruct Hput as [Hnd' Hf']. split; auto. intros p Hp.
      assert (Hne : p <> p0) by (intros ->; contradiction).
      rewrite Hother by auto. rewrite Hf' by auto.
      assert (E : str_eqb p0 p = false) by (apply str_eqb_neq; congruence).
      now rewrite E.
    + eapply counts_ext; [|exact Hput]. intros p. cbv beta.
      destruct (str_eqb p0 p) eqn:E.
      * apply str_eqb_eq in E. subst p. rewrite Hsame.
        unfold get in Ecase. rewrite (Hf p0 Hin) in Ecase.
        specialize (Hpos p0).
        destruct (f p0 =? 0) eqn:Ez.
        -- apply Z.eqb_eq in Ez. lia.
        -- simpl in Ecase. rewrite Ez in Ecase. simpl in Ecase.
           apply Z.ltb_lt in Ecase. lia.
      * apply str_eqb_neq in E. rewrite Hother; congruence.
  - (* nothing is assigned *)
    split; auto. intros p Hp.
    destruct (list_eq_dec N.eq_dec p p0) as [->|Hne].
    + rewrite Hsame. unfold get in Ecase. rewrite (Hf p0 Hp) in Ecase.
      specialize (Hpos p0). rewrite (Hf p0 Hp).
      destruct (f p0 =? 0) eqn:Ez.
      * destruct (mem p0 object_prototype_keys) eqn:Em.
        -- apply mem_In in Em. contradiction.
        -- discriminate Ecase.
      * simpl in Ecase. rewrite Ez in Ecase. simpl in Ecase.
        apply Z.ltb_ge in Ecase. rewrite Z.max_l by lia. now rewrite Ez.
    + rewrite Hother by auto. now apply Hf.
Qed.

Lemma zmax_list_nonneg l : 0 <= zmax_list l.
Proof. exact (proj1 (zmax_list_is_max l)). Qed.

Lemma counts_max_fold : forall L M f,
  (forall p, 0 <= f p) -> Forall positive_count L -> counts M f ->
  counts (fold_left max_step L M)
         (fun p => Z.max (f p) (zmax_list (List.map (seg_value p) L))).
Proof.
  induction L as [|kv L IH]; intros M f Hpos HL Hc; simpl.
  - eapply counts_ext; [|exact Hc]. intros p. specialize (Hpos p). simpl. lia.
  - inversion HL as [|? ? Hkv HL']; subst.
    eapply counts_ext; [|apply IH; [| exact HL' | apply counts_max_step; eauto]].
    + intros p. cbv beta. lia.
    + intros p. specialize (Hpos p). cbv beta. lia.
Qed.

Lemma perMinute_positive es : Forall positive_count (Object_entries (bump_fold rate_key es [])).
Proof.
  apply Forall_forall. intros [k v] H. pose proof H as H'.
  apply In_perMinute in H. destruct H as (e & a & b & He & Hr & -> & ->).
  exists (bucket_count a b es). split; auto.
  apply In_perMinute in H'. destruct H' as (e' & a' & b' & He' & Hr' & Hk & Hv).
  assert (Hk' : rate_key e = Some (a ++ lit ":" ++ num_str b))
    by (apply rate_key_shape; eauto).
  pose proof (@bump_fold_spec rate_key es (a ++ lit ":" ++ num_str b)
                (Number (bucket_count a b es))
                (rate_key_not_prototype e Hk')) as Hs.
  rewrite tally_rate_key in Hs.
  assert (Hin : In (a ++ lit ":" ++ num_str b, Number (bucket_count a b es))
                   (Object_entries (bump_fold rate_key es []))).
  { apply In_perMinute. exists e, a, b. auto. }
  apply Hs in Hin. tauto.
Qed.

Lemma segment_max_is_group_peak p es :
  zmax_list (List.map (seg_value p) (Object_entries (bump_fold rate_key es [])))
  = group_peak p es.
Proof.
  apply is_max_unique with (S := fun x => In x (List.map
    (fun e => match rated e with
              | Some (a, b) =>
                  if str_eqb (before_colon a) p then bucket_count a b es else 0
              | None => 0
              end) es)); [|apply zmax_list_is_max].
  eapply is_max_ext; [|apply zmax_list_is_max].
  intros x Hx. rewrite !in_map_iff. split.
  - intros ([k v] & Hv & Hin). apply In_perMinute in Hin.
    destruct Hin as (e & a & b & He & Hr & -> & ->).
    exists e. split; auto. rewrite Hr. unfold seg_value in Hv. simpl in Hv.
    change (a ++ lit ":" ++ num_str b) with (a ++ c_colon :: num_str b) in Hv.
    now rewrite before_colon_app in Hv.
  - intros (e & Hv & He). destruct (rated e) as [[a b]|] eqn:Hr; [|congruence].
    exists (a ++ lit ":" ++ num_str b, Number (bucket_count a b es)). split.
    + unfold seg_value. simpl.
      change (a ++ lit ":" ++ num_str b) with (a ++ c_colon :: num_str b).
      now rewrite before_colon_app.
    + apply In_perMinute. exists e, a, b. auto.
Qed.


Lemma In_rate_spike_rule x kv :
  In x (rate_spike_rule kv) <->
  exists n, snd kv = Number n /\ 120 < n /\ x = rate_spike_anomaly (fst kv) n.
Proof.
  unfold rate_spike_rule. destruct (snd kv) as [|n|]; simpl.
  - split; [tauto | intros (n & H & _); discriminate].
  - destruct (120 <? n) eqn:E; simpl.
    + apply Z.ltb_lt in E. split.
      * intros [<-|[]]. now exists n.
      * intros (n' & [= <-] & _ & ->). now left.
    + apply Z.ltb_ge in E. split; [tauto|]. intros (n' & [= <-] & H & _). lia.
  - split; [tauto | intros (n & H & _); discriminate].
Qed.

Section RateSpike.
Variable getHours : Z -> Z.
Variable text : str.
Let r := analyzeLogs getHours text.
Let st := aggregate getHours (entries r).

Lemma maxPerIP_counts : counts (maxPerIP_of st) (fun p => group_peak p (entries r)).
Proof.
  unfold maxPerIP_of, st, aggregate. rewrite fold_perMinute. cbn [perMinute agg0].
  eapply counts_ext; [|apply counts_max_fold with (f := fun _ => 0)].
  - intros p. cbv beta. rewrite segment_max_is_group_peak.
    pose proof (zmax_list_nonneg (List.map
      (fun e => match rated e with
                | Some (a, b) =>
                    if str_eqb (before_colon a) p then bucket_count a b (entries r) else 0
                | None => 0 end) (entries r))) as H.
    unfold group_peak. lia.
  - intros; lia.
  - apply perMinute_positive.
  - apply counts_empty.
Qed.

Lemma rate_spike_iff p n :
  ~ In p object_prototype_keys ->
  (In (rate_spike_anomaly p n) (anomalies r) <->
   n = group_peak p (entries r) /\ 120 < n).
Proof.
  intros Hp. destruct maxPerIP_counts as [Hnd Hc]. specialize (Hc p Hp).
  unfold r at 1. rewrite (@In_anomalies_of_type getHours text _ t_rate_spike) by reflexivity.
  rewrite filter_rate_spike. fold r. fold st.
  unfold rate_spike_block. rewrite in_flat_map. split.
  - intros ([k v] & Hin & Hx). apply In_rate_spike_rule in Hx. simpl in Hx.
    destruct Hx as (n' & -> & Hgt & Hx).
    unfold rate_spike_anomaly in Hx. injection Hx as Hx.
    apply (@peak_message_inj (lit " peaked at") (lit " req/min") p n k n') in Hx.
    destruct Hx as [<- <-].
    rewrite In_Object_entries in Hin. apply In_assoc in Hin; auto.
    rewrite Hc in Hin. destruct (group_peak p (entries r) =? 0); [discriminate|].
    injection Hin as <-. auto.
  - intros [-> Hgt]. exists (p, Number (group_peak p (entries r))). split.
    + rewrite In_Object_entries. apply assoc_In. rewrite Hc.
      destruct (group_peak p (entries r) =? 0) eqn:E; auto.
      apply Z.eqb_eq in E. lia.
    + apply In_rate_spike_rule. simpl. eauto.
Qed.

End RateSpike.


(* ================================================================== *)
(** * Suspicious user agents *)

Lemma ci_eqb_lower a b : ci_eqb a b = true <-> lower a = lower b.
Proof.
  unfold ci_eqb, upper, lower, isLowerAZ, isUpperAZ, in_range.
  rewrite N.eqb_eq.
  repeat match goal with
         | |- context [(?x <=? ?y)%N] => destruct (N.leb_spec x y)
         end; simpl; lia.
Qed.

Lemma Matches_LitCI tok : forall bef w aft cs cs',
  Matches (LitCI tok) bef w aft cs cs' -> List.map lower w = List.map lower tok /\ cs' = cs.
Proof.
  induction tok as [|t tok IH]; intros bef w aft cs cs' M; simpl in M.
  - inversion M; subst. auto.
  - inversion M as [| |a b bef' w1 w2 aft' cs0 cs1 cs2 M1 M2| | | | | | |]; subst.
    inversion M1; subst. apply IH in M2. destruct M2 as [E ->]. simpl.
    split; auto. f_equal; auto. symmetry. now apply ci_eqb_lower.
Qed.

Lemma LitCI_Matches tok : forall bef w aft cs,
  List.map lower w = List.map lower tok -> Matches (LitCI tok) bef w aft cs cs.
Proof.
  induction tok as [|t tok IH]; intros bef w aft cs E; destruct w as [|c w];
    simpl in *; try discriminate.
  - constructor.
  - injection E as E1 E2. apply (@M_Seq _ _ bef [c] w aft cs cs cs).
    + constructor. apply ci_eqb_lower. auto.
    + now apply IH.
Qed.

Lemma Matches_Alts rs : forall bef w aft cs cs',
  Matches (Alts rs) bef w aft cs cs' <-> exists r, In r rs /\ Matches r bef w aft cs cs'.
Proof.
  induction rs as [|r rs IH]; intros bef w aft cs cs'.
  - simpl. split.
    + intros M. inversion M; discriminate.
    + intros (r & [] & _).
  - destruct rs as [|r' rs].
    + simpl. split; [intros M; exists r; auto | intros (r0 & [<-|[]] & M); auto].
    + change (Alts (r :: r' :: rs)) with (Alt r (Alts (r' :: rs))). split.
      * intros M.
        inversion M as [| | |a b bf w0 af c0 c1 M1|a b bf w0 af c0 c1 M1| | | | |]; subst.
        -- exists r. split; [now left | assumption].
        -- apply IH in M1. destruct M1 as (r0 & Hin & M0).
           exists r0. split; [now right | assumption].
      * intros (r0 & [<-|Hin] & M0).
        -- now apply M_AltL.
        -- apply M_AltR. apply IH. eauto.
Qed.

Lemma contains_map_lower tok u :
  contains_ci tok u <->
  exists pre w post, u = pre ++ w ++ post /\ List.map lower w = List.map lower tok.
Proof.
  unfold contains_ci, contains. split.
  - intros (pre' & post' & E).
    apply map_eq_app in E. destruct E as (pre & rest & -> & Hpre & E).
    apply map_eq_app in E. destruct E as (w & post & -> & Hw & Hpost).
    exists pre, w, post. auto.
  - intros (pre & w & post & -> & E).
    exists (List.map lower pre), (List.map lower post).
    now rewrite !map_app, E.
Qed.

Lemma test_suspicious u :
  test SUSPICIOUS_RE u = true <-> exists tok, In tok suspicious_tokens /\ contains_ci tok u.
Proof.
  rewrite test_true_iff. unfold SUSPICIOUS_RE. split.
  - intros (pre & w & aft & cs & cs' & -> & M).
    apply Matches_Alts in M. destruct M as (r & Hin & M).
    apply in_map_iff in Hin. destruct Hin as (tok & <- & Hin).
    apply Matches_LitCI in M. destruct M as [E _].
    exists tok. split; auto. apply contains_map_lower. exists pre, w, aft. auto.
  - intros (tok & Hin & Hc). apply contains_map_lower in Hc.
    destruct Hc as (pre & w & post & -> & E).
    exists pre, w, post, [], []. split; auto.
    apply Matches_Alts. exists (LitCI tok). split; [now apply in_map|].
    now apply LitCI_Matches.
Qed.

Lemma In_set_add x u s : In x (set_add u s) <-> x = u \/ In x s.
Proof.
  unfold set_add. destruct (mem u s) eqn:E.
  - apply mem_In in E. split; auto. intros [->|H]; auto.
  - rewrite in_app_iff. simpl. intuition.
Qed.

Lemma NoDup_set_add u s : NoDup s -> NoDup (set_add u s).
Proof.
  unfold set_add. intros H. destruct (mem u s) eqn:E; auto.
  apply NoDup_app; auto.
  - constructor; [intros [] | constructor].
  - intros x Hx [<-|[]]. apply mem_In in Hx. congruence.
Qed.

Section UserAgents.
Variable getHours : Z -> Z.

Lemma fold_uaSet : forall es st u,
  In u (uaSet (fold_left (step getHours) es st)) <->
  In u (uaSet st) \/ seen_user_agent es u.
Proof.
  unfold seen_user_agent.
  induction es as [|e es IH]; intros st u; simpl.
  - split; auto. intros [H|(_ & e & [] & _)]; auto.
  - rewrite IH, step_uaSet. split.
    + intros [H|(Hne & e' & He' & Hu)].
      * destruct (ua e) as [u0|] eqn:Eu; auto.
        destruct (truthy_str u0) eqn:Et; auto.
        apply In_set_add in H. destruct H as [->|H]; auto.
        right. split; [destruct u0; [discriminate | discriminate]|].
        exists e. auto.
      * right. split; auto. exists e'. auto.
    + intros [H|(Hne & e' & [<-|He'] & Hu)].
      * left. destruct (ua e) as [u0|]; auto. destruct (truthy_str u0); auto.
        apply In_set_add. auto.
      * left. rewrite Hu. destruct u as [|c u]; [congruence|]. simpl.
        apply In_set_add. auto.
      * right. split; auto. exists e'. auto.
Qed.

Lemma suspicious_iff es :
  suspicious (uaSet (aggregate getHours es)) = true <-> suspicious_seen es.
Proof.
  unfold suspicious, suspicious_seen, aggregate. rewrite existsb_exists. split.
  - intros (u & Hin & Ht). apply fold_uaSet in Hin. destruct Hin as [[]|Hs].
    apply test_suspicious in Ht. destruct Ht as (tok & Htok & Hc).
    exists u, tok. auto.
  - intros (u & tok & Hs & Htok & Hc). exists u. split.
    + apply fold_uaSet. auto.
    + apply test_suspicious. eauto.
Qed.

End UserAgents.


(* ================================================================== *)
(** * Reading a match back *)

Lemma Matches_Eps_inv bef w aft cs cs' :
  Matches Eps bef w aft cs cs' -> w = [] /\ cs' = cs.
Proof. intros M. inversion M; subst; auto. Qed.

Lemma Matches_Chr_inv p bef w aft cs cs' :
  Matches (Chr p) bef w aft cs cs' -> exists c, w = [c] /\ p c = true /\ cs' = cs.
Proof. intros M. inversion M; subst; eauto. Qed.

Lemma Matches_Lit1_inv c bef w aft cs cs' :
  Matches (Lit1 c) bef w aft cs cs' -> w = [c] /\ cs' = cs.
Proof.
  intros M. apply Matches_Chr_inv in M. destruct M as (c' & -> & E & ->).
  apply N.eqb_eq in E. subst. auto.
Qed.

Lemma Matches_Seq_inv a b bef w aft cs cs' :
  Matches (Seq a b) bef w aft cs cs' ->
  exists w1 w2 cs1, w = w1 ++ w2 /\ Matches a bef w1 (w2 ++ aft) cs cs1 /\
                    Matches b (rev w1 ++ bef) w2 aft cs1 cs'.
Proof. intros M. inversion M; subst; eauto 10. Qed.

Lemma Matches_Alt_inv a b bef w aft cs cs' :
  Matches (Alt a b) bef w aft cs cs' ->
  Matches a bef w aft cs cs' \/ Matches b bef w aft cs cs'.
Proof. intros M. inversion M; subst; auto. Qed.

Lemma Matches_Grp_inv i a bef w aft cs cs' :
  Matches (Grp i a) bef w aft cs cs' ->
  exists cs1, cs' = (i, w) :: cs1 /\ Matches a bef w aft cs cs1.
Proof. intros M. inversion M; subst; eauto. Qed.

Lemma Matches_Bol_inv bef w aft cs cs' :
  Matches Bol bef w aft cs cs' -> bef = [] /\ w = [] /\ cs' = cs.
Proof. intros M. inversion M; subst; auto. Qed.

Lemma Matches_Wb_inv bef w aft cs cs' :
  Matches Wb bef w aft cs cs' ->
  w = [] /\ cs' = cs /\ xorb (isWordAt bef) (isWordAt aft) = true.
Proof. intros M. inversion M; subst; auto. Qed.

Lemma Matches_Star_class g p bef w aft cs cs' :
  Matches (Star g (Chr p)) bef w aft cs cs' ->
  Forall (fun c => p c = true) w /\ cs' = cs.
Proof.
  intros M. remember (Star g (Chr p)) as r eqn:Er.
  induction M; try discriminate.
  - auto.
  - injection Er as -> ->.
    apply Matches_Chr_inv in M1. destruct M1 as (c & -> & Hc & ->).
    destruct (IHM2 eq_refl) as [Hf ->]. split; auto. simpl. constructor; auto.
Qed.

Lemma Matches_Plus_class p bef w aft cs cs' :
  Matches (Plus (Chr p)) bef w aft cs cs' ->
  w <> [] /\ Forall (fun c => p c = true) w /\ cs' = cs.
Proof.
  unfold Plus. intros M. apply Matches_Seq_inv in M.
  destruct M as (w1 & w2 & cs1 & -> & M1 & M2).
  apply Matches_Chr_inv in M1. destruct M1 as (c & -> & Hc & ->).
  apply Matches_Star_class in M2. destruct M2 as [Hf ->].
  repeat split; [discriminate | simpl; constructor; auto].
Qed.

Lemma Matches_Times_class p n : forall bef w aft cs cs',
  Matches (Times n (Chr p)) bef w aft cs cs' ->
  length w = n /\ Forall (fun c => p c = true) w /\ cs' = cs.
Proof.
  induction n as [|n IH]; intros bef w aft cs cs' M; simpl in M.
  - apply Matches_Eps_inv in M. destruct M as [-> ->]. repeat split; auto.
  - apply Matches_Seq_inv in M. destruct M as (w1 & w2 & cs1 & -> & M1 & M2).
    apply Matches_Chr_inv in M1. destruct M1 as (c & -> & Hc & ->).
    apply IH in M2. destruct M2 as (Hl & Hf & ->).
    repeat split; simpl; auto.
Qed.

(** ** The combined access-log pattern *)

Ltac seq_inv M x Mx :=
  let w2 := fresh "rest" in
  let cs1 := fresh "cs" in
  cbn [Seqs] in M; apply Matches_Seq_inv in M;
  destruct M as (x & w2 & cs1 & -> & Mx & M).

Ltac lit_inv M :=
  let x := fresh "x" in let Mx := fresh "Mx" in
  seq_inv M x Mx; apply Matches_Lit1_inv in Mx; destruct Mx as [-> ->].

Lemma Matches_bytes_field bef w aft cs cs' :
  Matches (Alt (Plus digit) (Lit1 c_minus)) bef w aft cs cs' -> cs' = cs.
Proof.
  intros M. apply Matches_Alt_inv in M. destruct M as [M|M].
  - apply Matches_Plus_class in M. now destruct M as (_ & _ & ->).
  - apply Matches_Lit1_inv in M. now destruct M as [_ ->].
Qed.

Lemma clf_match_shape line m :
  exec CLF_RE line = Some m ->
  exists g1 g2 g3 g4 g5 g6 rest,
    m_caps m = [(6%nat, g6); (5%nat, g5); (4%nat, g4); (3%nat, g3); (2%nat, g2); (1%nat, g1)]
    /\ line = g1 ++ c_space :: rest
    /\ g1 <> [] /\ Forall (fun c => isSpace c = false) g1
    /\ g2 <> []
    /\ length g5 = 3%nat /\ Forall (fun c => isDigit c = true) g5.
Proof.
  intros H. apply exec_sound in H.
  destruct H as (pre & w & aft & -> & _ & _ & M & _).
  unfold CLF_RE in M.
  seq_inv M x0 M0. apply Matches_Bol_inv in M0. destruct M0 as (Hpre & -> & ->).
  seq_inv M g1 M1. apply Matches_Grp_inv in M1. destruct M1 as (c1 & -> & M1).
  apply Matches_Plus_class in M1. destruct M1 as (Hne1 & Hf1 & ->).
  lit_inv M.
  seq_inv M f2 Mf2. apply Matches_Plus_class in Mf2. destruct Mf2 as (_ & _ & ->).
  lit_inv M.
  seq_inv M f3 Mf3. apply Matches_Plus_class in Mf3. destruct Mf3 as (_ & _ & ->).
  lit_inv M. lit_inv M.
  seq_inv M g2 M2. apply Matches_Grp_inv in M2. destruct M2 as (c2 & -> & M2).
  apply Matches_Plus_class in M2. destruct M2 as (Hne2 & _ & ->).
  lit_inv M. lit_inv M. lit_inv M.
  seq_inv M g3 M3. apply Matches_Grp_inv in M3. destruct M3 as (c3 & -> & M3).
  apply Matches_Plus_class in M3. destruct M3 as (_ & _ & ->).
  lit_inv M.
  seq_inv M g4 M4. apply Matches_Grp_inv in M4. destruct M4 as (c4 & -> & M4).
  apply Matches_Star_class in M4. destruct M4 as (_ & ->).
  lit_inv M.
  seq_inv M f5 Mf5. apply Matches_Star_class in Mf5. destruct Mf5 as (_ & ->).
  lit_inv M. lit_inv M.
  seq_inv M g5 M5. apply Matches_Grp_inv in M5. destruct M5 as (c5 & -> & M5).
  apply Matches_Times_class in M5. destruct M5 as (Hl5 & Hf5 & ->).
  lit_inv M.
  seq_inv M f6 Mf6. apply Matches_bytes_field in Mf6. subst.
  lit_inv M. lit_inv M.
  seq_inv M f7 Mf7. apply Matches_Star_class in Mf7. destruct Mf7 as (_ & ->).
  lit_inv M. lit_inv M. lit_inv M.
  seq_inv M g6 M6. apply Matches_Grp_inv in M6. destruct M6 as (c6 & -> & M6).
  apply Matches_Star_class in M6. destruct M6 as (_ & ->).
  lit_inv M.
  cbn [Seqs] in M. apply Matches_Eps_inv in M. destruct M as [-> ->].
  assert (pre = []) as ->.
  { destruct pre as [|c pre]; [reflexivity|]. simpl in Hpre.
    destruct (rev pre); discriminate. }
  exists g1, g2, g3, g4, g5, g6. eexists. split; [reflexivity|].
  split; [|repeat split; eauto].
  - simpl. rewrite <- !app_assoc. simpl. reflexivity.
  - eapply Forall_impl; [|exact Hf1]. intros c Hc. now apply negb_true_iff in Hc.
Qed.


(* ================================================================== *)
(** * IPv4-looking tokens *)

Lemma isDigit_isWord c : isDigit c = true -> isWord c = true.
Proof. unfold isWord. intros ->. reflexivity. Qed.

Lemma Matches_octet bef w aft cs cs' :
  Matches (Rep 1 3 digit) bef w aft cs cs' -> octet w /\ cs' = cs.
Proof.
  unfold Rep, digit. cbn [Times UpTo Nat.sub Opt]. intros M.
  apply Matches_Seq_inv in M. destruct M as (w1 & w2 & cs1 & -> & M1 & M2).
  apply Matches_Seq_inv in M1. destruct M1 as (d1 & e1 & cs2 & -> & M1 & M1').
  apply Matches_Chr_inv in M1. destruct M1 as (c1 & -> & H1 & ->).
  apply Matches_Eps_inv in M1'. destruct M1' as [-> ->].
  apply Matches_Alt_inv in M2. destruct M2 as [M2|M2].
  - apply Matches_Seq_inv in M2. destruct M2 as (d2 & w3 & cs3 & -> & M2 & M3).
    apply Matches_Chr_inv in M2. destruct M2 as (c2 & -> & H2 & ->).
    apply Matches_Alt_inv in M3. destruct M3 as [M3|M3].
    + apply Matches_Seq_inv in M3. destruct M3 as (d3 & w4 & cs4 & -> & M3 & M4).
      apply Matches_Chr_inv in M3. destruct M3 as (c3 & -> & H3 & ->).
      apply Matches_Eps_inv in M4. destruct M4 as [-> ->].
      split; auto. split; simpl; [lia | repeat constructor; auto].
    + apply Matches_Eps_inv in M3. destruct M3 as [-> ->].
      split; auto. split; simpl; [lia | repeat constructor; auto].
  - apply Matches_Eps_inv in M2. destruct M2 as [-> ->].
    split; auto. split; simpl; [lia | repeat constructor; auto].
Qed.

Lemma octet_Matches bef w aft cs :
  octet w -> Matches (Rep 1 3 digit) bef w aft cs cs.
Proof.
  intros [Hl Hf]. unfold Rep, digit. cbn [Times UpTo Nat.sub Opt].
  destruct w as [|c1 w]; [simpl in Hl; lia|].
  inversion Hf as [|? ? H1 Hf1]; subst.
  change (c1 :: w) with (([c1] ++ []) ++ w).
  apply M_Seq with (cs1 := cs).
  - apply M_Seq with (cs1 := cs); [now constructor | constructor].
  - destruct w as [|c2 w]; [apply M_AltR; constructor|].
    inversion Hf1 as [|? ? H2 Hf2]; subst.
    apply M_AltL. change (c2 :: w) with ([c2] ++ w).
    apply M_Seq with (cs1 := cs); [now constructor|].
    destruct w as [|c3 w]; [apply M_AltR; constructor|].
    inversion Hf2 as [|? ? H3 Hf3]; subst.
    destruct w; [|simpl in Hl; lia].
    apply M_AltL. change [c3] with ([c3] ++ []).
    apply M_Seq with (cs1 := cs); [now constructor | constructor].
Qed.

Lemma octet_head o : octet o -> exists c t, o = c :: t /\ isDigit c = true.
Proof.
  intros [Hl Hf]. destruct o as [|c t]; [simpl in Hl; lia|].
  inversion Hf; subst. eauto.
Qed.

Lemma octet_last o : octet o -> exists c t, rev o = c :: t /\ isDigit c = true.
Proof.
  intros [Hl Hf]. apply Forall_rev in Hf.
  destruct (rev o) as [|c t] eqn:E.
  - apply (f_equal (@length char)) in E. rewrite length_rev in E. simpl in E. lia.
  - inversion Hf; subst. eauto.
Qed.

Lemma dotted_quad_head a : dotted_quad a -> isWordAt a = true.
Proof.
  intros (o1 & o2 & o3 & o4 & H1 & _ & _ & _ & ->).
  apply octet_head in H1. destruct H1 as (c & t & -> & Hc). simpl.
  now apply isDigit_isWord.
Qed.

Lemma dotted_quad_digit_first a : dotted_quad a -> exists c t, a = c :: t /\ isDigit c = true.
Proof.
  intros (o1 & o2 & o3 & o4 & H1 & _ & _ & _ & ->).
  apply octet_head in H1. destruct H1 as (c & t & -> & Hc). simpl. eauto.
Qed.

Lemma dotted_quad_last a : dotted_quad a -> isWordAt (rev a) = true.
Proof.
  intros (o1 & o2 & o3 & o4 & _ & _ & _ & H4 & ->).
  apply octet_last in H4. destruct H4 as (c & t & E & Hc).
  change (o1 ++ c_dot :: o2 ++ c_dot :: o3 ++ c_dot :: o4)
    with (o1 ++ (c_dot :: o2) ++ (c_dot :: o3) ++ (c_dot :: o4)).
  rewrite !rev_app_distr. simpl (rev (c_dot :: o4)). rewrite E. simpl.
  now apply isDigit_isWord.
Qed.

Lemma isWordAt_app_head a t : isWordAt a = true -> isWordAt (a ++ t) = true.
Proof. destruct a; simpl; auto. discriminate. Qed.

Ltac list_norm :=
  repeat first [ rewrite <- app_assoc | rewrite app_nil_r | rewrite rev_app_distr
               | progress cbn [app rev] ].

Lemma Matches_IP_RE bef w aft cs cs' :
  Matches IP_RE bef w aft cs cs' <->
  dotted_quad w /\ isWordAt bef = false /\ isWordAt aft = false /\ cs' = cs.
Proof.
  unfold IP_RE. cbn [Seqs Times]. split.
  - intros M.
    apply Matches_Seq_inv in M. destruct M as (x0 & r0 & cs0 & -> & M0 & M).
    apply Matches_Wb_inv in M0. destruct M0 as (-> & -> & Hb1).
    apply Matches_Seq_inv in M. destruct M as (o1 & r1 & cs1 & -> & M1 & M).
    apply Matches_octet in M1. destruct M1 as [Ho1 ->].
    apply Matches_Seq_inv in M. destruct M as (x2 & r2 & cs2 & -> & M2 & M).
    apply Matches_Seq_inv in M2. destruct M2 as (y1 & y2 & cs3 & -> & M2 & M3).
    apply Matches_Seq_inv in M2. destruct M2 as (d1 & o2 & cs4 & -> & Md1 & Mo2).
    apply Matches_Lit1_inv in Md1. destruct Md1 as [-> ->].
    apply Matches_octet in Mo2. destruct Mo2 as [Ho2 ->].
    apply Matches_Seq_inv in M3. destruct M3 as (y3 & y4 & cs5 & -> & M3 & M4).
    apply Matches_Seq_inv in M3. destruct M3 as (d2 & o3 & cs6 & -> & Md2 & Mo3).
    apply Matches_Lit1_inv in Md2. destruct Md2 as [-> ->].
    apply Matches_octet in Mo3. destruct Mo3 as [Ho3 ->].
    apply Matches_Seq_inv in M4. destruct M4 as (y5 & y6 & cs7 & -> & M4 & M5).
    apply Matches_Seq_inv in M4. destruct M4 as (d3 & o4 & cs8 & -> & Md3 & Mo4).
    apply Matches_Lit1_inv in Md3. destruct Md3 as [-> ->].
    apply Matches_octet in Mo4. destruct Mo4 as [Ho4 ->].
    apply Matches_Eps_inv in M5. destruct M5 as [-> ->].
    apply Matches_Seq_inv in M. destruct M as (x3 & r3 & cs9 & -> & M6 & M).
    apply Matches_Wb_inv in M6. destruct M6 as (-> & -> & Hb2).
    apply Matches_Eps_inv in M. destruct M as [-> ->].
    set (W := o1 ++ c_dot :: o2 ++ c_dot :: o3 ++ c_dot :: o4).
    assert (Hq : dotted_quad W) by (exists o1, o2, o3, o4; auto).
    match goal with |- dotted_quad ?u /\ _ =>
      replace u with W by (unfold W; list_norm; reflexivity) end.
    match type of Hb1 with xorb _ (isWordAt ?u) = true =>
      replace u with (W ++ aft) in Hb1 by (unfold W; list_norm; reflexivity) end.
    match type of Hb2 with xorb (isWordAt ?u) _ = true =>
      replace u with (rev W ++ bef) in Hb2 by (unfold W; list_norm; reflexivity) end.
    rewrite (@isWordAt_app_head W aft (dotted_quad_head Hq)) in Hb1.
    rewrite (@isWordAt_app_head (rev W) bef (dotted_quad_last Hq)) in Hb2.
    cbn [app] in Hb2.
    split; [exact Hq|]. split; [|split; [|reflexivity]].
    + destruct (isWordAt bef); [discriminate | reflexivity].
    + destruct (isWordAt aft); [discriminate | reflexivity].
  - intros (Hq & Hb & Ha & ->). pose proof Hq as Hq'.
    destruct Hq as (o1 & o2 & o3 & o4 & H1 & H2 & H3 & H4 & ->).
    set (W := o1 ++ c_dot :: o2 ++ c_dot :: o3 ++ c_dot :: o4) in *.
    replace W
      with ([] ++ o1 ++ (([c_dot] ++ o2) ++ ([c_dot] ++ o3) ++ ([c_dot] ++ o4) ++ []) ++ [] ++ [])
      by (unfold W; list_norm; reflexivity).
    apply M_Seq with (cs1 := cs).
    { constructor. rewrite Hb.
      match goal with |- xorb _ (isWordAt ?u) = true =>
        replace u with (W ++ aft) by (unfold W; list_norm; reflexivity) end.
      now rewrite (@isWordAt_app_head W aft (dotted_quad_head Hq')). }
    apply M_Seq with (cs1 := cs); [now apply octet_Matches|].
    apply M_Seq with (cs1 := cs).
    { apply M_Seq with (cs1 := cs).
      { apply M_Seq with (cs1 := cs); [constructor; apply N.eqb_refl | now apply octet_Matches]. }
      apply M_Seq with (cs1 := cs).
      { apply M_Seq with (cs1 := cs); [constructor; apply N.eqb_refl | now apply octet_Matches]. }
      apply M_Seq with (cs1 := cs).
      { apply M_Seq with (cs1 := cs); [constructor; apply N.eqb_refl | now apply octet_Matches]. }
      constructor. }
    apply M_Seq with (cs1 := cs); [|constructor].
    constructor. cbn [app]. rewrite Ha.
    match goal with |- xorb (isWordAt ?u) _ = true =>
      replace u with (rev W ++ bef) by (unfold W; list_norm; reflexivity) end.
    now rewrite (@isWordAt_app_head (rev W) bef (dotted_quad_last Hq')).
Qed.


Lemma first_ip_Some line a :
  first_ip line = Some a ->
  exists pre post, line = pre ++ a ++ post /\ ipv4_token_at pre a post /\
    (forall pre' a' post', line = pre' ++ a' ++ post' ->
       ipv4_token_at pre' a' post' -> (length pre <= length pre')%nat).
Proof.
  unfold first_ip. destruct (exec IP_RE line) as [m|] eqn:E; [|discriminate].
  intros [= <-]. apply exec_sound in E.
  destruct E as (pre & w & aft & -> & _ & -> & M & Hleft).
  apply Matches_IP_RE in M. destruct M as (Hq & Hb & Ha & _).
  exists pre, aft. split; auto. split; [split; auto|].
  intros pre' a' post' E' (Hq' & Hb' & Ha').
  apply (Hleft pre' a' post' [] []); auto.
  apply Matches_IP_RE. auto.
Qed.

Lemma first_ip_None line :
  first_ip line = None <->
  forall pre a post, line = pre ++ a ++ post -> ~ ipv4_token_at pre a post.
Proof.
  unfold first_ip. split.
  - destruct (exec IP_RE line) as [m|] eqn:E; [discriminate|]. intros _.
    intros pre a post -> (Hq & Hb & Ha).
    apply (@exec_complete IP_RE pre a post [] []); auto.
    apply Matches_IP_RE. auto.
  - intros H. destruct (exec IP_RE line) as [m|] eqn:E; auto.
    exfalso. apply exec_sound in E.
    destruct E as (pre & w & aft & -> & _ & _ & M & _).
    apply Matches_IP_RE in M. destruct M as (Hq & Hb & Ha & _).
    apply (H pre w aft eq_refl). split; auto.
Qed.

(* ================================================================== *)
(** * parseLine *)

Lemma parseInt10_three_digits g :
  length g = 3%nat -> Forall (fun c => isDigit c = true) g ->
  parseInt10 g = Some (digits_val 0 g).
Proof.
  intros Hl Hf. destruct g as [|c g]; [discriminate|].
  inversion Hf as [|? ? Hc _]; subst. unfold parseInt10. now rewrite Hc.
Qed.

Lemma parseLine_raw line : raw (parseLine line) = line.
Proof.
  unfold parseLine. destruct (exec CLF_RE line); [reflexivity|].
  destruct (test SSH_FAILED_RE line); reflexivity.
Qed.

(** A line in the combined format: every field comes from the match. *)
Lemma parseLine_clf line m :
  exec CLF_RE line = Some m ->
  exists g1 g2 g3 g4 g5 g6 rest,
    m_caps m = [(6%nat, g6); (5%nat, g5); (4%nat, g4); (3%nat, g3); (2%nat, g2); (1%nat, g1)]
    /\ line = g1 ++ c_space :: rest
    /\ g1 <> [] /\ Forall (fun c => isSpace c = false) g1
    /\ parseLine line =
       mkEntry line (Some g1) (Some (digits_val 0 g5))
               (truthy_num (parseApacheDate g2)) (Some g3) (Some g4) (Some g6) [].
Proof.
  intros H. pose proof H as Hs. apply clf_match_shape in Hs.
  destruct Hs as (g1 & g2 & g3 & g4 & g5 & g6 & rest & Hc & El & Hne & Hf & _ & Hl5 & Hf5).
  exists g1, g2, g3, g4, g5, g6, rest. repeat split; auto.
  unfold parseLine. rewrite H. unfold m_group. rewrite Hc. cbn [cap_get Nat.eqb tmpl obind].
  now rewrite parseInt10_three_digits.
Qed.

Lemma parseLine_other line :
  exec CLF_RE line = None -> ip (parseLine line) = first_ip line.
Proof.
  intros H. unfold parseLine. rewrite H.
  destruct (test SSH_FAILED_RE line); reflexivity.
Qed.


(* ================================================================== *)
(** * Names of Object.prototype in the counters *)

Lemma get_proto o k :
  proto_clean o -> In k object_prototype_keys -> get o k = NonNumeric.
Proof.
  intros H Hk. unfold get. destruct (assoc k o) as [v|] eqn:E.
  - eapply H; eauto.
  - apply mem_In in Hk. now rewrite Hk.
Qed.

Lemma proto_clean_bump o k : proto_clean o -> proto_clean (bump o k).
Proof.
  intros H k' v Hk' Ha. unfold bump, put in Ha.
  destruct (str_eqb k proto_name); [eapply H; eauto|].
  destruct (list_eq_dec N.eq_dec k' k) as [->|Hne].
  - rewrite assoc_own_set_same in Ha. injection Ha as <-.
    now rewrite get_proto.
  - rewrite assoc_own_set_other in Ha by auto. eapply H; eauto.
Qed.

Lemma proto_clean_bump_fold sel : forall es o,
  proto_clean o -> proto_clean (bump_fold sel es o).
Proof.
  induction es as [|e es IH]; intros o H; simpl; auto.
  apply IH. destruct (sel e); auto using proto_clean_bump.
Qed.

Lemma proto_clean_nil : proto_clean [].
Proof. intros k v _ H. discriminate. Qed.

(** What a counter holds after the loop, for any name. *)
Lemma counter_entries sel es k n :
  In (k, Number n) (Object_entries (bump_fold sel es [])) <->
  ~ In k object_prototype_keys /\ n = tally sel k es /\ 0 < n.
Proof.
  split.
  - intros Hin. assert (Hk : ~ In k object_prototype_keys).
    { intros Hk. pose proof Hin as Hin'. rewrite In_Object_entries in Hin'.
      destruct (@counts_bump_fold sel es [] (fun _ => 0)) as [Hnd _];
        [intros; lia | apply counts_empty |].
      apply In_assoc in Hin'; auto.
      apply (@proto_clean_bump_fold sel es [] proto_clean_nil) in Hin'; auto.
      discriminate. }
    split; auto. apply bump_fold_spec in Hin; auto.
    destruct Hin as [[= ->] H]. auto.
  - intros (Hk & -> & H). apply bump_fold_spec; auto.
Qed.

Lemma tally_le_length sel k es : tally sel k es <= Z.of_nat (length es).
Proof.
  unfold tally. apply inj_le. apply filter_length_le.
Qed.

Lemma proto_free_max_step M kc : proto_free M -> proto_free (max_step M kc).
Proof.
  intros H k Hk. unfold max_step.
  set (p := hd [] (split_char c_colon (fst kc))).
  destruct (in_dec (list_eq_dec N.eq_dec) p object_prototype_keys) as [Hp|Hp].
  - assert (get M p = NonNumeric) as ->.
    { unfold get. rewrite (H p Hp). apply mem_In in Hp. now rewrite Hp. }
    simpl. destruct (snd kc); simpl; auto.
  - destruct (falsy (get M p) || gt (snd kc) (get M p)); auto.
    unfold put. destruct (str_eqb p proto_name); auto.
    rewrite assoc_own_set_other; auto. intros ->. auto.
Qed.

Lemma proto_free_max_fold : forall L M, proto_free M -> proto_free (fold_left max_step L M).
Proof.
  induction L as [|kc L IH]; intros M H; simpl; auto using proto_free_max_step.
Qed.

(** ** What the time zone reaches *)

Section Zone.
Variables g g' : Z -> Z.

Lemma fold_uaSet_zone : forall es st st',
  uaSet st = uaSet st' ->
  uaSet (fold_left (step g) es st) = uaSet (fold_left (step g') es st').
Proof.
  induction es as [|e es IH]; intros st st' H; simpl; auto.
  apply IH. rewrite !step_uaSet, H. reflexivity.
Qed.

Lemma aggregate_zone es :
  acc_anomalies (aggregate g es) = acc_anomalies (aggregate g' es)
  /\ failedByIP (aggregate g es) = failedByIP (aggregate g' es)
  /\ errorsByIP (aggregate g es) = errorsByIP (aggregate g' es)
  /\ uaSet (aggregate g es) = uaSet (aggregate g' es)
  /\ perMinute (aggregate g es) = perMinute (aggregate g' es).
Proof.
  unfold aggregate.
  rewrite !fold_acc_anomalies, !fold_failedByIP, !fold_errorsByIP, !fold_perMinute.
  repeat split. now apply fold_uaSet_zone.
Qed.

End Zone.

Lemma In_off_hours_rule x kv :
  In x (off_hours_rule kv) <->
  exists n, snd kv = Number n /\ 100 <= n /\ x = off_hours_anomaly n (fst kv).
Proof.
  unfold off_hours_rule. destruct (snd kv) as [|n|]; simpl.
  - split; [tauto | intros (n & H & _); discriminate].
  - destruct (100 <=? n) eqn:E; simpl.
    + apply Z.leb_le in E. split.
      * intros [<-|[]]. now exists n.
      * intros (n' & [= <-] & _ & ->). now left.
    + apply Z.leb_gt in E. split; [tauto|]. intros (n' & [= <-] & H & _). lia.
  - split; [tauto | intros (n & H & _); discriminate].
Qed.

Lemma In_error_spike_rule x kv :
  In x (error_spike_rule kv) <->
  exists n, snd kv = Number n /\ 12 <= n /\ x = error_spike_anomaly n (fst kv).
Proof.
  unfold error_spike_rule. destruct (snd kv) as [|n|]; simpl.
  - split; [tauto | intros (n & H & _); discriminate].
  - destruct (12 <=? n) eqn:E; simpl.
    + apply Z.leb_le in E. split.
      * intros [<-|[]]. now exists n.
      * intros (n' & [= <-] & _ & ->). now left.
    + apply Z.leb_gt in E. split; [tauto|]. intros (n' & [= <-] & H & _). lia.
  - split; [tauto | intros (n & H & _); discriminate].
Qed.

Section Blocks.
Variable getHours : Z -> Z.

Lemma entries_analyzeLogs text :
  entries (analyzeLogs getHours text) = List.map parseLine (nonempty_lines text).
Proof.
  unfold analyzeLogs, nonempty_lines. cbn [entries]. rewrite split_newline.
  f_equal. apply filter_ext. intros l. apply truthy_str_nonempty.
Qed.

Lemma brute_force_block_zone es :
  brute_force_block (aggregate getHours es) = brute_force_block (aggregate utcHours es).
Proof.
  unfold brute_force_block.
  now destruct (aggregate_zone getHours utcHours es) as (_ & -> & _).
Qed.

Lemma error_spike_block_zone es :
  error_spike_block (aggregate getHours es) = error_spike_block (aggregate utcHours es).
Proof.
  unfold error_spike_block.
  now destruct (aggregate_zone getHours utcHours es) as (_ & _ & -> & _).
Qed.

Lemma suspicious_ua_block_zone es :
  suspicious_ua_block (aggregate getHours es) = suspicious_ua_block (aggregate utcHours es).
Proof.
  unfold suspicious_ua_block.
  now destruct (aggregate_zone getHours utcHours es) as (_ & _ & _ & -> & _).
Qed.

Lemma rate_spike_block_zone es :
  rate_spike_block (aggregate getHours es) = rate_spike_block (aggregate utcHours es).
Proof.
  unfold rate_spike_block, maxPerIP_of.
  now destruct (aggregate_zone getHours utcHours es) as (_ & _ & _ & _ & ->).
Qed.

Lemma In_off_hours_block es x :
  In x (off_hours_block (aggregate getHours es)) <->
  exists a n, x = off_hours_anomaly n a /\ ~ In a object_prototype_keys
              /\ n = night_count getHours a es /\ 100 <= n.
Proof.
  unfold off_hours_block, aggregate. rewrite fold_nightByIP. cbn [nightByIP agg0].
  rewrite in_flat_map. split.
  - intros ([k v] & Hin & Hx). apply In_off_hours_rule in Hx. simpl in Hx.
    destruct Hx as (n & -> & Hge & ->). apply counter_entries in Hin.
    destruct Hin as (Hk & -> & _). exists k. eexists. repeat split; auto.
  - intros (a & n & -> & Ha & -> & Hge).
    exists (a, Number (night_count getHours a es)). split.
    + apply counter_entries. repeat split; auto. lia.
    + apply In_off_hours_rule. simpl. eauto.
Qed.

Lemma In_brute_force_block es x :
  In x (brute_force_block (aggregate getHours es)) <->
  exists a n, x = brute_force_anomaly n a /\ ~ In a object_prototype_keys
              /\ n = failed_count a es /\ 6 <= n.
Proof.
  unfold brute_force_block, aggregate. rewrite fold_failedByIP. cbn [failedByIP agg0].
  rewrite in_flat_map. split.
  - intros ([k v] & Hin & Hx). apply In_brute_force_rule in Hx. simpl in Hx.
    destruct Hx as (n & -> & Hge & ->). apply counter_entries in Hin.
    destruct Hin as (Hk & -> & _). exists k. eexists. repeat split; auto.
  - intros (a & n & -> & Ha & -> & Hge).
    exists (a, Number (failed_count a es)). split.
    + apply counter_entries. repeat split; auto. lia.
    + apply In_brute_force_rule. simpl. eauto.
Qed.

Lemma In_error_spike_block es x :
  In x (error_spike_block (aggregate getHours es)) <->
  exists a n, x = error_spike_anomaly n a /\ ~ In a object_prototype_keys
              /\ n = error_count a es /\ 12 <= n.
Proof.
  unfold error_spike_block, aggregate. rewrite fold_errorsByIP. cbn [errorsByIP agg0].
  rewrite in_flat_map. split.
  - intros ([k v] & Hin & Hx). apply In_error_spike_rule in Hx. simpl in Hx.
    destruct Hx as (n & -> & Hge & ->). apply counter_entries in Hin.
    destruct Hin as (Hk & -> & _). exists k. eexists. repeat split; auto.
  - intros (a & n & -> & Ha & -> & Hge).
    exists (a, Number (error_count a es)). split.
    + apply counter_entries. repeat split; auto. lia.
    + apply In_error_spike_rule. simpl. eauto.
Qed.

Lemma In_rate_spike_block es x :
  In x (rate_spike_block (aggregate getHours es)) <->
  exists p n, x = rate_spike_anomaly p n /\ ~ In p object_prototype_keys
              /\ n = group_peak p es /\ 120 < n.
Proof.
  assert (Hc : counts (maxPerIP_of (aggregate getHours es)) (fun p => group_peak p es)).
  { unfold maxPerIP_of, aggregate. rewrite fold_perMinute. cbn [perMinute agg0].
    eapply counts_ext; [|apply counts_max_fold with (f := fun _ => 0)].
    - intros p. cbv beta. rewrite segment_max_is_group_peak.
      pose proof (zmax_list_nonneg (List.map (seg_value p)
        (Object_entries (bump_fold rate_key es [])))) as H.
      rewrite segment_max_is_group_peak in H. lia.
    - intros; lia.
    - apply perMinute_positive.
    - apply counts_empty. }
  assert (Hf : proto_free (maxPerIP_of (aggregate getHours es))).
  { unfold maxPerIP_of. apply proto_free_max_fold. intros k _. reflexivity. }
  destruct Hc as [Hnd Hc].
  unfold rate_spike_block. rewrite in_flat_map. split.
  - intros ([k v] & Hin & Hx). apply In_rate_spike_rule in Hx. simpl in Hx.
    destruct Hx as (n & -> & Hgt & ->).
    rewrite In_Object_entries in Hin. apply In_assoc in Hin; auto.
    assert (Hk : ~ In k object_prototype_keys).
    { intros Hk. rewrite (Hf k Hk) in Hin. discriminate. }
    rewrite (Hc k Hk) in Hin. destruct (group_peak k es =? 0); [discriminate|].
    injection Hin as <-. exists k. eexists. repeat split; auto.
  - intros (p & n & -> & Hp & -> & Hgt).
    exists (p, Number (group_peak p es)). split.
    + rewrite In_Object_entries. apply assoc_In. rewrite (Hc p Hp).
      destruct (group_peak p es =? 0) eqn:E; auto. apply Z.eqb_eq in E. lia.
    + apply In_rate_spike_rule. simpl. eauto.
Qed.

(** Fewer than a hundred entries cannot make an Off-hours anomaly. *)
Lemma off_hours_block_short es :
  (length es < 100)%nat -> off_hours_block (aggregate getHours es) = [].
Proof.
  intros Hlen. destruct (off_hours_block (aggregate getHours es)) as [|x l] eqn:E; auto.
  assert (Hin : In x (off_hours_block (aggregate getHours es))) by (rewrite E; now left).
  apply In_off_hours_block in Hin. destruct Hin as (a & n & _ & _ & -> & Hge).
  pose proof (tally_le_length (night_key getHours) a es). unfold night_count in Hge. lia.
Qed.

End Blocks.

(** The result on a text of fewer than a hundred lines does not depend on
    the time zone. *)
Lemma anomalies_short getHours text :
  (length (nonempty_lines text) < 100)%nat ->
  anomalies (analyzeLogs getHours text) = anomalies (analyzeLogs utcHours text).
Proof.
  intros Hlen.
  rewrite (anomalies_blocks getHours text), (anomalies_blocks utcHours text). cbv zeta.
  rewrite !entries_analyzeLogs.
  set (es := List.map parseLine (nonempty_lines text)).
  assert (Hes : (length es < 100)%nat) by (unfold es; now rewrite length_map).
  rewrite (brute_force_block_zone getHours), (error_spike_block_zone getHours),
    (suspicious_ua_block_zone getHours), (rate_spike_block_zone getHours).
  now rewrite (@off_hours_block_short getHours es Hes), (@off_hours_block_short utcHours es Hes).
Qed.


(* ================================================================== *)
(** * Texts made of given lines *)

Lemma spec_lines_from_line rest : forall piece t,
  ~ In c_lf rest ->
  spec_lines_from piece (rest ++ c_lf :: t)
  = rev (drop_cr (rev rest ++ piece)) :: spec_lines_from [] t.
Proof.
  induction rest as [|c rest IH]; intros piece t H.
  - reflexivity.
  - cbn [app spec_lines_from]. destruct (c =? c_lf)%N eqn:E.
    + apply N.eqb_eq in E. subst. exfalso. apply H. now left.
    + rewrite IH by (intros Hin; apply H; now right).
      cbn [rev]. now rewrite <- app_assoc.
Qed.

Lemma drop_cr_rev l : ~ In c_cr l -> drop_cr (rev l) = rev l.
Proof.
  intros H. destruct (rev l) as [|c p] eqn:E; [reflexivity|].
  cbn [drop_cr]. destruct (c =? c_cr)%N eqn:Ec; [|reflexivity].
  apply N.eqb_eq in Ec. subst. exfalso. apply H. apply in_rev. rewrite E. now left.
Qed.

Lemma spec_lines_joined_lf ls :
  Forall (fun l => ~ In c_lf l /\ ~ In c_cr l) ls ->
  spec_lines_from [] (joined [c_lf] ls) = ls ++ [[]].
Proof.
  induction 1 as [|l ls [Hlf Hcr] _ IH]; [reflexivity|].
  unfold joined in *. cbn [List.map concat]. rewrite <- app_assoc. cbn [app].
  rewrite spec_lines_from_line by assumption. rewrite app_nil_r.
  rewrite drop_cr_rev by assumption. rewrite rev_involutive. cbn [app]. now rewrite IH.
Qed.

Lemma spec_lines_joined_crlf ls :
  Forall (fun l => ~ In c_lf l /\ ~ In c_cr l) ls ->
  spec_lines_from [] (joined [c_cr; c_lf] ls) = ls ++ [[]].
Proof.
  induction 1 as [|l ls [Hlf Hcr] _ IH]; [reflexivity|].
  unfold joined in *. cbn [List.map concat]. rewrite <- app_assoc.
  change (l ++ [c_cr; c_lf] ++ concat (List.map (fun l0 => l0 ++ [c_cr; c_lf]) ls))
    with (l ++ [c_cr] ++ c_lf :: concat (List.map (fun l0 => l0 ++ [c_cr; c_lf]) ls)).
  rewrite app_assoc. rewrite spec_lines_from_line.
  - rewrite app_nil_r, rev_app_distr. cbn [rev app drop_cr].
    rewrite N.eqb_refl. rewrite rev_involutive. cbn [app]. now rewrite IH.
  - intros Hin. apply in_app_or in Hin. destruct Hin as [Hin|[Hin|[]]]; auto. discriminate.
Qed.

Lemma nonempty_lines_joined sep ls :
  sep = [c_lf] \/ sep = [c_cr; c_lf] ->
  Forall (fun l => ~ In c_lf l /\ ~ In c_cr l) ls ->
  nonempty_lines (joined sep ls) = filter truthy_str ls.
Proof.
  intros Hsep H. unfold nonempty_lines, spec_lines.
  assert (E : spec_lines_from [] (joined sep ls) = ls ++ [[]]).
  { destruct Hsep as [->| ->]; auto using spec_lines_joined_lf, spec_lines_joined_crlf. }
  rewrite E, filter_app. cbn. rewrite app_nil_r.
  apply filter_ext. intros l. now rewrite truthy_str_nonempty.
Qed.

Lemma analyzeLogs_lines getHours text :
  analyzeLogs getHours text =
  let es := List.map parseLine (nonempty_lines text) in
  mkAnalysis es (post_rules (aggregate getHours es)).
Proof.
  pose proof (entries_analyzeLogs getHours text) as H.
  unfold analyzeLogs in *. cbn [entries] in H. cbv zeta. now rewrite H.
Qed.

Lemma lines_of_joined n l : lines_of n l = joined [c_lf] (repeat l n).
Proof.
  unfold lines_of, joined. f_equal. induction n as [|n IH]; [reflexivity|].
  cbn [repeat List.map]. now rewrite IH.
Qed.

Lemma filter_truthy_repeat n l : l <> [] -> filter truthy_str (repeat l n) = repeat l n.
Proof.
  intros H. induction n as [|n IH]; [reflexivity|]. cbn [repeat filter].
  destruct l; [congruence|]. cbn [truthy_str]. now rewrite IH.
Qed.

Lemma nonempty_lines_of n l :
  l <> [] -> ~ In c_lf l -> ~ In c_cr l -> nonempty_lines (lines_of n l) = repeat l n.
Proof.
  intros Hne Hlf Hcr. rewrite lines_of_joined, nonempty_lines_joined; auto.
  - now apply filter_truthy_repeat.
  - apply Forall_forall. intros x Hx. apply repeat_spec in Hx. subst. auto.
Qed.

Lemma spec_lines_from_no_lf s : forall piece,
  ~ In c_lf s -> spec_lines_from piece s = [rev piece ++ s].
Proof.
  induction s as [|c s IH]; intros piece H; cbn [spec_lines_from].
  - now rewrite app_nil_r.
  - destruct (c =? c_lf)%N eqn:E.
    + apply N.eqb_eq in E. subst. exfalso. apply H. now left.
    + rewrite IH by (intros Hin; apply H; now right).
      cbn [rev]. now rewrite <- app_assoc.
Qed.

Lemma nonempty_lines_single l : l <> [] -> ~ In c_lf l -> nonempty_lines l = [l].
Proof.
  intros Hne Hlf. unfold nonempty_lines, spec_lines.
  rewrite spec_lines_from_no_lf by assumption. cbn [rev app filter].
  destruct (str_eqb l []) eqn:E; [apply str_eqb_eq in E; congruence | reflexivity].
Qed.

Lemma app_inj_length (A : Type) : forall (a a' b b' : list A),
  length a = length a' -> a ++ b = a' ++ b' -> a = a' /\ b = b'.
Proof.
  induction a as [|x a IH]; intros [|x' a'] b b' Hl E; try discriminate.
  - auto.
  - injection Hl as Hl. injection E as -> E. destruct (IH _ _ _ Hl E) as [-> ->]. auto.
Qed.



(* ================================================================== *)
(** * The properties of the specification *)

Lemma key_of_Some a : a <> [] -> key_of (Some a) = a.
Proof. destruct a; [congruence | reflexivity]. Qed.

Lemma In_error_statuses s :
  existsb (Z.eqb s) error_statuses = true <-> In s error_statuses.
Proof.
  rewrite existsb_exists. split.
  - intros (x & Hx & E). apply Z.eqb_eq in E. now subst.
  - intros H. exists s. split; auto. apply Z.eqb_refl.
Qed.

Lemma http_errors_of_spec e :
  (is_http_error e = false -> http_errors_of e = [])
  /\ (is_http_error e = true ->
      exists s, status e = Some s /\ In s error_statuses /\
        http_errors_of e =
        [mkAnomaly t_http_error
                   (lit "HTTP " ++ num_str s ++ lit " from " ++ key_of (ip e))
                   (Some (raw e))]).
Proof.
  unfold is_http_error, http_errors_of. destruct (status e) as [s|].
  - destruct (existsb (Z.eqb s) error_statuses) eqn:E.
    + split; [discriminate|]. intros _. exists s.
      split; [reflexivity|]. split; [now apply In_error_statuses | reflexivity].
    + split; [reflexivity | discriminate].
  - split; [reflexivity | discriminate].
Qed.

(** C1.  For every input text, [analyzeLogs] returns one entry per non-empty
    line, in order: the entries are the lines of the text (a line ends at a
    line feed, with or without a carriage return before it), the empty ones
    left out, each parsed by [parseLine]; so their number is the number of
    non-empty lines.  On the empty text both the entries and the anomalies
    are empty.  Every operation of the function is total, nothing in it can
    throw. *)
Theorem C1_one_entry_per_nonempty_line (getHours : Z -> Z) (text : str) :
  entries (analyzeLogs getHours text) = List.map parseLine (nonempty_lines text)
  /\ length (entries (analyzeLogs getHours text)) = length (nonempty_lines text)
  /\ analyzeLogs getHours [] = mkAnalysis [] [].
Proof.
  split; [apply entries_analyzeLogs|]. split.
  - rewrite entries_analyzeLogs. apply length_map.
  - reflexivity.
Qed.


Lemma In_http_errors_of e x :
  In x (http_errors_of e) <->
  exists s, status e = Some s /\ In s error_statuses /\
    x = mkAnomaly t_http_error
                  (lit "HTTP " ++ num_str s ++ lit " from " ++ key_of (ip e))
                  (Some (raw e)).
Proof.
  unfold http_errors_of. destruct (status e) as [s|].
  - destruct (existsb (Z.eqb s) error_statuses) eqn:E.
    + apply In_error_statuses in E. split.
      * intros [<-|[]]. exists s. auto.
      * intros (s' & [= <-] & _ & ->). now left.
    + split; [intros []|]. intros (s' & [= <-] & Hin & _).
      apply In_error_statuses in Hin. congruence.
  - split; [intros [] | intros (s' & H & _); discriminate].
Qed.

Lemma flat_map_parsed (f : LogEntry -> list Anomaly) ls :
  flat_map f (List.map parseLine ls) = flat_map (fun l => f (parseLine l)) ls.
Proof.
  induction ls as [|l ls IH]; [reflexivity|]. cbn [List.map flat_map]. now rewrite IH.
Qed.

Lemma length_http_errors_of_lines ls :
  length (flat_map http_errors_of (List.map parseLine ls))
  = length (filter (fun l => is_http_error (parseLine l)) ls).
Proof.
  induction ls as [|l ls IH]; [reflexivity|].
  cbn [List.map flat_map filter]. rewrite length_app, IH.
  unfold http_errors_of, is_http_error. destruct (status (parseLine l)) as [s|]; [|reflexivity].
  destruct (existsb (Z.eqb s) error_statuses); reflexivity.
Qed.

(** C3.  The HTTP Error anomalies that [analyzeLogs] returns for a text
    are, in the order of the text, those of its non-empty lines: a line
    whose entry has a status among 403, 404, 500, 502, 503 gives exactly
    one, which reads HTTP <status> from <address> (the address being the
    entry's own when it has one) and carries the line as its raw text; any
    other line gives none, so there are as many HTTP Error anomalies as
    lines with such a status.  A text that is one line of the combined
    format with status 404 gives exactly the anomaly HTTP 404 from <host>
    with that line. *)
Theorem C3_http_error_per_entry (getHours : Z -> Z) (text : str) :
  let r := analyzeLogs getHours text in
  filter (has_type t_http_error) (anomalies r)
  = flat_map (fun l => http_errors_of (parseLine l)) (nonempty_lines text)
  /\ (forall e, is_http_error e = false -> http_errors_of e = [])
  /\ (forall e, is_http_error e = true ->
        exists s, status e = Some s /\ In s error_statuses /\
          http_errors_of e =
          [mkAnomaly t_http_error
                     (lit "HTTP " ++ num_str s ++ lit " from " ++ key_of (ip e))
                     (Some (raw e))]
          /\ forall a, ip e = Some a -> a <> [] -> key_of (ip e) = a)
  /\ (forall l s, In l (nonempty_lines text) -> status (parseLine l) = Some s ->
        In s error_statuses ->
        In (mkAnomaly t_http_error
                      (lit "HTTP " ++ num_str s ++ lit " from " ++ key_of (ip (parseLine l)))
                      (Some l))
           (anomalies r))
  /\ length (filter (has_type t_http_error) (anomalies r))
     = length (filter (fun l => is_http_error (parseLine l)) (nonempty_lines text))
  /\ (forall line m, exec CLF_RE line = Some m -> m_group 5 m = Some (lit "404") ->
        ~ In c_lf line ->
        exists a rest, line = a ++ c_space :: rest /\ a <> [] /\
          filter (has_type t_http_error) (anomalies (analyzeLogs getHours line))
          = [mkAnomaly t_http_error (lit "HTTP 404 from " ++ a) (Some line)])
  /\ anomalies (analyzeLogs getHours not_found_line)
     = [mkAnomaly t_http_error (lit "HTTP 404 from 10.0.0.5") (Some not_found_line)].
Proof.
  intros r.
  assert (Hfilter : forall t,
            filter (has_type t_http_error) (anomalies (analyzeLogs getHours t))
            = flat_map (fun l => http_errors_of (parseLine l)) (nonempty_lines t)).
  { intros t. rewrite filter_http_error, entries_analyzeLogs. apply flat_map_parsed. }
  split; [apply Hfilter|].
  split; [intros e; apply http_errors_of_spec|]. split; [|split; [|split; [|split]]].
  - intros e He. destruct (http_errors_of_spec e) as [_ H].
    destruct (H He) as (s & Hs & Hin & Heq). exists s.
    split; [assumption|]. split; [assumption|]. split; [assumption|].
    intros a Ha Hne. rewrite Ha. now apply key_of_Some.
  - intros l s Hl Hs Hin.
    apply (@In_anomalies_of_type getHours text _ t_http_error); [reflexivity|].
    rewrite Hfilter. apply in_flat_map. exists l. split; [assumption|].
    apply In_http_errors_of. exists s. rewrite parseLine_raw. auto.
  - unfold r. rewrite filter_http_error, entries_analyzeLogs.
    apply length_http_errors_of_lines.
  - intros line m Hm H5 Hlf.
    destruct (@parseLine_clf line m Hm)
      as (g1 & g2 & g3 & g4 & g5 & g6 & rest & Hc & Hl & Hg1 & _ & Hp).
    unfold m_group in H5. rewrite Hc in H5. simpl in H5. injection H5 as ->.
    exists g1, rest. split; [assumption|]. split; [assumption|].
    rewrite Hfilter. rewrite nonempty_lines_single; [|rewrite Hl; now destruct g1|assumption].
    cbn [flat_map]. rewrite app_nil_r. rewrite Hp.
    unfold http_errors_of, http_error_anomaly. cbn [status ip raw].
    rewrite key_of_Some by auto. reflexivity.
  - rewrite anomalies_short by (vm_compute; lia). vm_compute. reflexivity.
Qed.

(** C4.  Six lines of the combined format from the host named constructor,
    each with the words failed login in its request, are six failed logins
    of that address, and yet the result holds no Brute Force anomaly:
    [failedByIP] is an object literal, so the first read of
    [failedByIP[ip]] finds the constructor inherited from Object.prototype
    and the counter becomes a string.  For an ordinary address the rule
    works as the specification says: the seven lines of its example give
    exactly the anomaly 7 failed logins from 10.0.0.5, six give one citing
    6, and five give none. *)
Theorem C4_brute_force_misses_prototype_names (getHours : Z -> Z) :
  (let r := analyzeLogs getHours (lines_of 6 constructor_line) in
   failed_count (lit "constructor") (entries r) = 6
   /\ Forall (fun e => ip e = Some (lit "constructor")) (entries r)
   /\ filter (has_type t_brute_force) (anomalies r) = [])
  /\ anomalies (analyzeLogs getHours (lines_of 7 ssh_line))
     = [brute_force_anomaly 7 (lit "10.0.0.5")]
  /\ anomalies (analyzeLogs getHours (lines_of 6 ssh_line))
     = [brute_force_anomaly 6 (lit "10.0.0.5")]
  /\ anomalies (analyzeLogs getHours (lines_of 5 ssh_line)) = [].
Proof.
  split; [|split; [|split]].
  - cbv zeta. rewrite filter_brute_force, brute_force_block_zone, entries_analyzeLogs.
    split; [|split].
    + vm_compute. reflexivity.
    + vm_compute. repeat constructor.
    + vm_compute. reflexivity.
  - rewrite anomalies_short by (vm_compute; lia). vm_compute. reflexivity.
  - rewrite anomalies_short by (vm_compute; lia). vm_compute. reflexivity.
  - rewrite anomalies_short by (vm_compute; lia). vm_compute. reflexivity.
Qed.

Lemma not_prototype_key (k : str) :
  mem k object_prototype_keys = false -> ~ In k object_prototype_keys.
Proof. intros H Hin. apply mem_In in Hin. congruence. Qed.

(** C5.  121 requests within one minute from the address ::1 are 121
    requests in one minute bucket of that address, and yet the one Rate
    Spike anomaly of the result cites the empty address: the address is
    taken back from the key address:bucket as [key.split(":")[0]], which
    cuts an address that holds a colon at its first colon.  For an address
    without a colon the rule works as the specification says: 121 requests
    in one minute bucket fire with peak 121, 120 do not fire, and 100
    requests in each of two minute buckets do not fire either, the peak
    being a maximum over the buckets and not a sum. *)
Theorem C5_rate_spike_cuts_the_address_at_a_colon (getHours : Z -> Z) :
  (let r := analyzeLogs getHours (lines_of 121 loopback_line) in
   Forall (fun e => ip e = Some (lit "::1")) (entries r)
   /\ peak (lit "::1") (entries r) = 121
   /\ filter (has_type t_rate_spike) (anomalies r) = [rate_spike_anomaly [] 121])
  /\ filter (has_type t_rate_spike)
            (anomalies (analyzeLogs getHours (lines_of 121 ordinary_line)))
     = [rate_spike_anomaly (lit "10.0.0.5") 121]
  /\ filter (has_type t_rate_spike)
            (anomalies (analyzeLogs getHours (lines_of 120 ordinary_line))) = []
  /\ (let r := analyzeLogs getHours (lines_of 100 ordinary_line ++ lines_of 100 later_line) in
      length (entries r) = 200%nat
      /\ peak (lit "10.0.0.5") (entries r) = 100
      /\ filter (has_type t_rate_spike) (anomalies r) = []).
Proof.
  split; [|split; [|split]]; cbv zeta;
    rewrite ?filter_rate_spike, ?rate_spike_block_zone, ?entries_analyzeLogs.
  - split; [|split].
    + vm_compute. repeat constructor.
    + vm_compute. reflexivity.
    + vm_compute. reflexivity.
  - vm_compute. reflexivity.
  - vm_compute. reflexivity.
  - split; [|split]; vm_compute; reflexivity.
Qed.

Lemma ua_of_curl_line : ua (parseLine curl_line) = Some (lit "curl/7.68.0").
Proof. vm_compute. reflexivity. Qed.

Lemma curl_line_plain : curl_line <> [] /\ ~ In c_lf curl_line /\ ~ In c_cr curl_line.
Proof.
  split; [discriminate|].
  split; intros H; vm_compute in H; intuition discriminate.
Qed.

(** C6.  For every text, the result of [analyzeLogs] holds exactly one
    Suspicious UA anomaly when the entry of some non-empty line of the text
    has a non-empty user agent that contains, whatever the case, one of
    curl, wget, postman, python-requests, go-http-client, sqlmap, and none
    otherwise; never more than one.  The count does not grow with the
    matching lines: a text of any number of copies of a request made with
    curl, one or more, gives exactly one such anomaly, and so does a text
    with two matching user agents from two addresses. *)
Theorem C6_one_suspicious_ua (getHours : Z -> Z) (text : str) :
  let r := analyzeLogs getHours text in
  let es := List.map parseLine (nonempty_lines text) in
  (suspicious_seen es <->
   filter (has_type t_suspicious_ua) (anomalies r) = [suspicious_ua_anomaly])
  /\ (~ suspicious_seen es <->
      filter (has_type t_suspicious_ua) (anomalies r) = [])
  /\ (length (filter (has_type t_suspicious_ua) (anomalies r)) <= 1)%nat
  /\ (forall n,
        filter (has_type t_suspicious_ua)
               (anomalies (analyzeLogs getHours (lines_of (S n) curl_line)))
        = [suspicious_ua_anomaly])
  /\ filter (has_type t_suspicious_ua)
            (anomalies (analyzeLogs getHours (lines_of 2 curl_line ++ lines_of 3 wget_line)))
     = [suspicious_ua_anomaly]
  /\ filter (has_type t_suspicious_ua)
            (anomalies (analyzeLogs getHours (lines_of 3 ordinary_line))) = [].
Proof.
  intros r es.
  assert (Hiff : forall t,
            (suspicious_seen (List.map parseLine (nonempty_lines t)) <->
             filter (has_type t_suspicious_ua) (anomalies (analyzeLogs getHours t))
             = [suspicious_ua_anomaly])
            /\ (~ suspicious_seen (List.map parseLine (nonempty_lines t)) <->
                filter (has_type t_suspicious_ua) (anomalies (analyzeLogs getHours t)) = [])
            /\ (length (filter (has_type t_suspicious_ua)
                           (anomalies (analyzeLogs getHours t))) <= 1)%nat).
  { intros t. rewrite filter_suspicious_ua. unfold suspicious_ua_block.
    rewrite entries_analyzeLogs. rewrite <- (suspicious_iff getHours).
    destruct (suspicious (uaSet (aggregate getHours
                (List.map parseLine (nonempty_lines t))))).
    - split; [|split]; [split; auto | split; [intros H; now elim H | discriminate]
                       | cbn; lia].
    - split; [|split]; [split; discriminate | split; auto; discriminate | cbn; lia]. }
  destruct (Hiff text) as (H1 & H2 & H3).
  split; [exact H1|]. split; [exact H2|]. split; [exact H3|].
  split; [|split].
  - intros n. apply (Hiff (lines_of (S n) curl_line)).
    destruct curl_line_plain as (Hne & Hlf & Hcr).
    rewrite nonempty_lines_of by assumption. cbn [repeat List.map].
    exists (lit "curl/7.68.0"), (lit "curl"). split; [|split].
    + split; [discriminate|]. exists (parseLine curl_line).
      split; [now left | exact ua_of_curl_line].
    + now left.
    + exists [], (List.map lower (lit "/7.68.0")). vm_compute. reflexivity.
  - rewrite filter_suspicious_ua, suspicious_ua_block_zone, entries_analyzeLogs.
    vm_compute. reflexivity.
  - rewrite filter_suspicious_ua, suspicious_ua_block_zone, entries_analyzeLogs.
    vm_compute. reflexivity.
Qed.

(** C7.  A line of the combined format stamped 01/Jan/1970:00:00:00 +0000
    is well formed, and [parseApacheDate] gives its instant, 0; the entry
    has no timestamp all the same, because [if (ts)] takes the number 0 for
    an absent one.  One second later the timestamp is kept.  In general the
    entry of a line of the combined format carries the instant
    [parseApacheDate] gives unless that is zero, and its other fields
    whether or not the date parses. *)
Theorem C7_epoch_timestamp_is_dropped :
  parseApacheDate epoch_date = Some 0
  /\ ts (parseLine epoch_line) = None
  /\ ts (parseLine (clf_line (lit "10.0.0.5") (lit "01/Jan/1970:00:00:01 +0000")
                             (lit "GET / HTTP/1.0") (lit "200") browser)) = Some 1000
  /\ ts (parseLine ordinary_line) = Some 971211336000
  /\ forall line m, exec CLF_RE line = Some m ->
       exists a d me p s u,
         parseLine line = mkEntry line (Some a) (Some s)
                                  (match parseApacheDate d with
                                   | Some t => if t =? 0 then None else Some t
                                   | None => None
                                   end)
                                  (Some me) (Some p) (Some u) []
         /\ m_group 2 m = Some d.
Proof.
  split; [vm_compute; reflexivity|].
  split; [vm_compute; reflexivity|].
  split; [vm_compute; reflexivity|].
  split; [vm_compute; reflexivity|].
  intros line m Hm.
  destruct (@parseLine_clf line m Hm) as (g1 & g2 & g3 & g4 & g5 & g6 & rest & Hc & _ & _ & _ & Hp).
  exists g1, g2, g3, g4, (digits_val 0 g5), g6. split.
  - exact Hp.
  - unfold m_group. rewrite Hc. reflexivity.
Qed.

(** C8, as the code has it.  For a line of the combined format the address
    is the first field of the line, up to its first space, whatever it
    holds.  For any other line the address is absent or the leftmost token
    of the line made of four groups of one to three digits joined by dots,
    with no letter, digit or underscore touching it; it is absent exactly
    when the line holds no such token. *)
Theorem C8_address_of_a_line (line : str) :
  match exec CLF_RE line with
  | Some _ =>
      exists a rest, line = a ++ c_space :: rest /\ a <> []
        /\ Forall (fun c => isSpace c = false) a /\ ip (parseLine line) = Some a
  | None =>
      match ip (parseLine line) with
      | Some a =>
          exists pre post, line = pre ++ a ++ post /\ ipv4_token_at pre a post
            /\ forall pre' a' post', line = pre' ++ a' ++ post' ->
                 ipv4_token_at pre' a' post' -> (length pre <= length pre')%nat
      | None => forall pre a post, line = pre ++ a ++ post -> ~ ipv4_token_at pre a post
      end
  end.
Proof.
  destruct (exec CLF_RE line) as [m|] eqn:E.
  - destruct (@parseLine_clf line m E) as (g1 & g2 & g3 & g4 & g5 & g6 & rest & _ & Hl & Hne & Hsp & Hp).
    exists g1, rest. rewrite Hp. auto.
  - rewrite (@parseLine_other line E). destruct (first_ip line) as [a|] eqn:F.
    + now apply first_ip_Some.
    + now apply first_ip_None.
Qed.

(** C8 as stated fails: the address of a line of the combined format sent
    by the host example.com is example.com, which is no dotted quad. *)
Lemma C8_counterexample :
  ip (parseLine named_host_line) = Some (lit "example.com")
  /\ ~ dotted_quad (lit "example.com").
Proof.
  split; [vm_compute; reflexivity|].
  intros H. apply dotted_quad_digit_first in H. destruct H as (c & t & [= <- _] & Hc).
  vm_compute in Hc. discriminate.
Qed.

(** C9, as the code has it.  The word unknown that stands for a missing
    address is what the messages cite.  Every non-empty line of the text
    whose entry has no address and a status among 403, 404, 500, 502, 503
    gives the anomaly HTTP <status> from unknown.  The failed logins filed
    under the key unknown, those of the entries without an address together
    with those of the entries whose address is the word unknown itself, are
    counted together, and from six on a Brute Force anomaly cites that count
    and unknown: three failed logins without an address and three from a
    host named unknown give 6 failed logins from unknown. *)
Theorem C9_unknown_is_cited (getHours : Z -> Z) (text : str) :
  let r := analyzeLogs getHours text in
  let es := List.map parseLine (nonempty_lines text) in
  (forall l s, In l (nonempty_lines text) -> ip (parseLine l) = None ->
     status (parseLine l) = Some s -> In s error_statuses ->
     In (mkAnomaly t_http_error (lit "HTTP " ++ num_str s ++ lit " from unknown") (Some l))
        (anomalies r))
  /\ (forall n, In (brute_force_anomaly n unknown) (anomalies r) <->
                n = failed_count unknown es /\ 6 <= n)
  /\ failed_count unknown es
     = Z.of_nat (length (filter
         (fun e => is_failed_login e
                   && match ip e with
                      | None => true
                      | Some a => str_eqb a [] || str_eqb a unknown
                      end) es))
  /\ (let r' := analyzeLogs getHours
                  (lines_of 3 failed_login_line ++ lines_of 3 unknown_host_line) in
      List.map ip (entries r')
      = [None; None; None; Some unknown; Some unknown; Some unknown]
      /\ filter (has_type t_brute_force) (anomalies r') = [brute_force_anomaly 6 unknown]).
Proof.
  intros r es. split; [|split; [|split]].
  - intros l s Hl Hip Hs Hin.
    apply (@In_anomalies_of_type getHours text _ t_http_error); [reflexivity|].
    rewrite filter_http_error, entries_analyzeLogs.
    apply in_flat_map. exists (parseLine l). split; [now apply in_map|].
    unfold http_errors_of. rewrite Hs.
    apply In_error_statuses in Hin. rewrite Hin.
    unfold http_error_anomaly. rewrite Hip, parseLine_raw. now left.
  - intros n. unfold es. rewrite <- (entries_analyzeLogs getHours text).
    apply brute_force_iff. apply not_prototype_key. vm_compute. reflexivity.
  - unfold failed_count, tally. f_equal. f_equal. apply filter_ext. intros e.
    unfold files_under, failed_key. destruct (is_failed_login e); [|reflexivity].
    cbn [andb]. unfold key_of. destruct (ip e) as [[|c a]|]; cbn [truthy_str].
    + reflexivity.
    + destruct (str_eqb (c :: a) []) eqn:E; [apply str_eqb_eq in E; discriminate|].
      reflexivity.
    + apply str_eqb_refl.
  - cbv zeta. rewrite filter_brute_force, brute_force_block_zone, entries_analyzeLogs.
    split; vm_compute; reflexivity.
Qed.

(** C9, at work: a line with status 404 and no address. *)
Lemma C9_unknown_is_cited_example :
  In (mkAnomaly t_http_error (lit "HTTP 404 from unknown") (Some addressless_line))
     (anomalies (analyzeLogs utcHours addressless_line)).
Proof.
  apply (proj1 (C9_unknown_is_cited utcHours addressless_line) addressless_line 404).
  - vm_compute. now left.
  - vm_compute. reflexivity.
  - vm_compute. reflexivity.
  - vm_compute. tauto.
Defined.

(** C9 as stated fails: the one entry of this text has no address, and the
    one anomaly of the result cites unknown as the address. *)
Lemma C9_counterexample :
  let r := analyzeLogs utcHours addressless_line in
  List.map ip (entries r) = [None]
  /\ anomalies r
     = [mkAnomaly t_http_error (lit "HTTP 404 from unknown") (Some addressless_line)].
Proof. vm_compute. split; reflexivity. Qed.

Lemma group_peak_positive p es :
  0 < group_peak p es ->
  exists e a b, In e es /\ rated e = Some (a, b) /\ before_colon a = p.
Proof.
  unfold group_peak. intros H.
  destruct (zmax_list_is_max (List.map
    (fun e => match rated e with
              | Some (a, b) => if str_eqb (before_colon a) p then bucket_count a b es else 0
              | None => 0
              end) es)) as (_ & [H0|Hin] & _); [lia|].
  apply in_map_iff in Hin. destruct Hin as (e & He & Hin).
  destruct (rated e) as [[a b]|] eqn:R; [|lia].
  destruct (str_eqb (before_colon a) p) eqn:E; [|lia].
  apply str_eqb_eq in E. exists e, a, b. auto.
Qed.




(* ================================================================== *)
(** * Further properties of the rules *)

Lemma brute_force_anomaly_inj n a n' a' :
  brute_force_anomaly n a = brute_force_anomaly n' a' -> n = n' /\ a = a'.
Proof.
  unfold brute_force_anomaly. intros H. injection H as H.
  exact (@count_message_inj (lit "failed logins from ") n a n' a' H).
Qed.

Lemma error_spike_anomaly_inj n a n' a' :
  error_spike_anomaly n a = error_spike_anomaly n' a' -> n = n' /\ a = a'.
Proof.
  unfold error_spike_anomaly. intros H. injection H as H.
  exact (@count_message_inj (lit "HTTP errors from ") n a n' a' H).
Qed.

Lemma off_hours_anomaly_inj n a n' a' :
  off_hours_anomaly n a = off_hours_anomaly n' a' -> n = n' /\ a = a'.
Proof.
  unfold off_hours_anomaly. intros H. injection H as H.
  exact (@count_message_inj
           (lit "requests between 00:00" ++ [en_dash] ++ lit "05:00 from ") n a n' a' H).
Qed.

Lemma rate_spike_anomaly_inj p n p' n' :
  rate_spike_anomaly p n = rate_spike_anomaly p' n' -> p = p' /\ n = n'.
Proof.
  unfold rate_spike_anomaly. intros H. injection H as H.
  exact (@peak_message_inj (lit " peaked at") (lit " req/min") p n p' n' H).
Qed.

(** X1.  A Brute Force anomaly citing the count [n] and the address [a] is in
    the result exactly when [a] is not the name of a property of
    Object.prototype, [n] is the number of entries filed under [a] that
    count as failed logins, and [n] is at least 6. *)
Theorem brute_force_exactly (getHours : Z -> Z) (text a : str) (n : Z) :
  let r := analyzeLogs getHours text in
  In (brute_force_anomaly n a) (anomalies r) <->
  ~ In a object_prototype_keys /\ n = failed_count a (entries r) /\ 6 <= n.
Proof.
  intros r. unfold r.
  rewrite (@In_anomalies_of_type getHours text _ t_brute_force) by reflexivity.
  rewrite filter_brute_force, In_brute_force_block. split.
  - intros (a' & n' & H & Ha & Hn & Hge). apply brute_force_anomaly_inj in H.
    destruct H as [-> ->]. auto.
  - intros (Ha & Hn & Hge). exists a, n. auto.
Qed.

(** X2.  An Error Spike anomaly citing [n] and [a] is in the result exactly
    when [a] is not the name of a property of Object.prototype, [n] is the
    number of entries filed under [a] whose status is one of 403, 404, 500,
    502, 503, and [n] is at least 12. *)
Theorem error_spike_exactly (getHours : Z -> Z) (text a : str) (n : Z) :
  let r := analyzeLogs getHours text in
  In (error_spike_anomaly n a) (anomalies r) <->
  ~ In a object_prototype_keys /\ n = error_count a (entries r) /\ 12 <= n.
Proof.
  intros r. unfold r.
  rewrite (@In_anomalies_of_type getHours text _ t_error_spike) by reflexivity.
  rewrite filter_error_spike, In_error_spike_block. split.
  - intros (a' & n' & H & Ha & Hn & Hge). apply error_spike_anomaly_inj in H.
    destruct H as [-> ->]. auto.
  - intros (Ha & Hn & Hge). exists a, n. auto.
Qed.

(** X3.  An Off-hours Activity anomaly citing [n] and [a] is in the result
    exactly when [a] is not the name of a property of Object.prototype, [n]
    is the number of entries of address [a] with a timestamp whose local
    hour is 0, 1, 2, 3 or 4, and [n] is at least 100. *)
Theorem off_hours_exactly (getHours : Z -> Z) (text a : str) (n : Z) :
  let r := analyzeLogs getHours text in
  In (off_hours_anomaly n a) (anomalies r) <->
  ~ In a object_prototype_keys /\ n = night_count getHours a (entries r) /\ 100 <= n.
Proof.
  intros r. unfold r.
  rewrite (@In_anomalies_of_type getHours text _ t_off_hours) by reflexivity.
  rewrite filter_off_hours, In_off_hours_block. split.
  - intros (a' & n' & H & Ha & Hn & Hge). apply off_hours_anomaly_inj in H.
    destruct H as [-> ->]. auto.
  - intros (Ha & Hn & Hge). exists a, n. auto.
Qed.

(** X4.  No Rate Spike anomaly ever cites an address prefix that is the name
    of a property of Object.prototype (constructor, toString, ...), however
    many requests came from it: [maxPerIP[ip]] then reads the inherited
    property, which is truthy and compares false with every count. *)
Theorem rate_spike_never_cites_prototype_name (getHours : Z -> Z) (text p : str) (n : Z) :
  In p object_prototype_keys ->
  ~ In (rate_spike_anomaly p n) (anomalies (analyzeLogs getHours text)).
Proof.
  intros Hp H.
  apply (@In_anomalies_of_type getHours text _ t_rate_spike) in H; [|reflexivity].
  rewrite filter_rate_spike in H. apply In_rate_spike_block in H.
  destruct H as (p' & n' & H & Hp' & _). apply rate_spike_anomaly_inj in H.
  destruct H as [-> _]. auto.
Qed.

(** X4, at work: 121 requests in one minute from the host named constructor. *)
Lemma rate_spike_never_cites_prototype_name_example :
  ~ In (rate_spike_anomaly (lit "constructor") 121)
       (anomalies (analyzeLogs utcHours (lines_of 121 constructor_line)))
  /\ group_peak (lit "constructor")
       (entries (analyzeLogs utcHours (lines_of 121 constructor_line))) = 121.
Proof.
  split.
  - apply (@rate_spike_never_cites_prototype_name utcHours
             (lines_of 121 constructor_line) (lit "constructor") 121).
    vm_compute. tauto.
  - vm_compute. reflexivity.
Defined.

(** X5.  The time zone of the machine, through [getHours], reaches the
    Off-hours Activity anomalies only: the entries and all the other
    anomalies, in their order, are the same under any two zones. *)
Theorem time_zone_reaches_off_hours_only (g g' : Z -> Z) (text : str) :
  entries (analyzeLogs g text) = entries (analyzeLogs g' text)
  /\ filter (fun x => negb (has_type t_off_hours x)) (anomalies (analyzeLogs g text))
     = filter (fun x => negb (has_type t_off_hours x)) (anomalies (analyzeLogs g' text)).
Proof.
  split; [now rewrite !entries_analyzeLogs|].
  rewrite (anomalies_blocks g text), (anomalies_blocks g' text). cbv zeta.
  rewrite !entries_analyzeLogs.
  set (es := List.map parseLine (nonempty_lines text)).
  rewrite (brute_force_block_zone g), (error_spike_block_zone g),
    (suspicious_ua_block_zone g), (rate_spike_block_zone g).
  rewrite (brute_force_block_zone g'), (error_spike_block_zone g'),
    (suspicious_ua_block_zone g'), (rate_spike_block_zone g').
  rewrite !filter_app.
  assert (Hoff : forall h, filter (fun x => negb (has_type t_off_hours x))
                             (off_hours_block (aggregate h es)) = []).
  { intros h. pose proof (all_of_type_flat_map off_hours_rule
      (Object_entries (nightByIP (aggregate h es))) off_hours_rule_type) as Hall.
    fold (off_hours_block (aggregate h es)) in Hall.
    induction Hall as [|x l Hx _ IH]; simpl; auto.
    unfold has_type at 1. rewrite Hx. unfold t_off_hours at 2. rewrite str_eqb_refl. simpl. exact IH. }
  rewrite !Hoff. reflexivity.
Qed.


(** ** The lines of a text *)

(** X10.  For lines that hold neither a carriage return nor a line feed, the
    result is the same whether every line ends in CR LF or in LF, and the
    entries are the non-empty lines parsed in order: blank lines leave no
    entry. *)
Theorem line_endings_are_interchangeable (getHours : Z -> Z) (ls : list str) :
  Forall (fun l => ~ In c_lf l /\ ~ In c_cr l) ls ->
  analyzeLogs getHours (joined [c_cr; c_lf] ls) = analyzeLogs getHours (joined [c_lf] ls)
  /\ entries (analyzeLogs getHours (joined [c_lf] ls))
     = List.map parseLine (filter truthy_str ls).
Proof.
  intros H. split.
  - rewrite !analyzeLogs_lines. rewrite !nonempty_lines_joined; auto.
  - rewrite entries_analyzeLogs, nonempty_lines_joined; auto.
Qed.

(** X10, at work: three lines, the second one blank. *)
Lemma line_endings_are_interchangeable_example :
  analyzeLogs utcHours (joined [c_cr; c_lf] [ssh_line; []; not_found_line])
  = analyzeLogs utcHours (joined [c_lf] [ssh_line; []; not_found_line])
  /\ entries (analyzeLogs utcHours (joined [c_lf] [ssh_line; []; not_found_line]))
     = List.map parseLine (filter truthy_str [ssh_line; []; not_found_line]).
Proof.
  apply (@line_endings_are_interchangeable utcHours [ssh_line; []; not_found_line]).
  repeat constructor; vm_compute; intuition discriminate.
Defined.

Lemma nonempty_lines_app_lf s1 s2 : forall piece,
  filter (fun l => negb (str_eqb l [])) (spec_lines_from piece (s1 ++ c_lf :: s2))
  = filter (fun l => negb (str_eqb l [])) (spec_lines_from piece (s1 ++ [c_lf]))
    ++ filter (fun l => negb (str_eqb l [])) (spec_lines_from [] s2).
Proof.
  induction s1 as [|c s1 IH]; intros piece.
  - cbn [app spec_lines_from]. rewrite N.eqb_refl. cbn [filter].
    destruct (negb (str_eqb (rev (drop_cr piece)) [])); cbn; now rewrite ?app_nil_r.
  - cbn [app spec_lines_from]. destruct (c =? c_lf)%N.
    + cbn [filter]. rewrite IH.
      destruct (negb (str_eqb (rev (drop_cr piece)) [])); reflexivity.
    + apply IH.
Qed.

(** X11.  The entries of two texts joined by a line feed are the entries of
    the first text (closed by that line feed) followed by the entries of the
    second. *)
Theorem entries_of_concatenated_logs (getHours : Z -> Z) (s1 s2 : str) :
  entries (analyzeLogs getHours (s1 ++ c_lf :: s2))
  = entries (analyzeLogs getHours (s1 ++ [c_lf])) ++ entries (analyzeLogs getHours s2).
Proof.
  rewrite !entries_analyzeLogs, <- map_app. f_equal.
  unfold nonempty_lines, spec_lines. apply nonempty_lines_app_lf.
Qed.

(** ** The anomaly list as a whole *)

Lemma http_errors_of_line e x : In x (http_errors_of e) -> line x = Some (raw e).
Proof.
  unfold http_errors_of. destruct (status e) as [s|]; [|intros []].
  destruct (existsb (Z.eqb s) error_statuses); [|intros []].
  intros [<-|[]]. reflexivity.
Qed.

Lemma all_of_type_In t l x : all_of_type t l -> In x l -> type x = t.
Proof. intros H Hin. unfold all_of_type in H. rewrite Forall_forall in H. auto. Qed.

Lemma rule_line (rule : str * jsval -> list Anomaly) o x :
  (forall kv y, In y (rule kv) -> line y = None) ->
  In x (flat_map rule o) -> line x = None.
Proof. intros H Hin. apply in_flat_map in Hin. destruct Hin as (kv & _ & Hy). eauto. Qed.

Lemma brute_force_rule_line kv y : In y (brute_force_rule kv) -> line y = None.
Proof.
  unfold brute_force_rule. destruct (snd kv) as [|n|]; try (intros []).
  destruct (6 <=? n); [intros [<-|[]]; reflexivity | intros []].
Qed.

Lemma error_spike_rule_line kv y : In y (error_spike_rule kv) -> line y = None.
Proof.
  unfold error_spike_rule. destruct (snd kv) as [|n|]; try (intros []).
  destruct (12 <=? n); [intros [<-|[]]; reflexivity | intros []].
Qed.

Lemma rate_spike_rule_line kv y : In y (rate_spike_rule kv) -> line y = None.
Proof.
  unfold rate_spike_rule. destruct (snd kv) as [|n|]; try (intros []).
  destruct (120 <? n); [intros [<-|[]]; reflexivity | intros []].
Qed.

Lemma off_hours_rule_line kv y : In y (off_hours_rule kv) -> line y = None.
Proof.
  unfold off_hours_rule. destruct (snd kv) as [|n|]; try (intros []).
  destruct (100 <=? n); [intros [<-|[]]; reflexivity | intros []].
Qed.

(** X7.  Every anomaly of the result has one of the six types; an HTTP Error
    anomaly carries the raw text of an entry as its line, and an anomaly of
    any other type carries no line. *)
Theorem anomalies_are_of_six_types (getHours : Z -> Z) (text : str) :
  let r := analyzeLogs getHours text in
  Forall (fun x =>
            In (type x) anomaly_types
            /\ (type x = t_http_error ->
                exists e, In e (entries r) /\ line x = Some (raw e))
            /\ (type x <> t_http_error -> line x = None))
         (anomalies r).
Proof.
  intros r. apply Forall_forall. intros x Hx. unfold r in Hx.
  rewrite anomalies_blocks in Hx. cbv zeta in Hx. fold r in Hx.
  set (st := aggregate getHours (entries r)) in *.
  repeat (apply in_app_or in Hx; destruct Hx as [Hx|Hx]).
  - pose proof (@all_of_type_In _ _ x (all_of_type_flat_map http_errors_of (entries r)
                                 http_errors_of_type) Hx) as Ht.
    apply in_flat_map in Hx. destruct Hx as (e & He & Hx).
    apply http_errors_of_line in Hx.
    split; [rewrite Ht; simpl; tauto|]. split; [eauto | congruence].
  - pose proof (@all_of_type_In _ _ x (all_of_type_flat_map brute_force_rule _
                                 brute_force_rule_type) Hx) as Ht.
    apply (@rule_line _ _ x brute_force_rule_line) in Hx.
    split; [rewrite Ht; simpl; tauto|]. split; [rewrite Ht; discriminate | auto].
  - pose proof (@all_of_type_In _ _ x (all_of_type_flat_map error_spike_rule _
                                 error_spike_rule_type) Hx) as Ht.
    apply (@rule_line _ _ x error_spike_rule_line) in Hx.
    split; [rewrite Ht; simpl; tauto|]. split; [rewrite Ht; discriminate | auto].
  - pose proof (@all_of_type_In _ _ x (suspicious_ua_block_type st) Hx) as Ht.
    unfold suspicious_ua_block in Hx.
    destruct (suspicious (uaSet st)); [|destruct Hx]. destruct Hx as [<-|[]].
    split; [simpl; tauto|]. split; [discriminate | reflexivity].
  - pose proof (@all_of_type_In _ _ x (all_of_type_flat_map rate_spike_rule _
                                 rate_spike_rule_type) Hx) as Ht.
    apply (@rule_line _ _ x rate_spike_rule_line) in Hx.
    split; [rewrite Ht; simpl; tauto|]. split; [rewrite Ht; discriminate | auto].
  - pose proof (@all_of_type_In _ _ x (all_of_type_flat_map off_hours_rule _
                                 off_hours_rule_type) Hx) as Ht.
    apply (@rule_line _ _ x off_hours_rule_line) in Hx.
    split; [rewrite Ht; simpl; tauto|]. split; [rewrite Ht; discriminate | auto].
Qed.

Lemma length_http_errors es :
  length (flat_map http_errors_of es) = length (filter is_http_error es).
Proof.
  induction es as [|e es IH]; [reflexivity|].
  cbn [flat_map filter]. rewrite length_app, IH.
  unfold http_errors_of, is_http_error. destruct (status e) as [s|]; [|reflexivity].
  destruct (existsb (Z.eqb s) error_statuses); reflexivity.
Qed.

Lemma error_count_le a es : error_count a es <= Z.of_nat (length (filter is_http_error es)).
Proof.
  unfold error_count, tally. apply inj_le.
  induction es as [|e es IH]; [reflexivity|]. cbn [filter].
  assert (Hf : files_under error_key a e = true -> is_http_error e = true).
  { unfold files_under, error_key. destruct (is_http_error e); [reflexivity | discriminate]. }
  destruct (files_under error_key a e).
  - rewrite Hf by reflexivity. cbn [length]. lia.
  - destruct (is_http_error e); cbn [length]; lia.
Qed.

(** X8.  When an Error Spike anomaly citing [n] is in the result, [n] is at
    least 12 and the result holds at least [n] HTTP Error anomalies; their
    number is the number of entries with a status among 403, 404, 500, 502,
    503. *)
Theorem error_spike_counts_http_errors (getHours : Z -> Z) (text a : str) (n : Z) :
  let r := analyzeLogs getHours text in
  In (error_spike_anomaly n a) (anomalies r) ->
  12 <= n <= Z.of_nat (length (filter (has_type t_http_error) (anomalies r)))
  /\ length (filter (has_type t_http_error) (anomalies r))
     = length (filter is_http_error (entries r)).
Proof.
  intros r H. unfold r in *.
  rewrite filter_http_error, length_http_errors.
  apply (@In_anomalies_of_type getHours text _ t_error_spike) in H; [|reflexivity].
  rewrite filter_error_spike in H. apply In_error_spike_block in H.
  destruct H as (a' & n' & H & _ & -> & Hge). apply error_spike_anomaly_inj in H.
  destruct H as [-> _].
  pose proof (error_count_le a' (entries (analyzeLogs getHours text))). lia.
Qed.

(** X8, at work: twelve requests answered 404. *)
Lemma error_spike_counts_http_errors_example :
  let r := analyzeLogs utcHours (lines_of 12 not_found_line) in
  12 <= 12 <= Z.of_nat (length (filter (has_type t_http_error) (anomalies r)))
  /\ length (filter (has_type t_http_error) (anomalies r))
     = length (filter is_http_error (entries r)).
Proof.
  apply (@error_spike_counts_http_errors utcHours (lines_of 12 not_found_line)
           (lit "10.0.0.5") 12).
  vm_compute. do 12 right. left. reflexivity.
Defined.

Lemma parseLine_not_clf line :
  exec CLF_RE line = None ->
  ts (parseLine line) = None /\ method (parseLine line) = None
  /\ path (parseLine line) = None.
Proof.
  intros H. unfold parseLine. rewrite H.
  destruct (test SSH_FAILED_RE line); auto.
Qed.

Lemma rated_needs_ts e : ts e = None -> rated e = None.
Proof. unfold rated. now intros ->. Qed.

Lemma night_key_needs_ts getHours e : ts e = None -> night_key getHours e = None.
Proof. unfold night_key. now intros ->. Qed.

Lemma night_tally_zero getHours a es :
  Forall (fun e => ts e = None) es -> tally (night_key getHours) a es = 0.
Proof.
  unfold tally. induction 1 as [|e es He _ IH]; [reflexivity|]. cbn [filter].
  unfold files_under at 1. rewrite (night_key_needs_ts getHours e He). exact IH.
Qed.

(** X9.  A text none of whose non-empty lines is in the combined format
    (an SSH log, say) gives entries without timestamps, and neither a Rate
    Spike nor an Off-hours Activity anomaly. *)
Theorem no_timestamps_no_rate_rules (getHours : Z -> Z) (text : str) :
  (forall l, In l (nonempty_lines text) -> exec CLF_RE l = None) ->
  let r := analyzeLogs getHours text in
  Forall (fun e => ts e = None) (entries r)
  /\ filter (has_type t_rate_spike) (anomalies r) = []
  /\ filter (has_type t_off_hours) (anomalies r) = [].
Proof.
  intros H r.
  assert (Hts : Forall (fun e => ts e = None) (entries r)).
  { unfold r. rewrite entries_analyzeLogs. apply Forall_forall. intros e He.
    apply in_map_iff in He. destruct He as (l & <- & Hl).
    now apply parseLine_not_clf, H. }
  split; [exact Hts|]. rewrite Forall_forall in Hts. unfold r. split.
  - rewrite filter_rate_spike. fold r.
    destruct (rate_spike_block (aggregate getHours (entries r))) as [|x l] eqn:E; auto.
    assert (Hin : In x (rate_spike_block (aggregate getHours (entries r))))
      by (rewrite E; now left).
    apply In_rate_spike_block in Hin. destruct Hin as (p & n & _ & _ & -> & Hgt).
    destruct (@group_peak_positive p (entries r)) as (e & a & b & He & Hr & _); [lia|].
    rewrite (rated_needs_ts e (Hts e He)) in Hr. discriminate.
  - rewrite filter_off_hours. fold r.
    destruct (off_hours_block (aggregate getHours (entries r))) as [|x l] eqn:E; auto.
    assert (Hin : In x (off_hours_block (aggregate getHours (entries r))))
      by (rewrite E; now left).
    apply In_off_hours_block in Hin. destruct Hin as (a & n & _ & _ & -> & Hge).
    exfalso. unfold night_count in Hge.
    rewrite night_tally_zero in Hge; [lia|]. now apply Forall_forall.
Qed.

(** X9, at work: seven lines of an SSH log. *)
Lemma no_timestamps_no_rate_rules_example :
  let r := analyzeLogs utcHours (lines_of 7 ssh_line) in
  Forall (fun e => ts e = None) (entries r)
  /\ filter (has_type t_rate_spike) (anomalies r) = []
  /\ filter (has_type t_off_hours) (anomalies r) = [].
Proof.
  apply (@no_timestamps_no_rate_rules utcHours (lines_of 7 ssh_line)).
  intros l Hl. vm_compute in Hl.
  repeat (destruct Hl as [<-|Hl]; [vm_compute; reflexivity|]). destruct Hl.
Defined.


(* ================================================================== *)
(** * Further properties of parseLine *)

Lemma three_digits_value d : three_digits d -> 0 <= digits_val 0 d <= 999.
Proof.
  intros [Hl Hf]. destruct d as [|a [|b [|c [|]]]]; try discriminate.
  inversion Hf as [|? ? Ha Hf1]; subst. inversion Hf1 as [|? ? Hb Hf2]; subst.
  inversion Hf2 as [|? ? Hc _]; subst.
  cbn [digits_val]. rewrite Ha, Hb, Hc. unfold digit_val.
  unfold isDigit, in_range in *.
  apply andb_true_iff in Ha, Hb, Hc.
  destruct Ha as [Ha1 Ha2], Hb as [Hb1 Hb2], Hc as [Hc1 Hc2].
  apply N.leb_le in Ha1, Ha2, Hb1, Hb2, Hc1, Hc2. lia.
Qed.

Lemma parseInt10_digits d : three_digits d -> parseInt10 d = Some (digits_val 0 d).
Proof. intros [Hl Hf]. now apply parseInt10_three_digits. Qed.

Lemma Matches_Seq_intro a b bef w w1 w2 aft cs cs1 cs2 :
  w = w1 ++ w2 ->
  Matches a bef w1 (w2 ++ aft) cs cs1 ->
  Matches b (rev w1 ++ bef) w2 aft cs1 cs2 ->
  Matches (Seq a b) bef w aft cs cs2.
Proof. intros -> H1 H2. econstructor; eauto. Qed.

Lemma Matches_Chr_seq p r c bef w aft cs cs' :
  p c = true -> Matches r (c :: bef) w aft cs cs' ->
  Matches (Seq (Chr p) r) bef (c :: w) aft cs cs'.
Proof.
  intros Hc M. apply (@Matches_Seq_intro (Chr p) r bef (c :: w) [c] w aft cs cs cs');
    [reflexivity | now constructor | exact M].
Qed.

Lemma Matches_Times_intro p : forall n w bef aft cs,
  length w = n -> Forall (fun c => p c = true) w ->
  Matches (Times n (Chr p)) bef w aft cs cs.
Proof.
  induction n as [|n IH]; intros w bef aft cs Hl Hf.
  - destruct w; [constructor | discriminate].
  - destruct w as [|c w]; [discriminate|]. inversion Hf; subst. cbn [Times].
    apply Matches_Chr_seq; auto.
Qed.

Lemma Matches_Star_intro g p : forall w bef aft cs,
  Forall (fun c => p c = true) w -> Matches (Star g (Chr p)) bef w aft cs cs.
Proof.
  induction w as [|c w IH]; intros bef aft cs Hf.
  - constructor.
  - inversion Hf; subst.
    apply (@M_StarS g (Chr p) bef [c] w aft cs cs cs); [discriminate | now constructor |].
    now apply IH.
Qed.

Lemma Matches_Grp_intro i a bef w aft cs cs1 :
  Matches a bef w aft cs cs1 -> Matches (Grp i a) bef w aft cs ((i, w) :: cs1).
Proof. apply M_Grp. Qed.

Lemma status_match_shape line sm :
  exec STATUS_RE line = Some sm ->
  exists pre d, status_at line pre d /\ m_caps sm = [(1%nat, d)]
    /\ forall pre' d', status_at line pre' d' -> (length pre <= length pre')%nat.
Proof.
  intros H. apply exec_sound in H.
  destruct H as (pre & w & aft & -> & _ & _ & M & Hleft).
  unfold STATUS_RE in M.
  seq_inv M x1 M1. apply Matches_Chr_inv in M1. destruct M1 as (a & -> & Ha & ->).
  seq_inv M d Md. apply Matches_Grp_inv in Md. destruct Md as (c1 & -> & Md).
  apply Matches_Times_class in Md. destruct Md as (Hl & Hf & ->).
  seq_inv M x2 M2. apply Matches_Chr_inv in M2. destruct M2 as (b & -> & Hb & ->).
  cbn [Seqs] in M. apply Matches_Eps_inv in M. destruct M as [-> ->].
  exists pre, d. split; [|split; [reflexivity|]].
  - exists a, b, aft. split; [|repeat split; auto].
    cbn [app]. rewrite <- !app_assoc. reflexivity.
  - intros pre' d' (a' & b' & post' & E & Ha' & Hb' & Hl' & Hf').
    apply (Hleft pre' (a' :: d' ++ [b']) post' [] [(1%nat, d')]).
    + rewrite E. cbn [app]. rewrite <- !app_assoc. reflexivity.
    + unfold STATUS_RE. cbn [Seqs]. apply Matches_Chr_seq; auto.
      apply (@Matches_Seq_intro _ _ _ _ d' [b'] post' [] [(1%nat, d')] [(1%nat, d')]);
        [reflexivity | |].
      * apply Matches_Grp_intro. now apply Matches_Times_intro.
      * apply Matches_Chr_seq; auto. constructor.
Qed.

Lemma status_none line :
  exec STATUS_RE line = None -> forall pre d, ~ status_at line pre d.
Proof.
  intros H pre d (a & b & post & E & Ha & Hb & Hl & Hf).
  apply (@exec_complete STATUS_RE pre (a :: d ++ [b]) post [] [(1%nat, d)]).
  - unfold STATUS_RE. cbn [Seqs]. apply Matches_Chr_seq; auto.
    apply (@Matches_Seq_intro _ _ _ _ d [b] post [] [(1%nat, d)] [(1%nat, d)]);
      [reflexivity | |].
    + apply Matches_Grp_intro. now apply Matches_Times_intro.
    + apply Matches_Chr_seq; auto. constructor.
  - rewrite <- H. f_equal. rewrite E. cbn [app]. rewrite <- !app_assoc. reflexivity.
Qed.

Lemma parseLine_fallback line :
  exec CLF_RE line = None -> test SSH_FAILED_RE line = false ->
  parseLine line =
  mkEntry line (first_ip line)
          (match exec STATUS_RE line with
           | Some sm => obind (m_group 1 sm) parseInt10
           | None => None
           end)
          None None None (option_map m_all (exec UA_RE line)) [].
Proof. intros H1 H2. unfold parseLine. now rewrite H1, H2. Qed.

(** X19.  For a line that is neither in the combined format nor an SSH
    failure, the status is the number of the leftmost group of three digits
    that stands between two white-space characters, and it is absent
    exactly when the line has no such group. *)
Theorem fallback_status_is_first_spaced_triple (line : str) :
  exec CLF_RE line = None -> test SSH_FAILED_RE line = false ->
  match status (parseLine line) with
  | Some s =>
      exists pre d, status_at line pre d /\ s = digits_val 0 d
        /\ forall pre' d', status_at line pre' d' -> (length pre <= length pre')%nat
  | None => forall pre d, ~ status_at line pre d
  end.
Proof.
  intros H1 H2. rewrite (@parseLine_fallback line H1 H2). cbn [status].
  destruct (exec STATUS_RE line) as [sm|] eqn:E.
  - destruct (@status_match_shape line sm E) as (pre & d & Hat & Hc & Hleft).
    unfold m_group. rewrite Hc. cbn [cap_get Nat.eqb obind].
    assert (Hd : three_digits d) by (destruct Hat as (a & b & post & _ & _ & _ & Hd); exact Hd).
    rewrite (@parseInt10_digits d Hd). exists pre, d. auto.
  - now apply status_none.
Qed.

(** X19, at work. *)
Lemma fallback_status_is_first_spaced_triple_example :
  match status (parseLine addressless_line) with
  | Some s =>
      exists pre d, status_at addressless_line pre d /\ s = digits_val 0 d
        /\ forall pre' d', status_at addressless_line pre' d' ->
             (length pre <= length pre')%nat
  | None => forall pre d, ~ status_at addressless_line pre d
  end.
Proof.
  apply (@fallback_status_is_first_spaced_triple addressless_line);
    vm_compute; reflexivity.
Defined.

(** X20.  The status of an entry, when it has one, is a number from 0 to
    999: [parseInt] is only applied to three digits and never gives NaN. *)
Theorem status_is_a_three_digit_number (line : str) (s : Z) :
  status (parseLine line) = Some s -> 0 <= s <= 999.
Proof.
  destruct (exec CLF_RE line) as [m|] eqn:E.
  - destruct (@clf_match_shape line m E)
      as (g1 & g2 & g3 & g4 & g5 & g6 & rest & Hc & _ & _ & _ & _ & Hl & Hf).
    destruct (@parseLine_clf line m E)
      as (h1 & h2 & h3 & h4 & h5 & h6 & rest' & Hc' & _ & _ & _ & Hp).
    rewrite Hc in Hc'. injection Hc' as <- <- <- <- <- <-.
    rewrite Hp. cbn [status]. intros [= <-]. apply three_digits_value. now split.
  - unfold parseLine. rewrite E. destruct (test SSH_FAILED_RE line); [discriminate|].
    cbn [status]. destruct (exec STATUS_RE line) as [sm|] eqn:Es; [|discriminate].
    destruct (@status_match_shape line sm Es) as (pre & d & Hat & Hc & _).
    unfold m_group. rewrite Hc. cbn [cap_get Nat.eqb obind].
    assert (Hd : three_digits d) by (destruct Hat as (a & b & post & _ & _ & _ & Hd); exact Hd).
    rewrite (@parseInt10_digits d Hd). intros [= <-]. now apply three_digits_value.
Qed.

(** X20, at work. *)
Lemma status_is_a_three_digit_number_example :
  status (parseLine not_found_line) = Some 404 /\ 0 <= 404 <= 999.
Proof.
  assert (H : status (parseLine not_found_line) = Some 404) by (vm_compute; reflexivity).
  split; [exact H|].
  exact (@status_is_a_three_digit_number not_found_line 404 H).
Defined.

(** ** Failed logins *)

Lemma test_contains_ci tok s :
  test (LitCI tok) s = true <-> contains_ci tok s.
Proof.
  rewrite test_true_iff, contains_map_lower. split.
  - intros (pre & w & aft & cs & cs' & -> & M). apply Matches_LitCI in M.
    destruct M as [E _]. exists pre, w, aft. auto.
  - intros (pre & w & post & -> & E). exists pre, w, post, [], []. split; auto.
    now apply LitCI_Matches.
Qed.

Lemma test_ssh_failed line :
  test SSH_FAILED_RE line = true <->
  exists ph, In ph ssh_phrases /\ contains_ci ph line.
Proof.
  rewrite test_true_iff. unfold SSH_FAILED_RE.
  change (Alts [LitCI (lit "Failed password"); LitCI (lit "authentication failure");
                LitCI (lit "Invalid user"); LitCI (lit "Login incorrect")])
    with (Alts (List.map LitCI ssh_phrases)).
  split.
  - intros (pre & w & aft & cs & cs' & -> & M).
    apply Matches_Grp_inv in M. destruct M as (cs1 & _ & M).
    apply Matches_Alts in M. destruct M as (r & Hin & M).
    apply in_map_iff in Hin. destruct Hin as (ph & <- & Hin).
    apply Matches_LitCI in M. destruct M as [E _].
    exists ph. split; auto. apply contains_map_lower. exists pre, w, aft. auto.
  - intros (ph & Hin & Hc). apply contains_map_lower in Hc.
    destruct Hc as (pre & w & post & -> & E).
    exists pre, w, post, [], [(1%nat, w)]. split; auto.
    apply Matches_Grp_intro. apply Matches_Alts. exists (LitCI ph).
    split; [now apply in_map | now apply LitCI_Matches].
Qed.

Lemma ssh_failure_lines_are_tagged_aux (line : str) :
  exec CLF_RE line = None ->
  ((exists ph, In ph ssh_phrases /\ contains_ci ph line) ->
   parseLine line =
   mkEntry line (first_ip line) None None None None None [lit "failed_login"])
  /\ (~ (exists ph, In ph ssh_phrases /\ contains_ci ph line) ->
      tags (parseLine line) = []).
Proof.
  intros H. unfold parseLine. rewrite H. split.
  - intros Hp. apply test_ssh_failed in Hp. now rewrite Hp.
  - intros Hp. destruct (test SSH_FAILED_RE line) eqn:E; [|reflexivity].
    apply test_ssh_failed in E. contradiction.
Qed.

(** X17.  A line that is not in the combined format and holds, in any case,
    one of Failed password, authentication failure, Invalid user, Login
    incorrect gives an entry tagged failed_login whose address is the first
    IPv4-looking token of the line and that has no status, timestamp,
    method, path or user agent; without such a phrase the entry has no
    tag. *)
Theorem ssh_failure_lines_are_tagged (line : str) :
  exec CLF_RE line = None ->
  ((exists ph, In ph ssh_phrases /\ contains_ci ph line) ->
   parseLine line =
   mkEntry line (first_ip line) None None None None None [lit "failed_login"])
  /\ (~ (exists ph, In ph ssh_phrases /\ contains_ci ph line) ->
      tags (parseLine line) = []).
Proof. apply ssh_failure_lines_are_tagged_aux. Qed.

(** X17, at work: the line of an SSH log. *)
Lemma ssh_failure_lines_are_tagged_example :
  parseLine ssh_line =
  mkEntry ssh_line (Some (lit "10.0.0.5")) None None None None None [lit "failed_login"].
Proof.
  refine (proj1 (@ssh_failure_lines_are_tagged ssh_line _) _).
  - vm_compute. reflexivity.
  - exists (lit "Failed password"). split; [now left|].
    exists (List.map lower (lit "Jan  1 00:00:00 host sshd[1]: ")),
           (List.map lower (lit " for root from 10.0.0.5 port 22 ssh2")).
    vm_compute. reflexivity.
Defined.

Lemma tags_of_combined line m : exec CLF_RE line = Some m -> tags (parseLine line) = [].
Proof. intros H. unfold parseLine. now rewrite H. Qed.

(** X18.  A line counts as a failed login in [analyzeLogs] exactly when it
    holds the words failed login, in any case, or it is not in the combined
    format and holds one of the four SSH phrases: a line of the combined
    format with the words Failed password does not count. *)
Theorem what_counts_as_a_failed_login (line : str) :
  is_failed_login (parseLine line) = true <->
  (exec CLF_RE line = None /\ exists ph, In ph ssh_phrases /\ contains_ci ph line)
  \/ contains_ci (lit "failed login") line.
Proof.
  unfold is_failed_login. rewrite parseLine_raw, orb_true_iff.
  unfold FAILED_LOGIN_RE. rewrite test_contains_ci.
  assert (Htag : mem (lit "failed_login") (tags (parseLine line)) = true <->
                 exec CLF_RE line = None /\ exists ph, In ph ssh_phrases /\ contains_ci ph line).
  { destruct (exec CLF_RE line) as [m|] eqn:E.
    - rewrite (@tags_of_combined line m E). cbn. split; [discriminate | intros [? _]; discriminate].
    - destruct (@ssh_failure_lines_are_tagged_aux line E) as [H1 H2]. split.
      + intros Hm. split; auto.
        destruct (test SSH_FAILED_RE line) eqn:Et; [now apply test_ssh_failed|].
        rewrite H2 in Hm; [discriminate|]. intros Hp. apply test_ssh_failed in Hp. congruence.
      + intros [_ Hp]. rewrite (H1 Hp). cbn [tags]. vm_compute. reflexivity. }
  rewrite Htag. tauto.
Qed.


(** ** The user agent of the generic fallback *)

Lemma ci_eqb_dquote x : ci_eqb c_dquote x = true <-> x = c_dquote.
Proof.
  unfold ci_eqb, upper, isLowerAZ, in_range, c_dquote. rewrite N.eqb_eq.
  cbn [N.leb N.compare Pos.compare Pos.compare_cont andb].
  destruct (N.leb_spec 97 x); destruct (N.leb_spec x 122); cbn [andb]; lia.
Qed.

Lemma Matches_UA_RE bef u aft cs cs' :
  Matches UA_RE bef u aft cs cs' ->
  exists name w rest,
    u = c_dquote :: w ++ rest ++ [c_dquote]
    /\ In name agent_names /\ List.map lower w = List.map lower name
    /\ Forall (fun c => isDotChar c = true) rest.
Proof.
  intros M. unfold UA_RE in M.
  seq_inv M x1 M1. apply Matches_Chr_inv in M1. destruct M1 as (q & -> & Hq & ->).
  apply ci_eqb_dquote in Hq. subst q.
  seq_inv M w Mw. apply Matches_Grp_inv in Mw. destruct Mw as (c1 & -> & Mw).
  change (Alts [LitCI (lit "Mozilla"); LitCI (lit "curl"); LitCI (lit "Wget");
                LitCI (lit "Postman"); LitCI (lit "python-requests");
                LitCI (lit "Go-http-client"); LitCI (lit "sqlmap")])
    with (Alts (List.map LitCI agent_names)) in Mw.
  apply Matches_Alts in Mw. destruct Mw as (r & Hin & Mw).
  apply in_map_iff in Hin. destruct Hin as (name & <- & Hin).
  apply Matches_LitCI in Mw. destruct Mw as [E ->].
  seq_inv M rest Mr. apply Matches_Star_class in Mr. destruct Mr as [Hr ->].
  seq_inv M x2 M2. apply Matches_Chr_inv in M2. destruct M2 as (q & -> & Hq & ->).
  apply ci_eqb_dquote in Hq. subst q.
  cbn [Seqs] in M. apply Matches_Eps_inv in M. destruct M as [-> ->].
  exists name, w, rest. split; [|auto].
  cbn [app]. rewrite ?app_nil_r. reflexivity.
Qed.

Lemma UA_RE_Matches bef name w rest aft :
  In name agent_names -> List.map lower w = List.map lower name ->
  Forall (fun c => isDotChar c = true) rest ->
  Matches UA_RE bef (c_dquote :: w ++ rest ++ [c_dquote]) aft [] [(1%nat, w)].
Proof.
  intros Hin E Hr. unfold UA_RE. cbn [Seqs].
  apply Matches_Chr_seq; [now apply ci_eqb_dquote|].
  apply (@Matches_Seq_intro _ _ _ _ w (rest ++ [c_dquote]) aft [] [(1%nat, w)] [(1%nat, w)]);
    [reflexivity | |].
  - apply Matches_Grp_intro.
    change (Alts [LitCI (lit "Mozilla"); LitCI (lit "curl"); LitCI (lit "Wget");
                  LitCI (lit "Postman"); LitCI (lit "python-requests");
                  LitCI (lit "Go-http-client"); LitCI (lit "sqlmap")])
      with (Alts (List.map LitCI agent_names)).
    apply Matches_Alts. exists (LitCI name).
    split; [now apply in_map | now apply LitCI_Matches].
  - apply (@Matches_Seq_intro _ _ _ _ rest [c_dquote] aft _ [(1%nat, w)] [(1%nat, w)]);
      [reflexivity | now apply Matches_Star_intro |].
    apply Matches_Chr_seq; [now apply ci_eqb_dquote | constructor].
Qed.

(** The lazy quantifier stops at the first double quote. *)
Lemma quote_here st res :
  run (Seq (LitCI1 c_dquote) Eps) st Some = Some res ->
  exists aft, ahead st = c_dquote :: aft /\ ahead res = aft.
Proof.
  cbn [run LitCI1]. destruct (ahead st) as [|c t]; [discriminate|].
  destruct (ci_eqb c_dquote c) eqn:E; [|discriminate].
  apply ci_eqb_dquote in E. subst c. intros [= <-]. exists t. auto.
Qed.

Lemma quote_not_here st c t :
  run (Seq (LitCI1 c_dquote) Eps) st Some = None -> ahead st = c :: t -> c <> c_dquote.
Proof.
  cbn [run LitCI1]. intros H E. rewrite E in H. intros ->.
  assert (Hq : ci_eqb c_dquote c_dquote = true) by now apply ci_eqb_dquote.
  rewrite Hq in H. discriminate.
Qed.

Lemma lazy_until_quote : forall fuel st res,
  star_loop (run (Chr isDotChar)) false
            (fun st' => run (Seq (LitCI1 c_dquote) Eps) st' Some) fuel st = Some res ->
  exists rest aft,
    ahead st = rest ++ c_dquote :: aft /\ ~ In c_dquote rest
    /\ Forall (fun c => isDotChar c = true) rest /\ ahead res = aft.
Proof.
  induction fuel as [|fuel IH]; intros st res H; cbn [star_loop] in H.
  - apply quote_here in H. destruct H as (aft & E & Hr).
    exists [], aft. repeat split; auto.
  - destruct (run (Seq (LitCI1 c_dquote) Eps) st Some) as [res'|] eqn:K.
    + injection H as ->. apply quote_here in K. destruct K as (aft & E & Hr).
      exists [], aft. repeat split; auto.
    + change (run (Chr isDotChar) st ?k) with
        (match ahead st with
         | c :: t => if isDotChar c then k (MState (c :: before st) t (caps st)) else None
         | [] => None
         end) in H.
      destruct (ahead st) as [|c t] eqn:E; [discriminate|].
      pose proof (@quote_not_here st c t K E) as Hc.
      destruct (isDotChar c) eqn:Hd; [|discriminate].
      destruct (advanced st (MState (c :: before st) t (caps st))); [|discriminate].
      apply IH in H. cbn [ahead] in H. destruct H as (rest & aft & -> & Hn & Hf & Hr).
      exists (c :: rest), aft. repeat split; auto.
      intros [Hin|Hin]; [congruence | auto].
Qed.

Lemma exec_from_first r : forall s bef m,
  exec_from r bef s = Some m ->
  exists pre rest st,
    s = pre ++ rest /\ match_here r (rev pre ++ bef) rest = Some st
    /\ m_index m = (length bef + length pre)%nat
    /\ m_all m = firstn (length rest - length (ahead st)) rest.
Proof.
  induction s as [|c s IH]; intros bef m H; rewrite exec_from_eq in H.
  - destruct (match_here r bef []) as [st|] eqn:E; [|discriminate].
    injection H as <-. exists [], [], st. cbn. rewrite Nat.add_0_r. auto.
  - destruct (match_here r bef (c :: s)) as [st|] eqn:E.
    + injection H as <-. exists [], (c :: s), st. cbn [app rev length m_index m_all].
      rewrite Nat.add_0_r. auto.
    + apply IH in H. destruct H as (pre & rest & st & -> & Hm & Hi & Ha).
      exists (c :: pre), rest, st. cbn [app rev length]. rewrite <- app_assoc.
      cbn [app]. repeat split; auto. rewrite Hi. cbn [length]. lia.
Qed.

Lemma run_Seq a b st k : run (Seq a b) st k = run a st (fun st' => run b st' k).
Proof. reflexivity. Qed.

Lemma agent_name_unquoted name w :
  In name agent_names -> List.map lower w = List.map lower name -> ~ In c_dquote w.
Proof.
  intros Hin E Hq. apply (in_map lower) in Hq. rewrite E in Hq.
  change (lower c_dquote) with c_dquote in Hq.
  unfold agent_names in Hin.
  repeat (destruct Hin as [<-|Hin]; [vm_compute in Hq; intuition discriminate|]).
  destruct Hin.
Qed.

(** What a match of the user-agent pattern found by the matcher looks
    like. *)
Lemma match_here_UA_RE bef s st :
  match_here UA_RE bef s = Some st ->
  exists name w rest,
    s = (c_dquote :: w ++ rest ++ [c_dquote]) ++ ahead st
    /\ In name agent_names /\ List.map lower w = List.map lower name
    /\ Forall (fun c => isDotChar c = true) rest /\ ~ In c_dquote rest.
Proof.
  unfold match_here, UA_RE. cbn [Seqs]. intros H.
  rewrite run_Seq in H. apply run_sound in H.
  destruct H as (w1 & aft1 & cs1 & E1 & M1 & H). cbn [ahead before caps] in *.
  apply Matches_Chr_inv in M1. destruct M1 as (q & -> & Hq & ->).
  apply ci_eqb_dquote in Hq. subst q.
  rewrite run_Seq in H. apply run_sound in H.
  destruct H as (w & aft2 & cs2 & E2 & M2 & H). cbn [ahead before caps] in *.
  apply Matches_Grp_inv in M2. destruct M2 as (c1 & -> & M2).
  change (Alts [LitCI (lit "Mozilla"); LitCI (lit "curl"); LitCI (lit "Wget");
                LitCI (lit "Postman"); LitCI (lit "python-requests");
                LitCI (lit "Go-http-client"); LitCI (lit "sqlmap")])
    with (Alts (List.map LitCI agent_names)) in M2.
  apply Matches_Alts in M2. destruct M2 as (r & Hin & M2).
  apply in_map_iff in Hin. destruct Hin as (name & <- & Hin).
  apply Matches_LitCI in M2. destruct M2 as [Ew _].
  rewrite run_Seq in H. cbn [run] in H.
  apply lazy_until_quote in H. cbn [ahead] in H.
  destruct H as (rest & aft & E3 & Hn & Hf & Hr).
  exists name, w, rest. subst. cbn [app]. rewrite <- !app_assoc. cbn [app].
  repeat split; auto.
Qed.

Lemma quoted_body_unique (b b' t t' : str) :
  ~ In c_dquote b -> ~ In c_dquote b' ->
  (c_dquote :: b ++ [c_dquote]) ++ t = (c_dquote :: b' ++ [c_dquote]) ++ t' -> b = b'.
Proof.
  intros Hb Hb' E. cbn [app] in E. injection E as E.
  rewrite <- !app_assoc in E. cbn [app] in E.
  now apply cut_at_first in E.
Qed.

(** X21.  For a line that is neither in the combined format nor an SSH
    failure, the user agent is the leftmost quoted text of the line that
    starts with one of the seven client names in any case, from its opening
    double quote up to the first double quote after the name, and it keeps
    both double quotes (the user agent of a line of the combined format does
    not); this text is the only one of that kind at its place.  The user
    agent is absent exactly when the line has no such text. *)
Theorem fallback_user_agent_keeps_its_quotes (line : str) :
  exec CLF_RE line = None -> test SSH_FAILED_RE line = false ->
  match ua (parseLine line) with
  | Some u =>
      exists pre, quoted_agent_at line pre u
        /\ (forall pre' u', quoted_agent_at line pre' u' ->
               (length pre <= length pre')%nat)
        /\ (forall pre' u', quoted_agent_at line pre' u' ->
               length pre' = length pre -> pre' = pre /\ u' = u)
  | None => forall pre u, ~ quoted_agent_at line pre u
  end.
Proof.
  intros H1 H2. rewrite (@parseLine_fallback line H1 H2). cbn [ua].
  destruct (exec UA_RE line) as [m|] eqn:E; cbn [option_map].
  - pose proof E as E0. unfold exec in E0. apply exec_from_first in E0.
    destruct E0 as (pre & s & st & Hl & Hm & Hi & Ha).
    rewrite app_nil_r in Hm.
    destruct (@match_here_UA_RE (rev pre) s st Hm)
      as (name & w & rest & Hs & Hin & Hw & Hf & Hn).
    assert (Hu : m_all m = c_dquote :: w ++ rest ++ [c_dquote]).
    { rewrite Ha, Hs. apply firstn_len_app. }
    apply exec_sound in E.
    destruct E as (pre2 & u2 & aft2 & Hl2 & Hi2 & Hu2 & _ & Hleft).
    assert (pre2 = pre).
    { cbn in Hi. rewrite Hi in Hi2. rewrite Hl in Hl2.
      apply app_inj_length in Hl2; [now destruct Hl2 | auto]. }
    subst pre2. exists pre.
    assert (Hat : quoted_agent_at line pre (m_all m)).
    { exists name, w, rest, (ahead st). rewrite Hl, Hu, Hs. auto 7. }
    split; [exact Hat|]. split.
    + intros pre' u' (name' & w' & rest' & post' & E' & Hu' & Hin' & Hw' & Hr' & _).
      apply (Hleft pre' u' post' [] [(1%nat, w')]); [exact E'|].
      rewrite Hu'. now apply UA_RE_Matches with (name := name').
    + intros pre' u' (name' & w' & rest' & post' & E' & Hu' & Hin' & Hw' & Hr' & Hn') Hlen.
      rewrite Hl in E'. apply app_inj_length in E'; [|auto]. destruct E' as [<- E'].
      split; [reflexivity|]. rewrite Hu, Hu'. rewrite Hs, Hu' in E'.
      rewrite !(app_assoc w), !(app_assoc w') in *.
      f_equal. f_equal. symmetry.
      apply (@quoted_body_unique (w ++ rest) (w' ++ rest') (ahead st) post'); auto.
      * intros Hq. apply in_app_or in Hq. destruct Hq as [Hq|Hq]; auto.
        now apply (@agent_name_unquoted name w Hin Hw).
      * intros Hq. apply in_app_or in Hq. destruct Hq as [Hq|Hq]; auto.
        now apply (@agent_name_unquoted name' w' Hin' Hw').
  - intros pre u (name & w & rest & post & E' & Hu & Hin & Hw & Hr & _).
    apply (@exec_complete UA_RE pre u post [] [(1%nat, w)]).
    + rewrite Hu. now apply UA_RE_Matches with (name := name).
    + now rewrite <- E'.
Qed.


(** ** Lines of the combined format *)

Lemma Forall_negb_false (p : char -> bool) l :
  Forall (fun c => negb (p c) = true) l -> Forall (fun c => p c = false) l.
Proof. apply Forall_impl. intros c H. now apply negb_true_iff. Qed.

Lemma Forall_not_char (x : char) l :
  Forall (fun c => negb (c =? x)%N = true) l -> ~ In x l.
Proof.
  intros H Hin. rewrite Forall_forall in H. specialize (H x Hin).
  now rewrite N.eqb_refl in H.
Qed.

Lemma not_char_Forall (x : char) l :
  ~ In x l -> Forall (fun c => negb (c =? x)%N = true) l.
Proof.
  intros H. apply Forall_forall. intros c Hc. apply negb_true_iff, N.eqb_neq.
  intros ->. auto.
Qed.

Lemma Matches_size_field bef w aft cs cs' :
  Matches (Alt (Plus digit) (Lit1 c_minus)) bef w aft cs cs' ->
  (w = [c_minus] \/ (w <> [] /\ Forall (fun x => isDigit x = true) w)) /\ cs' = cs.
Proof.
  intros M. apply Matches_Alt_inv in M. destruct M as [M|M].
  - apply Matches_Plus_class in M. destruct M as (Hn & Hf & ->). auto.
  - apply Matches_Lit1_inv in M. destruct M as [-> ->]. auto.
Qed.

(** Reading a match of [CLF_RE] back as a line of the combined format. *)
Lemma clf_match_combined line m :
  exec CLF_RE line = Some m ->
  exists c, line = combined_text c /\ well_formed_combined c
    /\ m_caps m = [(6%nat, c_agent c); (5%nat, c_status c); (4%nat, c_path c);
                   (3%nat, c_method c); (2%nat, c_date c); (1%nat, c_host c)].
Proof.
  intros H. apply exec_sound in H.
  destruct H as (pre & w & aft & -> & _ & _ & M & _).
  unfold CLF_RE in M.
  seq_inv M x0 M0. apply Matches_Bol_inv in M0. destruct M0 as (Hpre & -> & ->).
  seq_inv M g1 M1. apply Matches_Grp_inv in M1. destruct M1 as (c1 & -> & M1).
  apply Matches_Plus_class in M1. destruct M1 as (Hne1 & Hf1 & ->).
  lit_inv M.
  seq_inv M f2 Mf2. apply Matches_Plus_class in Mf2. destruct Mf2 as (Hne2 & Hf2 & ->).
  lit_inv M.
  seq_inv M f3 Mf3. apply Matches_Plus_class in Mf3. destruct Mf3 as (Hne3 & Hf3 & ->).
  lit_inv M. lit_inv M.
  seq_inv M g2 M2. apply Matches_Grp_inv in M2. destruct M2 as (c2 & -> & M2).
  apply Matches_Plus_class in M2. destruct M2 as (Hned & Hfd & ->).
  lit_inv M. lit_inv M. lit_inv M.
  seq_inv M g3 M3. apply Matches_Grp_inv in M3. destruct M3 as (c3 & -> & M3).
  apply Matches_Plus_class in M3. destruct M3 as (Hnem & Hfm & ->).
  lit_inv M.
  seq_inv M g4 M4. apply Matches_Grp_inv in M4. destruct M4 as (c4 & -> & M4).
  apply Matches_Star_class in M4. destruct M4 as (Hfp & ->).
  lit_inv M.
  seq_inv M f5 Mf5. apply Matches_Star_class in Mf5. destruct Mf5 as (Hfq & ->).
  lit_inv M. lit_inv M.
  seq_inv M g5 M5. apply Matches_Grp_inv in M5. destruct M5 as (c5 & -> & M5).
  apply Matches_Times_class in M5. destruct M5 as (Hl5 & Hf5 & ->).
  lit_inv M.
  seq_inv M f6 Mf6.
  apply Matches_size_field in Mf6. destruct Mf6 as [Hsize Hcs]. subst.
  lit_inv M. lit_inv M.
  seq_inv M f7 Mf7. apply Matches_Star_class in Mf7. destruct Mf7 as (Hfr & ->).
  lit_inv M. lit_inv M. lit_inv M.
  seq_inv M g6 M6. apply Matches_Grp_inv in M6. destruct M6 as (c6 & -> & M6).
  apply Matches_Star_class in M6. destruct M6 as (Hfa & ->).
  lit_inv M.
  cbn [Seqs] in M. apply Matches_Eps_inv in M. destruct M as [-> ->].
  assert (pre = []) as ->.
  { destruct pre as [|c pre]; [reflexivity|]. simpl in Hpre.
    destruct (rev pre); discriminate. }
  exists (mkCombined g1 f2 f3 g2 g3 g4 f5 g5 f6 f7 g6 aft).
  split; [|split; [|reflexivity]].
  - unfold combined_text. cbn [c_host c_ident c_user c_date c_method c_path c_protocol
      c_status c_size c_referrer c_agent c_rest].
    cbn [app]. rewrite <- !app_assoc. cbn [app]. rewrite <- ?app_assoc. cbn [app].
    repeat (f_equal; rewrite <- ?app_assoc; cbn [app]).
  - unfold well_formed_combined, nonblank, unquoted.
    cbn [c_host c_ident c_user c_date c_method c_path c_protocol
      c_status c_size c_referrer c_agent c_rest].
    repeat match goal with |- _ /\ _ => split end;
      auto using Forall_negb_false, Forall_not_char.
  split; assumption.
Qed.

(** Every line of that shape is matched, and the match reads the same
    fields back, the path apart. *)
Lemma Matches_Plus_intro p : forall w bef aft cs,
  w <> [] -> Forall (fun c => p c = true) w -> Matches (Plus (Chr p)) bef w aft cs cs.
Proof.
  intros w bef aft cs Hne Hf. destruct w as [|c w]; [congruence|].
  inversion Hf; subst. unfold Plus. apply Matches_Chr_seq; auto.
  now apply Matches_Star_intro.
Qed.

Lemma Matches_Lit1_seq c r bef w aft cs cs' :
  Matches r (c :: bef) w aft cs cs' ->
  Matches (Seq (Lit1 c) r) bef (c :: w) aft cs cs'.
Proof. intros M. apply Matches_Chr_seq; auto. apply N.eqb_refl. Qed.

Lemma Matches_Bol_seq r w aft cs cs' :
  Matches r [] w aft cs cs' -> Matches (Seq Bol r) [] w aft cs cs'.
Proof.
  intros M. apply (@Matches_Seq_intro Bol r [] w [] w aft cs cs cs');
    [reflexivity | constructor | exact M].
Qed.

Lemma Matches_field_seq a r bef f w aft cs cs1 cs2 :
  (forall aft', Matches a bef f aft' cs cs1) ->
  Matches r (rev f ++ bef) w aft cs1 cs2 ->
  Matches (Seq a r) bef (f ++ w) aft cs cs2.
Proof.
  intros Ha Hr. apply (@Matches_Seq_intro a r bef (f ++ w) f w aft cs cs1 cs2); auto.
Qed.

Lemma Forall_false_negb (p : char -> bool) l :
  Forall (fun c => p c = false) l -> Forall (fun c => negb (p c) = true) l.
Proof. apply Forall_impl. intros c H. now apply negb_true_iff. Qed.

Lemma combined_Matches c :
  well_formed_combined c ->
  exists cs, Matches CLF_RE [] (firstn (length (combined_text c) - length (c_rest c))
                                       (combined_text c)) (c_rest c) [] cs.
Proof.
  intros (Hh & Hi & Hu & Hd1 & Hd2 & Hm1 & Hm2 & Hp & Hq & Hs & Hz & Hr & Ha).
  destruct c as [g1 f2 f3 g2 g3 g4 f5 g5 f6 f7 g6 aft].
  cbn [c_host c_ident c_user c_date c_method c_path c_protocol
       c_status c_size c_referrer c_agent c_rest] in *.
  set (w := g1 ++ c_space :: f2 ++ c_space :: f3 ++ c_space
            :: c_lbracket :: g2 ++ c_rbracket :: c_space
            :: c_dquote :: g3 ++ c_space :: g4 ++ c_space :: f5
            ++ c_dquote :: c_space :: g5 ++ c_space :: f6 ++ c_space
            :: c_dquote :: f7 ++ c_dquote :: c_space
            :: c_dquote :: g6 ++ [c_dquote]).
  assert (E : combined_text (mkCombined g1 f2 f3 g2 g3 g4 f5 g5 f6 f7 g6 aft) = w ++ aft).
  { unfold combined_text, w.
    cbn [c_host c_ident c_user c_date c_method c_path c_protocol
         c_status c_size c_referrer c_agent c_rest].
    repeat (rewrite <- ?app_assoc; cbn [app]; f_equal). }
  rewrite E, firstn_len_app. eexists.
  unfold CLF_RE, w, sp, dq. cbn [Seqs]. destruct Hh as [Hh1 Hh2], Hi as [Hi1 Hi2], Hu as [Hu1 Hu2].
  apply Matches_Bol_seq.
  eapply Matches_field_seq.
  { intros aft'. apply Matches_Grp_intro. apply Matches_Plus_intro; auto.
    now apply Forall_false_negb. }
  apply Matches_Lit1_seq.
  eapply Matches_field_seq.
  { intros aft'. apply Matches_Plus_intro; auto. now apply Forall_false_negb. }
  apply Matches_Lit1_seq.
  eapply Matches_field_seq.
  { intros aft'. apply Matches_Plus_intro; auto. now apply Forall_false_negb. }
  apply Matches_Lit1_seq. apply Matches_Lit1_seq.
  eapply Matches_field_seq.
  { intros aft'. apply Matches_Grp_intro. apply Matches_Plus_intro; auto.
    now apply not_char_Forall. }
  apply Matches_Lit1_seq. apply Matches_Lit1_seq. apply Matches_Lit1_seq.
  eapply Matches_field_seq.
  { intros aft'. apply Matches_Grp_intro. apply Matches_Plus_intro; auto. }
  apply Matches_Lit1_seq.
  eapply Matches_field_seq.
  { intros aft'. apply Matches_Grp_intro. apply Matches_Star_intro.
    now apply not_char_Forall. }
  apply Matches_Lit1_seq.
  eapply Matches_field_seq.
  { intros aft'. apply Matches_Star_intro. now apply not_char_Forall. }
  apply Matches_Lit1_seq. apply Matches_Lit1_seq.
  eapply Matches_field_seq.
  { intros aft'. apply Matches_Grp_intro. destruct Hs as [Hl Hf].
    now apply Matches_Times_intro. }
  apply Matches_Lit1_seq.
  eapply Matches_field_seq.
  { intros aft'. destruct Hz as [->|[Hz1 Hz2]].
    - apply M_AltR. apply (@M_Chr (N.eqb c_minus) c_minus). apply N.eqb_refl.
    - apply M_AltL. now apply Matches_Plus_intro. }
  apply Matches_Lit1_seq. apply Matches_Lit1_seq.
  eapply Matches_field_seq.
  { intros aft'. apply Matches_Star_intro. now apply not_char_Forall. }
  apply Matches_Lit1_seq. apply Matches_Lit1_seq. apply Matches_Lit1_seq.
  eapply Matches_field_seq.
  { intros aft'. apply Matches_Grp_intro. apply Matches_Star_intro.
    now apply not_char_Forall. }
  apply Matches_Lit1_seq. constructor.
Qed.

Lemma parseLine_combined line m c :
  exec CLF_RE line = Some m -> line = combined_text c ->
  m_caps m = [(6%nat, c_agent c); (5%nat, c_status c); (4%nat, c_path c);
              (3%nat, c_method c); (2%nat, c_date c); (1%nat, c_host c)] ->
  three_digits (c_status c) ->
  parseLine line = combined_entry c (c_path c).
Proof.
  intros Hm Hl Hc Hs. unfold parseLine. rewrite Hm. unfold m_group. rewrite Hc.
  cbn [cap_get Nat.eqb obind tmpl]. rewrite (@parseInt10_digits _ Hs).
  unfold combined_entry. now rewrite Hl.
Qed.

(** X12.  A line that [CLF_RE] matches has the shape of the combined format:
    three non-blank fields, a bracketed date without a closing bracket, a
    quoted request that starts with an upper-case method, a status of three
    digits, a size, a quoted referrer and a quoted user agent; the entry
    takes its address, status, timestamp, method, path and user agent from
    these fields and has no tags. *)
Theorem combined_lines_have_the_shape (line : str) (m : mresult) :
  exec CLF_RE line = Some m ->
  exists c, line = combined_text c /\ well_formed_combined c
            /\ parseLine line = combined_entry c (c_path c).
Proof.
  intros H. destruct (@clf_match_combined line m H) as (c & Hl & Hw & Hc).
  exists c. split; [assumption|]. split; [assumption|].
  apply (@parseLine_combined line m c H Hl Hc).
  now destruct Hw as (_ & _ & _ & _ & _ & _ & _ & _ & _ & Hs & _).
Qed.

Lemma nonblank_no_space s : Forall (fun c => isSpace c = false) s -> ~ In c_space s.
Proof.
  intros H Hin. rewrite Forall_forall in H. specialize (H _ Hin). discriminate.
Qed.

Lemma upper_no_space s : Forall (fun c => isUpperAZ c = true) s -> ~ In c_space s.
Proof.
  intros H Hin. rewrite Forall_forall in H. specialize (H _ Hin). discriminate.
Qed.

Lemma digits_no_space s : Forall (fun c => isDigit c = true) s -> ~ In c_space s.
Proof.
  intros H Hin. rewrite Forall_forall in H. specialize (H _ Hin). discriminate.
Qed.

Lemma size_no_space s :
  s = [c_minus] \/ (s <> [] /\ Forall (fun x => isDigit x = true) s) -> ~ In c_space s.
Proof.
  intros [->|[_ H]]; [|now apply digits_no_space].
  intros [H|[]]. discriminate.
Qed.

Lemma unquoted_request p q : unquoted p -> unquoted q -> ~ In c_dquote (p ++ c_space :: q).
Proof.
  unfold unquoted. intros Hp Hq Hin. apply in_app_or in Hin.
  destruct Hin as [Hin|[Hin|Hin]]; auto. discriminate.
Qed.

Lemma request_assoc (p q x : str) :
  p ++ c_space :: q ++ c_dquote :: x = (p ++ c_space :: q) ++ c_dquote :: x.
Proof. now rewrite <- app_assoc. Qed.

(** Two readings of one line agree on every field but on where the path
    ends. *)
Lemma combined_text_inj c c' :
  well_formed_combined c -> well_formed_combined c' ->
  combined_text c = combined_text c' ->
  c_host c = c_host c' /\ c_date c = c_date c' /\ c_method c = c_method c'
  /\ c_status c = c_status c' /\ c_agent c = c_agent c'
  /\ c_path c ++ c_space :: c_protocol c = c_path c' ++ c_space :: c_protocol c'.
Proof.
  intros (Hh & Hi & Hu & Hd1 & Hd2 & Hm1 & Hm2 & Hp & Hq & Hs & Hz & Hr & Ha)
         (Hh' & Hi' & Hu' & Hd1' & Hd2' & Hm1' & Hm2' & Hp' & Hq' & Hs' & Hz' & Hr' & Ha') E.
  unfold combined_text in E.
  destruct Hh as [_ Hh], Hh' as [_ Hh'], Hi as [_ Hi], Hi' as [_ Hi'],
           Hu as [_ Hu], Hu' as [_ Hu'], Hs as [_ Hs], Hs' as [_ Hs'].
  apply cut_at_first in E; auto using nonblank_no_space. destruct E as [E1 E].
  apply cut_at_first in E; auto using nonblank_no_space. destruct E as [_ E].
  apply cut_at_first in E; auto using nonblank_no_space. destruct E as [_ E].
  injection E as E.
  apply cut_at_first in E; auto. destruct E as [E2 E].
  injection E as E.
  apply cut_at_first in E; auto using upper_no_space. destruct E as [E3 E].
  rewrite !request_assoc in E.
  apply cut_at_first in E; auto using unquoted_request. destruct E as [E4 E].
  injection E as E.
  apply cut_at_first in E; auto using digits_no_space. destruct E as [E5 E].
  apply cut_at_first in E; auto using size_no_space. destruct E as [_ E].
  injection E as E.
  apply cut_at_first in E; auto. destruct E as [_ E].
  injection E as E.
  apply cut_at_first in E; auto. destruct E as [E6 _].
  repeat split; assumption.
Qed.

Lemma combined_text_parsed (c : combined) :
  well_formed_combined c ->
  exists p q,
    parseLine (combined_text c) = combined_entry c p
    /\ c_path c ++ c_space :: c_protocol c = p ++ c_space :: q
    /\ unquoted p /\ unquoted q.
Proof.
  intros Hw. destruct (combined_Matches Hw) as (cs & M).
  pose proof (@exec_complete CLF_RE [] _ _ _ _ M) as Hex.
  cbn [app] in Hex.
  assert (Hcut : forall (l : str) n, firstn (length l - n) l ++ skipn (length l - n) l = l)
    by (intros; apply firstn_skipn).
  destruct (exec CLF_RE (combined_text c)) as [m|] eqn:E.
  - destruct (@clf_match_combined _ m E) as (c' & Hl & Hw' & Hc).
    destruct (combined_text_inj Hw Hw' Hl) as (E1 & E2 & E3 & E4 & E5 & E6).
    exists (c_path c'), (c_protocol c').
    split; [|split; [exact E6|]].
    + rewrite (@parseLine_combined _ m c' E Hl Hc)
        by (now destruct Hw' as (_ & _ & _ & _ & _ & _ & _ & _ & _ & Hs & _)).
      unfold combined_entry. now rewrite <- Hl, E1, E2, E3, E4, E5.
    + now destruct Hw' as (_ & _ & _ & _ & _ & _ & _ & Hp & Hq & _).
  - exfalso. apply Hex. rewrite <- E. f_equal.
    destruct c as [g1 f2 f3 g2 g3 g4 f5 g5 f6 f7 g6 aft]. cbn [c_rest].
    set (t := combined_text _).
    assert (Ht : exists w, t = w ++ aft).
    { unfold t, combined_text.
      cbn [c_host c_ident c_user c_date c_method c_path c_protocol
           c_status c_size c_referrer c_agent c_rest].
      eexists (g1 ++ c_space :: f2 ++ c_space :: f3 ++ c_space
            :: c_lbracket :: g2 ++ c_rbracket :: c_space
            :: c_dquote :: g3 ++ c_space :: g4 ++ c_space :: f5
            ++ c_dquote :: c_space :: g5 ++ c_space :: f6 ++ c_space
            :: c_dquote :: f7 ++ c_dquote :: c_space
            :: c_dquote :: g6 ++ [c_dquote]).
      repeat (rewrite <- ?app_assoc; cbn [app]; f_equal). }
    destruct Ht as (w & ->). now rewrite firstn_len_app.
Qed.

(** X13.  Every text of the shape of the combined format is read back by
    [parseLine]: the entry has the host as address, the number of the status
    field, the method and the user agent of the text, and the timestamp of
    its date; the path is a part of the request free of double quotes (the
    request may be cut at any of its spaces). *)
Theorem parseLine_reads_a_combined_line_back (c : combined) :
  well_formed_combined c ->
  exists p q,
    parseLine (combined_text c) = combined_entry c p
    /\ c_path c ++ c_space :: c_protocol c = p ++ c_space :: q
    /\ unquoted p /\ unquoted q.
Proof. apply combined_text_parsed. Qed.


(** X12, at work. *)
Lemma combined_lines_have_the_shape_example :
  exists c, ordinary_line = combined_text c /\ well_formed_combined c
            /\ parseLine ordinary_line = combined_entry c (c_path c).
Proof.
  destruct (exec CLF_RE ordinary_line) as [m|] eqn:E.
  - exact (@combined_lines_have_the_shape ordinary_line m E).
  - vm_compute in E. discriminate.
Defined.

Ltac decide_list :=
  repeat match goal with
         | |- _ /\ _ => split
         | |- ?l <> [] => discriminate
         | |- ~ In _ _ => let H := fresh in intros H; vm_compute in H; intuition discriminate
         | |- unquoted _ => let H := fresh in intros H; vm_compute in H; intuition discriminate
         | |- Forall _ _ => repeat constructor
         | |- nonblank _ => split
         | |- three_digits _ => split
         | |- _ = _ => reflexivity
         end.

Lemma sample_combined_well_formed : well_formed_combined sample_combined.
Proof.
  unfold well_formed_combined, sample_combined.
  cbn [c_host c_ident c_user c_date c_method c_path c_protocol
       c_status c_size c_referrer c_agent c_rest].
  decide_list. right. decide_list.
Defined.

(** X13, at work. *)
Lemma parseLine_reads_a_combined_line_back_example :
  exists p q,
    parseLine (combined_text sample_combined) = combined_entry sample_combined p
    /\ c_path sample_combined ++ c_space :: c_protocol sample_combined = p ++ c_space :: q
    /\ unquoted p /\ unquoted q.
Proof.
  exact (@parseLine_reads_a_combined_line_back sample_combined sample_combined_well_formed).
Defined.

(** X21, at work. *)
Lemma fallback_user_agent_keeps_its_quotes_example :
  match ua (parseLine agent_line) with
  | Some u =>
      exists pre, quoted_agent_at agent_line pre u
        /\ (forall pre' u', quoted_agent_at agent_line pre' u' ->
               (length pre <= length pre')%nat)
        /\ (forall pre' u', quoted_agent_at agent_line pre' u' ->
               length pre' = length pre -> pre' = pre /\ u' = u)
  | None => forall pre u, ~ quoted_agent_at agent_line pre u
  end.
Proof.
  apply (@fallback_user_agent_keeps_its_quotes agent_line); vm_compute; reflexivity.
Defined.

(** X22.  What holds of every entry: it keeps the line as its raw text; its
    timestamp is never 0; its tags are empty or the single tag failed_login;
    a tagged entry has no status, timestamp, method, path or user agent; and
    only a line of the combined format has a timestamp, a method or a
    path. *)
Theorem entry_invariants (line : str) :
  let e := parseLine line in
  raw e = line
  /\ ts e <> Some 0
  /\ (tags e = [] \/ tags e = [lit "failed_login"])
  /\ (tags e = [lit "failed_login"] ->
      status e = None /\ ts e = None /\ method e = None /\ path e = None /\ ua e = None)
  /\ (ts e <> None \/ method e <> None \/ path e <> None ->
      exists m, exec CLF_RE line = Some m).
Proof.
  cbv zeta. split; [apply parseLine_raw|].
  unfold parseLine. destruct (exec CLF_RE line) as [m|].
  - cbn [ts tags]. split; [|split; [now left|split; [discriminate|eauto]]].
    unfold truthy_num. destruct (parseApacheDate _) as [t|]; [|discriminate].
    destruct (t =? 0) eqn:E; [discriminate|]. apply Z.eqb_neq in E. congruence.
  - destruct (test SSH_FAILED_RE line); cbn [ts tags status method path ua].
    + split; [discriminate|]. split; [now right|]. split; [auto|].
      intros [H|[H|H]]; congruence.
    + split; [discriminate|]. split; [now left|]. split; [discriminate|].
      intros [H|[H|H]]; congruence.
Qed.


(* ================================================================== *)
(** * parseApacheDate *)

Lemma take_digits_app : forall n l rest acc,
  length l = n -> Forall (fun c => isDigit c = true) l ->
  take_digits n acc (l ++ rest) = Some (digits_val acc l, rest).
Proof.
  induction n as [|n IH]; intros l rest acc Hl Hf.
  - destruct l; [reflexivity | discriminate].
  - destruct l as [|c l]; [discriminate|]. inversion Hf as [|? ? Hc Hf']; subst.
    cbn [app take_digits digits_val]. rewrite Hc. apply IH; auto.
Qed.

Lemma take_digits_all n l acc :
  length l = n -> Forall (fun c => isDigit c = true) l ->
  take_digits n acc l = Some (digits_val acc l, []).
Proof.
  intros Hl Hf. rewrite <- (app_nil_r l) at 1. now apply take_digits_app.
Qed.

Lemma take_digits_not_digit n acc c t :
  isDigit c = false -> take_digits (S n) acc (c :: t) = None.
Proof. intros H. cbn [take_digits]. now rewrite H. Qed.

Lemma month_ok m ms :
  assoc m months = Some ms ->
  n_digits 2 ms /\ (1 <=? number ms) && (number ms <=? 12) = true.
Proof.
  unfold months. cbn [assoc].
  repeat match goal with
         | |- context [if str_eqb m ?k then _ else _] => destruct (str_eqb m k)
         end;
    intros [= <-] || discriminate; (split; [split; [reflexivity | repeat constructor] | reflexivity]).
Qed.

Lemma take_sign_cons c t :
  c = c_plus \/ c = c_minus -> take_sign (c :: t) = Some (sign_value c, t).
Proof. intros [->| ->]; reflexivity. Qed.

(** The time value of a string of the shape [parseApacheDate] builds. *)
Lemma Date_parse_iso Y Mo D h mi s sg zh zm :
  n_digits 4 Y -> n_digits 2 Mo -> n_digits 2 D -> n_digits 2 h -> n_digits 2 mi ->
  n_digits 2 s -> (sg = c_plus \/ sg = c_minus) -> n_digits 2 zh -> n_digits 2 zm ->
  Date_parse (Y ++ c_minus :: Mo ++ c_minus :: D ++ 84%N :: h ++ c_colon :: mi
              ++ c_colon :: s ++ sg :: zh ++ c_colon :: zm)
  = if (1 <=? number Mo) && (number Mo <=? 12) && (1 <=? number D) && (number D <=? 31)
       && valid_clock (number h) (number mi) (number s)
       && (number zh <=? 23) && (number zm <=? 59)
    then Some (MakeDate (MakeDay (number Y) (number Mo) (number D))
                        (MakeTime (number h) (number mi) (number s))
               - sign_value sg * ((number zh * 60 + number zm) * 60000))
    else None.
Proof.
  intros [HY1 HY2] [HM1 HM2] [HD1 HD2] [Hh1 Hh2] [Hm1 Hm2] [Hs1 Hs2] Hsg [Hz1 Hz2] [Hw1 Hw2].
  unfold Date_parse, number.
  rewrite (take_digits_app _ 0 HY1 HY2). cbn [obind expect]. rewrite N.eqb_refl. cbn [obind].
  rewrite (take_digits_app _ 0 HM1 HM2). cbn [obind expect]. rewrite N.eqb_refl. cbn [obind].
  rewrite (take_digits_app _ 0 HD1 HD2). cbn [obind expect]. rewrite N.eqb_refl. cbn [obind].
  rewrite (take_digits_app _ 0 Hh1 Hh2). cbn [obind expect]. rewrite N.eqb_refl. cbn [obind].
  rewrite (take_digits_app _ 0 Hm1 Hm2). cbn [obind expect]. rewrite N.eqb_refl. cbn [obind].
  rewrite (take_digits_app _ 0 Hs1 Hs2). cbn [obind].
  rewrite (take_sign_cons _ Hsg). cbn [obind].
  rewrite (take_digits_app _ 0 Hz1 Hz2). cbn [obind expect]. rewrite N.eqb_refl. cbn [obind].
  rewrite (take_digits_all 0 Hw1 Hw2). cbn [obind]. reflexivity.
Qed.

Lemma sign_class c :
  (c =? c_plus)%N || (c =? c_minus)%N = true <-> c = c_plus \/ c = c_minus.
Proof. rewrite orb_true_iff, !N.eqb_eq. tauto. Qed.

Lemma Forall_firstn_skipn (A : Type) (P : A -> Prop) n (l : list A) :
  Forall P l -> Forall P (firstn n l) /\ Forall P (skipn n l).
Proof.
  intros H. rewrite <- (firstn_skipn n l) in H. now apply Forall_app in H.
Qed.

Lemma date_Matches a bef aft :
  well_formed_date a -> Matches DATE_RE bef (apache_text a) aft [] (date_caps a).
Proof.
  intros ([Hd1 Hd2] & Hm1 & Hm2 & [Hy1 Hy2] & [Hh1 Hh2] & [Hi1 Hi2] & [Hs1 Hs2] & Hsg
          & [Hz1 Hz2] & [Hw1 Hw2]).
  unfold DATE_RE, apache_text, date_caps, sp. cbn [Seqs].
  eapply Matches_field_seq.
  { intros aft'. apply Matches_Grp_intro. now apply Matches_Times_intro. }
  apply Matches_Lit1_seq.
  eapply Matches_field_seq.
  { intros aft'. apply Matches_Grp_intro. now apply Matches_Times_intro. }
  apply Matches_Lit1_seq.
  eapply Matches_field_seq.
  { intros aft'. apply Matches_Grp_intro. now apply Matches_Times_intro. }
  apply Matches_Lit1_seq.
  eapply Matches_field_seq.
  { intros aft'. apply Matches_Grp_intro. now apply Matches_Times_intro. }
  apply Matches_Lit1_seq.
  eapply Matches_field_seq.
  { intros aft'. apply Matches_Grp_intro. now apply Matches_Times_intro. }
  apply Matches_Lit1_seq.
  eapply Matches_field_seq.
  { intros aft'. apply Matches_Grp_intro. now apply Matches_Times_intro. }
  apply Matches_Lit1_seq.
  rewrite <- (app_nil_r (a_sign a :: a_zone_hours a ++ a_zone_minutes a)) at 1.
  eapply Matches_field_seq; [|constructor].
  intros aft'. apply Matches_Grp_intro. apply Matches_Chr_seq; [now apply sign_class|].
  apply Matches_Times_intro.
  - rewrite length_app, Hz1, Hw1. reflexivity.
  - apply Forall_app. auto.
Qed.

Lemma date_match d m :
  exec DATE_RE d = Some m ->
  exists pre a aft,
    d = pre ++ apache_text a ++ aft /\ well_formed_date a /\ m_caps m = date_caps a
    /\ forall pre' a' aft', d = pre' ++ apache_text a' ++ aft' -> well_formed_date a' ->
         (length pre <= length pre')%nat.
Proof.
  intros H. apply exec_sound in H.
  destruct H as (pre & w & aft & -> & _ & _ & M & Hleft).
  unfold DATE_RE in M.
  seq_inv M DD M1. apply Matches_Grp_inv in M1. destruct M1 as (c1 & -> & M1).
  apply Matches_Times_class in M1. destruct M1 as (Hl1 & Hf1 & ->).
  lit_inv M.
  seq_inv M MMM M2. apply Matches_Grp_inv in M2. destruct M2 as (c2 & -> & M2).
  apply Matches_Times_class in M2. destruct M2 as (Hl2 & Hf2 & ->).
  lit_inv M.
  seq_inv M YYYY M3. apply Matches_Grp_inv in M3. destruct M3 as (c3 & -> & M3).
  apply Matches_Times_class in M3. destruct M3 as (Hl3 & Hf3 & ->).
  lit_inv M.
  seq_inv M hh M4. apply Matches_Grp_inv in M4. destruct M4 as (c4 & -> & M4).
  apply Matches_Times_class in M4. destruct M4 as (Hl4 & Hf4 & ->).
  lit_inv M.
  seq_inv M mm M5. apply Matches_Grp_inv in M5. destruct M5 as (c5 & -> & M5).
  apply Matches_Times_class in M5. destruct M5 as (Hl5 & Hf5 & ->).
  lit_inv M.
  seq_inv M ss M6. apply Matches_Grp_inv in M6. destruct M6 as (c6 & -> & M6).
  apply Matches_Times_class in M6. destruct M6 as (Hl6 & Hf6 & ->).
  unfold sp in M. lit_inv M.
  seq_inv M tz M7. apply Matches_Grp_inv in M7. destruct M7 as (c7 & -> & M7).
  apply Matches_Seq_inv in M7. destruct M7 as (sg & zz & c8 & -> & Msg & Mzz).
  apply Matches_Chr_inv in Msg. destruct Msg as (sgc & -> & Hsg & ->).
  apply sign_class in Hsg.
  apply Matches_Times_class in Mzz. destruct Mzz as (Hl7 & Hf7 & ->).
  cbn [Seqs] in M. apply Matches_Eps_inv in M. destruct M as [-> ->].
  destruct (Forall_firstn_skipn 2 Hf7) as [Hfa Hfb].
  exists pre, (mkApacheDate DD MMM YYYY hh mm ss sgc (firstn 2 zz) (skipn 2 zz)), aft.
  assert (Hwf : well_formed_date
                  (mkApacheDate DD MMM YYYY hh mm ss sgc (firstn 2 zz) (skipn 2 zz))).
  { unfold well_formed_date, n_digits.
    cbn [a_day a_month a_year a_hour a_minute a_second a_sign a_zone_hours a_zone_minutes].
    rewrite length_firstn, length_skipn, Hl7. cbn.
    repeat match goal with |- _ /\ _ => split end; auto. }
  split; [|split; [exact Hwf|split]].
  - unfold apache_text.
    cbn [a_day a_month a_year a_hour a_minute a_second a_sign a_zone_hours a_zone_minutes].
    rewrite firstn_skipn. f_equal.
    repeat (rewrite <- ?app_assoc; cbn [app]; f_equal).
  - unfold date_caps.
    cbn [a_day a_month a_year a_hour a_minute a_second a_sign a_zone_hours a_zone_minutes].
    rewrite firstn_skipn. reflexivity.
  - intros pre' a' aft' E Hw'.
    apply (Hleft pre' (apache_text a') aft' [] (date_caps a')); [exact E|].
    now apply date_Matches.
Qed.

Lemma parseApacheDate_of_match d m a :
  exec DATE_RE d = Some m -> m_caps m = date_caps a -> well_formed_date a ->
  parseApacheDate d = instant_of a.
Proof.
  intros Hm Hc
    (Hd & Hm1 & Hm2 & Hy & Hh & Hi & Hs & Hsg & Hz & Hw).
  unfold parseApacheDate. rewrite Hm. unfold m_group. rewrite Hc.
  unfold date_caps. cbn [cap_get Nat.eqb tmpl obind].
  assert (Hcut : firstn 3 (a_sign a :: a_zone_hours a ++ a_zone_minutes a)
                 = a_sign a :: a_zone_hours a
                 /\ skipn 3 (a_sign a :: a_zone_hours a ++ a_zone_minutes a)
                    = a_zone_minutes a).
  { destruct Hz as [Hz _]. destruct (a_zone_hours a) as [|x [|y [|]]]; try discriminate.
    split; reflexivity. }
  destruct Hcut as [-> ->].
  unfold instant_of, month_number.
  destruct (assoc (a_month a) months) as [ms|] eqn:Em; cbn [option_map tmpl].
  - destruct (month_ok _ Em) as [Hms Hrange].
    change (Date_parse (a_year a ++ c_minus :: ms ++ c_minus :: a_day a ++ 84%N
                        :: a_hour a ++ c_colon :: a_minute a ++ c_colon :: a_second a
                        ++ a_sign a :: a_zone_hours a ++ c_colon :: a_zone_minutes a)
            = (if (1 <=? number (a_day a)) && (number (a_day a) <=? 31)
                  && valid_clock (number (a_hour a)) (number (a_minute a)) (number (a_second a))
                  && (number (a_zone_hours a) <=? 23) && (number (a_zone_minutes a) <=? 59)
               then Some (MakeDate (MakeDay (number (a_year a)) (number ms) (number (a_day a)))
                            (MakeTime (number (a_hour a)) (number (a_minute a))
                                      (number (a_second a)))
                          - sign_value (a_sign a)
                            * ((number (a_zone_hours a) * 60 + number (a_zone_minutes a)) * 60000))
               else None)).
    rewrite Date_parse_iso by assumption. rewrite Hrange. reflexivity.
  - destruct Hy as [Hy1 Hy2]. unfold Date_parse.
    change (a_year a ++ lit "-" ++ lit "undefined" ++ ?x)
      with (a_year a ++ c_minus :: 117%N :: (lit "ndefined" ++ x)).
    rewrite (take_digits_app _ 0 Hy1 Hy2). cbn [obind expect]. rewrite N.eqb_refl.
    cbn [obind]. rewrite take_digits_not_digit by reflexivity. reflexivity.
Qed.

Lemma apache_text_length a : well_formed_date a -> length (apache_text a) = 26%nat.
Proof.
  intros ([Hd _] & Hm & _ & [Hy _] & [Hh _] & [Hi _] & [Hs _] & _ & [Hz _] & [Hw _]).
  unfold apache_text.
  repeat (rewrite ?length_app; cbn [length]).
  rewrite Hd, Hm, Hy, Hh, Hi, Hs, Hz, Hw. reflexivity.
Qed.

Lemma apache_text_inj a a' :
  well_formed_date a -> well_formed_date a' -> apache_text a = apache_text a' -> a = a'.
Proof.
  intros ([Hd _] & Hm & _ & [Hy _] & [Hh _] & [Hi _] & [Hs _] & _ & [Hz _] & [Hw _])
         ([Hd' _] & Hm' & _ & [Hy' _] & [Hh' _] & [Hi' _] & [Hs' _] & _ & [Hz' _] & [Hw' _]) E.
  destruct a as [d mo y h mi s sg zh zm], a' as [d' mo' y' h' mi' s' sg' zh' zm'].
  unfold apache_text in E.
  cbn [a_day a_month a_year a_hour a_minute a_second a_sign a_zone_hours a_zone_minutes] in *.
  apply app_inj_length in E; [|congruence]. destruct E as [-> E]. injection E as E.
  apply app_inj_length in E; [|congruence]. destruct E as [-> E]. injection E as E.
  apply app_inj_length in E; [|congruence]. destruct E as [-> E]. injection E as E.
  apply app_inj_length in E; [|congruence]. destruct E as [-> E]. injection E as E.
  apply app_inj_length in E; [|congruence]. destruct E as [-> E]. injection E as E.
  apply app_inj_length in E; [|congruence]. destruct E as [-> E]. injection E as -> E.
  apply app_inj_length in E; [|congruence]. destruct E as [-> ->]. reflexivity.
Qed.

(** X15.  When [parseApacheDate] returns a number, the text holds a date
    DD/Mon/YYYY:HH:MM:SS +ZZZZ (or -ZZZZ) and the number is the instant of
    that date: its civil date and time taken as UTC, less the offset, in
    milliseconds since the epoch. *)
Theorem parseApacheDate_reads_a_date (d : str) (t : Z) :
  parseApacheDate d = Some t ->
  exists pre a aft,
    d = pre ++ apache_text a ++ aft /\ well_formed_date a /\ instant_of a = Some t.
Proof.
  intros H. destruct (exec DATE_RE d) as [m|] eqn:E.
  - destruct (@date_match d m E) as (pre & a & aft & Hd & Hw & Hc & _).
    rewrite (@parseApacheDate_of_match d m a E Hc Hw) in H. eauto 6.
  - unfold parseApacheDate in H. rewrite E in H. discriminate.
Qed.

(** X15, at work. *)
Lemma parseApacheDate_reads_a_date_example :
  exists pre a aft,
    sample_date = pre ++ apache_text a ++ aft /\ well_formed_date a
    /\ instant_of a = Some 971211336000.
Proof.
  apply (@parseApacheDate_reads_a_date sample_date 971211336000).
  vm_compute. reflexivity.
Defined.

Lemma parseApacheDate_leftmost (pre aft : str) (a : apache_date) :
  well_formed_date a ->
  (forall pre' a' aft', pre ++ apache_text a ++ aft = pre' ++ apache_text a' ++ aft' ->
     well_formed_date a' -> (length pre <= length pre')%nat) ->
  parseApacheDate (pre ++ apache_text a ++ aft) = instant_of a.
Proof.
  intros Hw Hleft.
  destruct (exec DATE_RE (pre ++ apache_text a ++ aft)) as [m|] eqn:E.
  - destruct (@date_match _ m E) as (pre0 & a0 & aft0 & Hd & Hw0 & Hc & Hleft0).
    assert (Hlen : length pre = length pre0).
    { apply Nat.le_antisymm.
      - apply (Hleft pre0 a0 aft0 Hd Hw0).
      - apply (Hleft0 pre a aft eq_refl Hw). }
    apply app_inj_length in Hd; auto. destruct Hd as [_ Hd].
    apply app_inj_length in Hd; [|now rewrite !apache_text_length].
    destruct Hd as [Hd _]. apply apache_text_inj in Hd; auto. subst a0.
    now apply (@parseApacheDate_of_match _ m a E Hc Hw).
  - exfalso. apply (@exec_complete DATE_RE pre (apache_text a) aft [] (date_caps a));
      [now apply date_Matches | exact E].
Qed.

(** X16.  The leftmost date in a text decides the result of
    [parseApacheDate]: it is the instant of that date, and undefined or NaN
    (here [None]) when the date has none, whatever surrounds the date. *)
Theorem parseApacheDate_of_the_leftmost_date (pre aft : str) (a : apache_date) :
  well_formed_date a ->
  (forall pre' a' aft', pre ++ apache_text a ++ aft = pre' ++ apache_text a' ++ aft' ->
     well_formed_date a' -> (length pre <= length pre')%nat) ->
  parseApacheDate (pre ++ apache_text a ++ aft) = instant_of a.
Proof. apply parseApacheDate_leftmost. Qed.

Lemma sample_apache_date_well_formed : well_formed_date sample_apache_date.
Proof.
  unfold well_formed_date, n_digits, sample_apache_date.
  cbn [a_day a_month a_year a_hour a_minute a_second a_sign a_zone_hours a_zone_minutes].
  repeat match goal with
         | |- _ /\ _ => split
         | |- Forall _ _ => repeat constructor
         | |- _ = _ => reflexivity
         end.
  now right.
Defined.

(** X16, at work. *)
Lemma parseApacheDate_of_the_leftmost_date_example :
  parseApacheDate sample_date = Some 971211336000.
Proof.
  refine (@parseApacheDate_of_the_leftmost_date [] [] sample_apache_date
            sample_apache_date_well_formed _).
  intros pre' a' aft' _ _. apply Nat.le_0_l.
Defined.


(* ================================================================== *)
(** * Parsing and rules together *)

(** X14.  The timestamp of a line of the combined format whose date is
    well formed is the instant of that date, and it is absent when the date
    has no instant (an unknown month name, a field out of range) or when the
    instant is 0. *)
Theorem timestamp_of_a_combined_line (c : combined) (a : apache_date) :
  well_formed_combined c -> well_formed_date a -> c_date c = apache_text a ->
  ts (parseLine (combined_text c))
  = match instant_of a with
    | Some t => if t =? 0 then None else Some t
    | None => None
    end.
Proof.
  intros Hc Ha Hd. destruct (combined_text_parsed Hc) as (p & q & -> & _).
  unfold combined_entry. cbn [ts]. rewrite Hd.
  assert (E : parseApacheDate ([] ++ apache_text a ++ []) = instant_of a).
  { apply (@parseApacheDate_leftmost [] [] a Ha).
    intros pre' a' aft' _ _. apply Nat.le_0_l. }
  cbn [app] in E. rewrite app_nil_r in E. rewrite E. reflexivity.
Qed.

(** X14, at work. *)
Lemma timestamp_of_a_combined_line_example :
  ts (parseLine (combined_text sample_combined)) = Some 971211336000.
Proof.
  exact (@timestamp_of_a_combined_line sample_combined sample_apache_date
           sample_combined_well_formed sample_apache_date_well_formed eq_refl).
Defined.

(** X23.  One line of the combined format, anywhere in the text, whose user
    agent holds curl, wget, postman, python-requests, go-http-client or
    sqlmap in any case puts the Suspicious UA anomaly into the result. *)
Theorem one_tool_line_raises_suspicious_ua (getHours : Z -> Z) (text : str)
    (c : combined) (tok : str) :
  In (combined_text c) (nonempty_lines text) -> well_formed_combined c ->
  In tok suspicious_tokens -> contains_ci tok (c_agent c) ->
  In suspicious_ua_anomaly (anomalies (analyzeLogs getHours text)).
Proof.
  intros Hl Hc Htok Hci.
  apply (@In_anomalies_of_type getHours text _ t_suspicious_ua); [reflexivity|].
  rewrite filter_suspicious_ua. unfold suspicious_ua_block.
  assert (Hs : suspicious_seen (entries (analyzeLogs getHours text))).
  { exists (c_agent c), tok. split; [|auto]. split.
    - intros E. rewrite E in Hci. apply contains_map_lower in Hci.
      destruct Hci as (pre & w & post & E' & Hw).
      destruct pre; [|discriminate]. destruct w; [|discriminate].
      destruct tok; [|discriminate].
      revert Htok. vm_compute. intuition discriminate.
    - exists (parseLine (combined_text c)). split.
      + rewrite entries_analyzeLogs. now apply in_map.
      + destruct (combined_text_parsed Hc) as (p & q & -> & _). reflexivity. }
  apply (suspicious_iff getHours) in Hs. rewrite Hs. now left.
Qed.

Lemma curl_combined_well_formed : well_formed_combined curl_combined.
Proof.
  unfold well_formed_combined, curl_combined.
  cbn [c_host c_ident c_user c_date c_method c_path c_protocol
       c_status c_size c_referrer c_agent c_rest].
  decide_list. now left.
Defined.

(** X23, at work: an SSH line and a request made with curl. *)
Lemma one_tool_line_raises_suspicious_ua_example :
  In suspicious_ua_anomaly
     (anomalies (analyzeLogs utcHours (ssh_line ++ c_lf :: combined_text curl_combined))).
Proof.
  apply (@one_tool_line_raises_suspicious_ua utcHours
           (ssh_line ++ c_lf :: combined_text curl_combined) curl_combined (lit "curl")).
  - vm_compute. right. left. reflexivity.
  - exact curl_combined_well_formed.
  - now left.
  - exists [], (List.map lower (lit "/7.68.0")). vm_compute. reflexivity.
Defined.

(* ================================================================== *)
(** * No anomaly of a rule is reported twice *)

Lemma Permutation_insert_by_index x l : Permutation (insert_by_index x l) (x :: l).
Proof.
  induction l as [|y l IH]; cbn [insert_by_index]; [reflexivity|].
  destruct (fst x <=? fst y); [reflexivity|].
  rewrite IH. apply perm_swap.
Qed.

Lemma Permutation_Object_entries o : Permutation (Object_entries o) o.
Proof.
  unfold Object_entries, named_props.
  induction o as [|[k v] o IH]; cbn [indexed_props filter fst]; [reflexivity|].
  destruct (array_index k) as [i|].
  - rewrite Permutation_insert_by_index. cbn [List.map snd app]. now constructor.
  - rewrite <- Permutation_middle. now constructor.
Qed.

Lemma NoDup_keys_Object_entries o :
  NoDup (List.map fst o) -> NoDup (List.map fst (Object_entries o)).
Proof.
  intros H. eapply Permutation_NoDup; [|exact H].
  apply Permutation_map. symmetry. apply Permutation_Object_entries.
Qed.

Lemma NoDup_flat_map_rule (rule : str * jsval -> list Anomaly) :
  (forall kv, NoDup (rule kv)) ->
  (forall kv kv' x, In x (rule kv) -> In x (rule kv') -> fst kv = fst kv') ->
  forall L, NoDup (List.map fst L) -> NoDup (flat_map rule L).
Proof.
  intros H1 H2. induction L as [|kv L IH]; intros Hnd; cbn [flat_map]; [constructor|].
  cbn [List.map] in Hnd. inversion Hnd as [|? ? Hk Hnd']; subst.
  apply NoDup_app; auto.
  intros x Hx Hin. apply in_flat_map in Hin. destruct Hin as (kv' & Hkv' & Hx').
  apply Hk. rewrite (H2 kv kv' x Hx Hx'). now apply in_map.
Qed.

Lemma NoDup_singleton_or_nil (A : Type) (b : bool) (x : A) : NoDup (if b then [x] else []).
Proof. destruct b; repeat constructor. intros []. Qed.

Lemma NoDup_brute_force_rule kv : NoDup (brute_force_rule kv).
Proof.
  unfold brute_force_rule. destruct (snd kv); try constructor.
  apply NoDup_singleton_or_nil.
Qed.

Lemma NoDup_error_spike_rule kv : NoDup (error_spike_rule kv).
Proof.
  unfold error_spike_rule. destruct (snd kv); try constructor.
  apply NoDup_singleton_or_nil.
Qed.

Lemma NoDup_rate_spike_rule kv : NoDup (rate_spike_rule kv).
Proof.
  unfold rate_spike_rule. destruct (snd kv); try constructor.
  apply NoDup_singleton_or_nil.
Qed.

Lemma NoDup_off_hours_rule kv : NoDup (off_hours_rule kv).
Proof.
  unfold off_hours_rule. destruct (snd kv); try constructor.
  apply NoDup_singleton_or_nil.
Qed.

Lemma NoDup_counter sel es : NoDup (List.map fst (bump_fold sel es [])).
Proof.
  destruct (@counts_bump_fold sel es [] (fun _ => 0)) as [Hnd _];
    [intros; lia | apply counts_empty | exact Hnd].
Qed.

Section Distinct.
Variable getHours : Z -> Z.
Variable es : list LogEntry.
Let st := aggregate getHours es.

Lemma NoDup_brute_force_block : NoDup (brute_force_block st).
Proof.
  unfold brute_force_block. apply NoDup_flat_map_rule.
  - apply NoDup_brute_force_rule.
  - intros kv kv' x H H'. apply In_brute_force_rule in H, H'.
    destruct H as (n & _ & _ & ->), H' as (n' & _ & _ & E).
    now apply brute_force_anomaly_inj in E.
  - apply NoDup_keys_Object_entries. unfold st, aggregate. rewrite fold_failedByIP.
    apply NoDup_counter.
Qed.

Lemma NoDup_error_spike_block : NoDup (error_spike_block st).
Proof.
  unfold error_spike_block. apply NoDup_flat_map_rule.
  - apply NoDup_error_spike_rule.
  - intros kv kv' x H H'. apply In_error_spike_rule in H, H'.
    destruct H as (n & _ & _ & ->), H' as (n' & _ & _ & E).
    now apply error_spike_anomaly_inj in E.
  - apply NoDup_keys_Object_entries. unfold st, aggregate. rewrite fold_errorsByIP.
    apply NoDup_counter.
Qed.

Lemma NoDup_off_hours_block : NoDup (off_hours_block st).
Proof.
  unfold off_hours_block. apply NoDup_flat_map_rule.
  - apply NoDup_off_hours_rule.
  - intros kv kv' x H H'. apply In_off_hours_rule in H, H'.
    destruct H as (n & _ & _ & ->), H' as (n' & _ & _ & E).
    now apply off_hours_anomaly_inj in E.
  - apply NoDup_keys_Object_entries. unfold st, aggregate. rewrite fold_nightByIP.
    apply NoDup_counter.
Qed.

Lemma NoDup_rate_spike_block : NoDup (rate_spike_block st).
Proof.
  unfold rate_spike_block. apply NoDup_flat_map_rule.
  - apply NoDup_rate_spike_rule.
  - intros kv kv' x H H'. apply In_rate_spike_rule in H, H'.
    destruct H as (n & _ & _ & ->), H' as (n' & _ & _ & E).
    now apply rate_spike_anomaly_inj in E.
  - apply NoDup_keys_Object_entries. unfold maxPerIP_of, st, aggregate.
    rewrite fold_perMinute. cbn [perMinute agg0].
    destruct (@counts_max_fold (Object_entries (bump_fold rate_key es [])) []
                (fun _ => 0)) as [Hnd _];
      [intros; lia | apply perMinute_positive | apply counts_empty | exact Hnd].
Qed.

Lemma NoDup_suspicious_ua_block : NoDup (suspicious_ua_block st).
Proof. unfold suspicious_ua_block. apply NoDup_singleton_or_nil. Qed.

End Distinct.

Lemma NoDup_app_types t l l' :
  all_of_type t l -> (forall x, In x l' -> type x <> t) ->
  NoDup l -> NoDup l' -> NoDup (l ++ l').
Proof.
  intros Ht Hn H1 H2. apply NoDup_app; auto.
  intros x Hx Hx'. apply (Hn x Hx'). unfold all_of_type in Ht.
  rewrite Forall_forall in Ht. auto.
Qed.

Lemma all_of_type_other t t' l x : all_of_type t l -> t <> t' -> In x l -> type x <> t'.
Proof.
  intros Ht Hne Hin. unfold all_of_type in Ht. rewrite Forall_forall in Ht.
  now rewrite (Ht x Hin).
Qed.

Ltac other_block Hx :=
  repeat (apply in_app_or in Hx; destruct Hx as [Hx|Hx]);
  match goal with
  | T : all_of_type _ ?l, H : In _ ?l |- _ =>
      apply (@all_of_type_other _ _ _ _ T); [discriminate | exact H]
  end.

Section Cited.
Variable getHours : Z -> Z.
Variable text : str.
Let r := analyzeLogs getHours text.

Lemma cited_brute_force n a :
  In (brute_force_anomaly n a) (anomalies r) -> n = failed_count a (entries r).
Proof.
  intros H. apply (@In_anomalies_of_type getHours text _ t_brute_force) in H; [|reflexivity].
  rewrite filter_brute_force in H. apply In_brute_force_block in H.
  destruct H as (a' & n' & H & _ & Hn & _). apply brute_force_anomaly_inj in H.
  destruct H as [-> ->]. exact Hn.
Qed.

Lemma cited_error_spike n a :
  In (error_spike_anomaly n a) (anomalies r) -> n = error_count a (entries r).
Proof.
  intros H. apply (@In_anomalies_of_type getHours text _ t_error_spike) in H; [|reflexivity].
  rewrite filter_error_spike in H. apply In_error_spike_block in H.
  destruct H as (a' & n' & H & _ & Hn & _). apply error_spike_anomaly_inj in H.
  destruct H as [-> ->]. exact Hn.
Qed.

Lemma cited_rate_spike p n :
  In (rate_spike_anomaly p n) (anomalies r) -> n = group_peak p (entries r).
Proof.
  intros H. apply (@In_anomalies_of_type getHours text _ t_rate_spike) in H; [|reflexivity].
  rewrite filter_rate_spike in H. apply In_rate_spike_block in H.
  destruct H as (p' & n' & H & _ & Hn & _). apply rate_spike_anomaly_inj in H.
  destruct H as [-> ->]. exact Hn.
Qed.

Lemma cited_off_hours n a :
  In (off_hours_anomaly n a) (anomalies r) -> n = night_count getHours a (entries r).
Proof.
  intros H. apply (@In_anomalies_of_type getHours text _ t_off_hours) in H; [|reflexivity].
  rewrite filter_off_hours in H. apply In_off_hours_block in H.
  destruct H as (a' & n' & H & _ & Hn & _). apply off_hours_anomaly_inj in H.
  destruct H as [-> ->]. exact Hn.
Qed.

End Cited.

(** X6.  The anomaly list is the HTTP Error anomalies followed by the
    anomalies of the rules.  Every anomaly of a rule is a Brute Force, an
    Error Spike, a Rate Spike or an Off-hours anomaly citing a count and an
    address, or the Suspicious UA anomaly; no anomaly stands there twice; and
    two anomalies of one rule that cite the same address cite the same
    count.  So the result holds at most one Brute Force, Error Spike, Rate
    Spike and Off-hours anomaly per address and at most one Suspicious UA
    anomaly. *)
Theorem rule_anomalies_are_reported_once (getHours : Z -> Z) (text : str) :
  let r := analyzeLogs getHours text in
  exists errors rules,
    anomalies r = errors ++ rules
    /\ errors = filter (has_type t_http_error) (anomalies r)
    /\ NoDup rules
    /\ Forall (fun x =>
                 (exists n a, x = brute_force_anomaly n a)
                 \/ (exists n a, x = error_spike_anomaly n a)
                 \/ x = suspicious_ua_anomaly
                 \/ (exists p n, x = rate_spike_anomaly p n)
                 \/ (exists n a, x = off_hours_anomaly n a)) rules
    /\ (forall a n n', In (brute_force_anomaly n a) (anomalies r) ->
           In (brute_force_anomaly n' a) (anomalies r) -> n = n')
    /\ (forall a n n', In (error_spike_anomaly n a) (anomalies r) ->
           In (error_spike_anomaly n' a) (anomalies r) -> n = n')
    /\ (forall p n n', In (rate_spike_anomaly p n) (anomalies r) ->
           In (rate_spike_anomaly p n') (anomalies r) -> n = n')
    /\ (forall a n n', In (off_hours_anomaly n a) (anomalies r) ->
           In (off_hours_anomaly n' a) (anomalies r) -> n = n').
Proof.
  intros r.
  assert (Hcite :
    (forall a n n', In (brute_force_anomaly n a) (anomalies r) ->
       In (brute_force_anomaly n' a) (anomalies r) -> n = n')
    /\ (forall a n n', In (error_spike_anomaly n a) (anomalies r) ->
           In (error_spike_anomaly n' a) (anomalies r) -> n = n')
    /\ (forall p n n', In (rate_spike_anomaly p n) (anomalies r) ->
           In (rate_spike_anomaly p n') (anomalies r) -> n = n')
    /\ (forall a n n', In (off_hours_anomaly n a) (anomalies r) ->
           In (off_hours_anomaly n' a) (anomalies r) -> n = n')).
  { unfold r. split; [|split; [|split]]; intros a n n' H H'.
    - apply cited_brute_force in H, H'. congruence.
    - apply cited_error_spike in H, H'. congruence.
    - apply cited_rate_spike in H, H'. congruence.
    - apply cited_off_hours in H, H'. congruence. }
  revert Hcite. unfold r. rewrite filter_http_error. rewrite anomalies_blocks. cbv zeta.
  set (es := entries (analyzeLogs getHours text)).
  set (st := aggregate getHours es).
  intros Hcite.
  exists (flat_map http_errors_of es),
         (brute_force_block st ++ error_spike_block st ++ suspicious_ua_block st
          ++ rate_spike_block st ++ off_hours_block st).
  split; [reflexivity|]. split; [reflexivity|].
  split; [|split; [|exact Hcite]].
  2: { apply Forall_forall. intros x Hx.
       repeat (apply in_app_or in Hx; destruct Hx as [Hx|Hx]).
       - apply In_brute_force_block in Hx. destruct Hx as (a & n & -> & _). left. eauto.
       - apply In_error_spike_block in Hx. destruct Hx as (a & n & -> & _).
         right; left. eauto.
       - unfold suspicious_ua_block in Hx. destruct (suspicious (uaSet st)); [|destruct Hx].
         destruct Hx as [<-|[]]. right; right; left. reflexivity.
       - apply In_rate_spike_block in Hx. destruct Hx as (p & n & -> & _).
         right; right; right; left. eauto.
       - apply In_off_hours_block in Hx. destruct Hx as (a & n & -> & _).
         right; right; right; right. eauto. }
  pose proof (all_of_type_flat_map brute_force_rule (Object_entries (failedByIP st))
                brute_force_rule_type) as Tb.
  pose proof (all_of_type_flat_map error_spike_rule (Object_entries (errorsByIP st))
                error_spike_rule_type) as Te.
  pose proof (suspicious_ua_block_type st) as Ts.
  pose proof (all_of_type_flat_map rate_spike_rule (Object_entries (maxPerIP_of st))
                rate_spike_rule_type) as Tr.
  pose proof (all_of_type_flat_map off_hours_rule (Object_entries (nightByIP st))
                off_hours_rule_type) as To.
  fold (brute_force_block st) in Tb. fold (error_spike_block st) in Te.
  fold (rate_spike_block st) in Tr. fold (off_hours_block st) in To.
  apply (NoDup_app_types Tb); [|apply NoDup_brute_force_block|].
  { intros x Hx. other_block Hx. }
  apply (NoDup_app_types Te); [|apply NoDup_error_spike_block|].
  { intros x Hx. other_block Hx. }
  apply (NoDup_app_types Ts); [|apply NoDup_suspicious_ua_block|].
  { intros x Hx. other_block Hx. }
  apply (NoDup_app_types Tr);
    [|apply NoDup_rate_spike_block | apply NoDup_off_hours_block].
  intros x Hx. other_block Hx.
Qed.
